(** * reviwer: chunked review orchestration, embedded and verified

    A shallow embedding of the Go sources of the reviewer tool: the line
    chunker ([ChunkDiff], [GetFileChunks], [GetProjectChunks]), the retry
    controller ([retryWithBackoff]), the two backend client variants
    ([ReviewChunk], [GenerateUnitTests], [lmstudioChat], [lmstudioChatTest]),
    the artifact writer ([ParseAndWriteTests]), the orchestrator
    ([ReviewAndFixLoop]) and the chunk selection of [main].

    Go [string] values are modelled as [string] (a sequence of bytes), Go
    [int] and [time.Duration] as [Z] with the 64-bit wrap-around written
    out where the source does arithmetic that could leave the range, Go
    [error] values by their text ([err.Error()]), [nil] being [None]. *)

From Stdlib Require Import ZArith List String Ascii Bool Lia DecimalString.
From Stdlib Require Import DecimalZ DecimalPos Sorted.
Import ListNotations.

Open Scope Z_scope.

(* ================================================================== *)
(** ** Machine integers and run outcomes *)

(** Two's complement wrap-around of a Go [int] / [int64]. *)
Definition wrap64 (z : Z) : Z := (z + 2 ^ 63) mod 2 ^ 64 - 2 ^ 63.

(** The largest Go [int]. *)
Definition max_int : Z := 2 ^ 63 - 1.

(** How a Go function call ends: it returns, it panics (a slice
    expression out of range), or it never returns. *)
Inductive Run (A : Type) : Type :=
| Returns (a : A)
| Panics
| Diverges.

Arguments Returns {A} a.
Arguments Panics {A}.
Arguments Diverges {A}.

(** A Go result pair [(value, err)] of which one side is meaningful. *)
Inductive Result (A : Type) : Type :=
| Ok (a : A)
| Fail (err : string).

Arguments Ok {A} a.
Arguments Fail {A} err.

(** [len(xs)] as a Go [int]. *)
Definition len {A : Type} (xs : list A) : Z := Z.of_nat (List.length xs).

(** The slice expression [xs[i:e]]: defined for [0 <= i <= e <= len(xs)],
    a run-time panic otherwise. *)
Definition slice {A : Type} (xs : list A) (i e : Z) : option (list A) :=
  if (0 <=? i) && (i <=? e) && (e <=? len xs)
  then Some (firstn (Z.to_nat (e - i)) (skipn (Z.to_nat i) xs))
  else None.

(* ================================================================== *)
(** ** Package [strings], as far as the program uses it *)

Module Strings.

Definition newline : ascii := "010"%char.

(** The separator ["\n"] the chunker splits and joins on. *)
Definition nl : string := String newline EmptyString.

(** [strings.Split(s, "\n")]: the substrings between the line feeds;
    one more element than there are line feeds, so never empty. *)
Fixpoint Split (s : string) : list string :=
  match s with
  | EmptyString => [EmptyString]
  | String c r =>
      if Ascii.eqb c newline then EmptyString :: Split r
      else match Split r with
           | h :: t => String c h :: t
           | [] => [String c EmptyString]
           end
  end.

(** [strings.Join(elems, sep)]. *)
Fixpoint Join (elems : list string) (sep : string) : string :=
  match elems with
  | [] => EmptyString
  | a :: rest =>
      match rest with
      | [] => a
      | _ :: _ => append a (append sep (Join rest sep))
      end
  end.

(** [strings.Index(s, substr)]: the offset of the first occurrence of
    [substr] in [s], or [-1]. *)
Fixpoint Index (s substr : string) : Z :=
  if prefix substr s then 0
  else match s with
       | EmptyString => -1
       | String _ r => let n := Index r substr in
                       if n <? 0 then -1 else n + 1
       end.

(** [strings.Contains(s, substr)]. *)
Definition Contains (s substr : string) : bool := 0 <=? Index s substr.

(** [strings.HasSuffix(s, suffix)]. *)
Definition HasSuffix (s suffix : string) : bool :=
  let n := String.length s in
  let m := String.length suffix in
  (m <=? n)%nat && String.eqb (substring (n - m) m s) suffix.

(** [len(s)]. *)
Definition slen (s : string) : Z := Z.of_nat (String.length s).

(** [s[a:]] and [s[a:b]] on offsets that are in range (see
    [Index_bound] for why the program's offsets are). *)
Definition from (s : string) (a : Z) : string :=
  substring (Z.to_nat a) (String.length s - Z.to_nat a) s.

Definition between (s : string) (a b : Z) : string :=
  substring (Z.to_nat a) (Z.to_nat (b - a)) s.

End Strings.

(* ================================================================== *)
(** ** The chunker *)

Module Chunker.
Import Strings.

(** The loop shared by [ChunkDiff], [GetFileChunks] and
    [GetProjectChunks]:
<<
    for i := 0; i < len(lines); i += chunkSize {
        end := i + chunkSize
        if end > len(lines) { end = len(lines) }
        chunk := strings.Join(lines[i:end], "\n")
        chunks = append(chunks, chunk)
    }
>>
    [fuel] bounds the number of iterations; the loop of the source has
    no bound of its own (with [chunkSize = 0] it never ends). *)
Fixpoint chunk_loop (fuel : nat) (lines : list string) (chunkSize i : Z)
         (chunks : list string) : Run (list string) :=
  if i <? len lines then
    match fuel with
    | O => Diverges
    | S fuel' =>
        let e := wrap64 (i + chunkSize) in
        let e := if e >? len lines then len lines else e in
        match slice lines i e with
        | None => Panics
        | Some part =>
            chunk_loop fuel' lines chunkSize (wrap64 (i + chunkSize))
                       (chunks ++ [Join part nl])
        end
    end
  else Returns chunks.

(** One iteration per line is the most a terminating run can take. *)
Definition chunk_lines (lines : list string) (chunkSize : Z)
           (chunks : list string) : Run (list string) :=
  chunk_loop (S (List.length lines)) lines chunkSize 0 chunks.

Definition ChunkDiff (diff : string) (chunkSize : Z) : Run (list string) :=
  chunk_lines (Split diff) chunkSize [].

(** [os.ReadFile]: the contents or an error, per path. *)
Definition FileSystem : Type := string -> Result string.

Definition GetFileChunks (fs : FileSystem) (path : string) (chunkSize : Z)
  : Run (list string * option string) :=
  match fs path with
  | Fail err => Returns ([], Some err)
  | Ok data =>
      match chunk_lines (Split data) chunkSize [] with
      | Returns chunks => Returns (chunks, None)
      | Panics => Panics
      | Diverges => Diverges
      end
  end.

(** The number of lines of a text, as the chunker counts them. *)
Definition line_count (body : string) : Z := len (Split body).

End Chunker.

(* ================================================================== *)
(** ** Errors and formatting *)

(** A Go [error] is kept by its text; [nil] is [None]. *)
Definition error : Type := option string.

(** [%d] of [fmt.Sprintf] and [fmt.Errorf]. *)
Definition itoa (z : Z) : string := NilZero.string_of_int (Z.to_int z).

(** The two errors a finished context reports through [ctx.Err()]. *)
Inductive CtxErr : Type := Canceled | DeadlineExceeded.

Definition ctx_text (e : CtxErr) : string :=
  match e with
  | Canceled => "context canceled"
  | DeadlineExceeded => "context deadline exceeded"
  end.

(* ================================================================== *)
(** ** The retry controller *)

Module Retry.

(** [time.Second], in nanoseconds. *)
Definition second : Z := 1000000000.

(** What the controller does that an observer can count: it invokes the
    operation, and it enters the [select] that waits [d] nanoseconds. *)
Inductive Event : Type :=
| Invoke
| Wait (d : Z).

(** The case the [select] statement takes: [<-ctx.Done()], with the
    value of [ctx.Err()], or [<-time.After(backoff)]. *)
Inductive Selected : Type :=
| CtxDone (e : CtxErr)
| TimerFired.

Section Controller.
Context {St : Type}.

(** The operation [fn], a closure over the state [St]. *)
Variable fn : St -> error * St.

(** The [select] on the context and the timer. *)
Variable select : Z -> St -> Selected * St.

(** The loop of [retryWithBackoff], [n] iterations left:
<<
    for i := 0; i < maxRetries; i++ {
        err = fn()
        if err == nil { return nil }
        select {
        case <-ctx.Done(): return ctx.Err()
        case <-time.After(backoff):
        }
        backoff *= 2
    }
    return err
>> *)
Fixpoint retry_loop (n : nat) (backoff : Z) (err : error) (s : St)
         (tr : list Event) : error * St * list Event :=
  match n with
  | O => (err, s, tr)
  | S n' =>
      let '(err1, s1) := fn s in
      let tr1 := tr ++ [Invoke] in
      match err1 with
      | None => (None, s1, tr1)
      | Some _ =>
          let '(sel, s2) := select backoff s1 in
          let tr2 := tr1 ++ [Wait backoff] in
          match sel with
          | CtxDone e => (Some (ctx_text e), s2, tr2)
          | TimerFired => retry_loop n' (wrap64 (backoff * 2)) err1 s2 tr2
          end
      end
  end.

Definition retryWithBackoff (maxRetries : Z) (s : St)
  : error * St * list Event :=
  retry_loop (Z.to_nat maxRetries) second None s [].

End Controller.

(** Counting the events of a run. *)
Definition is_invoke (e : Event) : bool :=
  match e with Invoke => true | Wait _ => false end.

Definition is_wait (e : Event) : bool :=
  match e with Invoke => false | Wait _ => true end.

Definition invocations (tr : list Event) : Z := len (filter is_invoke tr).
Definition waits (tr : list Event) : Z := len (filter is_wait tr).

End Retry.

(* ================================================================== *)
(** ** Configuration *)

Record LanguageConfig : Type := {
  Extension : string;
  ReviewPrompt : string;
  TestPrompt : string
}.

(** [Languages] is a Go map; the order of the list is the order in which
    a [range] over the map happens to visit it. *)
Record Config : Type := {
  Model : string;
  ChunkSize : Z;
  LLMProvider : string;
  LLMModel : string;
  Languages : list (string * LanguageConfig)
}.

Definition zeroLanguageConfig : LanguageConfig :=
  {| Extension := EmptyString; ReviewPrompt := EmptyString;
     TestPrompt := EmptyString |}.

(** [cfg.Languages[lang]]: the zero value when the key is absent. *)
Fixpoint lookupLanguage (m : list (string * LanguageConfig)) (lang : string)
  : LanguageConfig :=
  match m with
  | [] => zeroLanguageConfig
  | (k, v) :: rest => if String.eqb k lang then v else lookupLanguage rest lang
  end.

(* ================================================================== *)
(** ** The world outside the program *)

(** A chat-completion request: the model, the (role, content) messages
    and the output-token budget. *)
Record ChatRequest : Type := {
  req_model : string;
  req_messages : list (string * string);
  req_max_tokens : Z
}.

(** One run of the closure body of the local-server variant: where it
    stops. [Responds status decoded] is an HTTP response with its status
    code and what [json.Decode] makes of its body: an error, or the
    message contents of the choices. *)
Inductive HttpAttempt : Type :=
| MarshalFails (err : string)
| NewRequestFails (err : string)
| DoFails (err : string)
| Responds (status : Z) (decoded : Result (list string)).

(** What is written to the terminal, as far as the properties below
    speak of it. *)
Inductive Log : Type :=
| LogReviewing (chunkNo total : Z)
| LogReviewError (chunkNo attempt maxRetries : Z) (err : string)
| LogTimeoutWarning (timeoutCount : Z)
| LogEmptyReview (chunkNo : Z)
| LogTestGenError (chunkNo attempt maxRetries : Z) (err : string)
| LogTestGenFailed (chunkNo : Z) (err : string)
| LogSuggestions (testGen : string)
| LogWriteFailed (err : string)
| LogWrote (files : list string)
| LogTestRunFailed (err : string)
| LogTestsPassed
| LogChunkDone (chunkNo : Z)
| LogSummary (lang : string)
| LogCleanedUp
| LogLedgerNotWritten (path err : string)
| LogLedgerWritten (path : string)
| LogPanic
| LogEncodeFailed (err : string)
| LogCloseFailed (err : string).

(** A record of the failure ledger. *)
Record FailedChunk : Type := {
  Index : Z;
  Error : string
}.

(** The answers of everything the program calls out to; the [nat] is the
    number of earlier calls of the same kind. [env_create] is [os.Create]
    on the ledger path; [env_encode] is [json.Encoder.Encode] on the
    created file: the bytes that reached the file and the error, if not
    all of them did; [env_close] is the [Close] of that file. *)
Record Env : Type := {
  env_chat : nat -> ChatRequest -> Result (list string);
  env_http : nat -> ChatRequest -> HttpAttempt;
  env_select : nat -> Z -> Retry.Selected;
  env_now : nat -> Z;
  env_write : nat -> string -> string -> error;
  env_run : nat -> string -> string -> error;
  env_remove : nat -> string -> error;
  env_create : string -> error;
  env_interrupted : nat -> bool;
  env_join : string -> string -> string;
  env_encode : string -> list FailedChunk -> string * error;
  env_close : string -> error
}.

(** The state of the world: how often each service has been called, the
    files on disk as (name, contents) with the newest last (the ledger
    file among them, with the bytes the encoder wrote), the records of
    the ledger files that were encoded without an error, and the
    terminal output. *)
Record World : Type := {
  chat_calls : nat;
  http_attempts : nat;
  selects : nat;
  clock_reads : nat;
  write_calls : nat;
  run_calls : nat;
  remove_calls : nat;
  flag_reads : nat;
  sleeps : nat;
  disk : list (string * string);
  ledgers : list (string * list FailedChunk);
  terminal : list Log
}.

Definition world0 : World :=
  {| chat_calls := 0; http_attempts := 0; selects := 0; clock_reads := 0;
     write_calls := 0; run_calls := 0; remove_calls := 0; flag_reads := 0;
     sleeps := 0; disk := []; ledgers := []; terminal := [] |}.

Definition count_chat (w : World) : World :=
  {| chat_calls := S (chat_calls w); http_attempts := http_attempts w;
     selects := selects w; clock_reads := clock_reads w;
     write_calls := write_calls w; run_calls := run_calls w;
     remove_calls := remove_calls w; flag_reads := flag_reads w;
     sleeps := sleeps w; disk := disk w; ledgers := ledgers w;
     terminal := terminal w |}.

Definition count_http (w : World) : World :=
  {| chat_calls := chat_calls w; http_attempts := S (http_attempts w);
     selects := selects w; clock_reads := clock_reads w;
     write_calls := write_calls w; run_calls := run_calls w;
     remove_calls := remove_calls w; flag_reads := flag_reads w;
     sleeps := sleeps w; disk := disk w; ledgers := ledgers w;
     terminal := terminal w |}.

Definition count_select (w : World) : World :=
  {| chat_calls := chat_calls w; http_attempts := http_attempts w;
     selects := S (selects w); clock_reads := clock_reads w;
     write_calls := write_calls w; run_calls := run_calls w;
     remove_calls := remove_calls w; flag_reads := flag_reads w;
     sleeps := sleeps w; disk := disk w; ledgers := ledgers w;
     terminal := terminal w |}.

Definition count_clock (w : World) : World :=
  {| chat_calls := chat_calls w; http_attempts := http_attempts w;
     selects := selects w; clock_reads := S (clock_reads w);
     write_calls := write_calls w; run_calls := run_calls w;
     remove_calls := remove_calls w; flag_reads := flag_reads w;
     sleeps := sleeps w; disk := disk w; ledgers := ledgers w;
     terminal := terminal w |}.

Definition count_write (w : World) : World :=
  {| chat_calls := chat_calls w; http_attempts := http_attempts w;
     selects := selects w; clock_reads := clock_reads w;
     write_calls := S (write_calls w); run_calls := run_calls w;
     remove_calls := remove_calls w; flag_reads := flag_reads w;
     sleeps := sleeps w; disk := disk w; ledgers := ledgers w;
     terminal := terminal w |}.

Definition count_run (w : World) : World :=
  {| chat_calls := chat_calls w; http_attempts := http_attempts w;
     selects := selects w; clock_reads := clock_reads w;
     write_calls := write_calls w; run_calls := S (run_calls w);
     remove_calls := remove_calls w; flag_reads := flag_reads w;
     sleeps := sleeps w; disk := disk w; ledgers := ledgers w;
     terminal := terminal w |}.

Definition count_remove (w : World) : World :=
  {| chat_calls := chat_calls w; http_attempts := http_attempts w;
     selects := selects w; clock_reads := clock_reads w;
     write_calls := write_calls w; run_calls := run_calls w;
     remove_calls := S (remove_calls w); flag_reads := flag_reads w;
     sleeps := sleeps w; disk := disk w; ledgers := ledgers w;
     terminal := terminal w |}.

Definition count_flag (w : World) : World :=
  {| chat_calls := chat_calls w; http_attempts := http_attempts w;
     selects := selects w; clock_reads := clock_reads w;
     write_calls := write_calls w; run_calls := run_calls w;
     remove_calls := remove_calls w; flag_reads := S (flag_reads w);
     sleeps := sleeps w; disk := disk w; ledgers := ledgers w;
     terminal := terminal w |}.

Definition count_sleep (w : World) : World :=
  {| chat_calls := chat_calls w; http_attempts := http_attempts w;
     selects := selects w; clock_reads := clock_reads w;
     write_calls := write_calls w; run_calls := run_calls w;
     remove_calls := remove_calls w; flag_reads := flag_reads w;
     sleeps := S (sleeps w); disk := disk w; ledgers := ledgers w;
     terminal := terminal w |}.

Definition set_disk (d : list (string * string)) (w : World) : World :=
  {| chat_calls := chat_calls w; http_attempts := http_attempts w;
     selects := selects w; clock_reads := clock_reads w;
     write_calls := write_calls w; run_calls := run_calls w;
     remove_calls := remove_calls w; flag_reads := flag_reads w;
     sleeps := sleeps w; disk := d; ledgers := ledgers w;
     terminal := terminal w |}.

Definition add_ledger (path : string) (fc : list FailedChunk) (w : World)
  : World :=
  {| chat_calls := chat_calls w; http_attempts := http_attempts w;
     selects := selects w; clock_reads := clock_reads w;
     write_calls := write_calls w; run_calls := run_calls w;
     remove_calls := remove_calls w; flag_reads := flag_reads w;
     sleeps := sleeps w; disk := disk w;
     ledgers := ledgers w ++ [(path, fc)]; terminal := terminal w |}.

Definition say (l : Log) (w : World) : World :=
  {| chat_calls := chat_calls w; http_attempts := http_attempts w;
     selects := selects w; clock_reads := clock_reads w;
     write_calls := write_calls w; run_calls := run_calls w;
     remove_calls := remove_calls w; flag_reads := flag_reads w;
     sleeps := sleeps w; disk := disk w; ledgers := ledgers w;
     terminal := terminal w ++ [l] |}.

(* ================================================================== *)
(** ** The backend client *)

Module Client.

Record LLMClient : Type := {
  provider : string;
  model : string;
  apiKey : string;
  lmstudioURL : string
}.

Definition NewLLMClientWithProvider (cfg : Config) (key : string) : LLMClient :=
  if String.eqb (LLMProvider cfg) "lmstudio" then
    {| provider := "lmstudio"; model := LLMModel cfg; apiKey := key;
       lmstudioURL := "http://127.0.0.1:1234/v1/chat/completions" |}
  else
    {| provider := "openai"; model := Model cfg; apiKey := key;
       lmstudioURL := EmptyString |}.

Definition fence : string := "```".

(** [fmt.Sprintf(head + " %s code diff...:\n\n```%s\n%s\n```", lang, lang, code)]. *)
Definition user_content (head tail lang code : string) : string :=
  append head (append lang (append tail
    (append Strings.nl (append Strings.nl (append fence (append lang
      (append Strings.nl (append code (append Strings.nl fence))))))))).

Definition review_content (lang code : string) : string :=
  user_content "Here is the " " code diff chunk to review:" lang code.

Definition test_content (lang code : string) : string :=
  user_content "Generate unit tests for this " " code diff:" lang code.

(** The two-message exchange both request kinds build. *)
Definition chat_request (l : LLMClient) (prompt content : string) : ChatRequest :=
  {| req_model := model l;
     req_messages := [("system"%string, prompt); ("user"%string, content)];
     req_max_tokens := 2048 |}.

Definition no_response : string := "No response from LLM".

Section Backend.
Variable env : Env.

(** The hosted-API branch shared by [ReviewChunk] and [GenerateUnitTests]:
<<
    resp, err := l.openaiClient.CreateChatCompletion(ctx, ...)
    if err != nil { return the empty string, err }
    if len(resp.Choices) == 0 { return "No response from LLM", nil }
    return resp.Choices[0].Message.Content, nil
>> *)
Definition openaiChat (req : ChatRequest) (w : World) : string * error * World :=
  let w1 := count_chat w in
  match env_chat env (chat_calls w) req with
  | Fail err => (EmptyString, Some err, w1)
  | Ok choices =>
      match choices with
      | [] => (no_response, None, w1)
      | c :: _ => (c, None, w1)
      end
  end.

(** The closure [lmstudioChat] hands to [retryWithBackoff]; its captured
    variables [result] and [lastErr] travel with the world. *)
Definition lmstudioAttempt (req : ChatRequest) (st : string * error * World)
  : error * (string * error * World) :=
  let '(result, lastErr, w) := st in
  let w1 := count_http w in
  match env_http env (http_attempts w) req with
  | MarshalFails err => (Some err, (result, Some err, w1))
  | NewRequestFails err => (Some err, (result, Some err, w1))
  | DoFails err => (Some err, (result, Some err, w1))
  | Responds status decoded =>
      if negb (status =? 200) then
        let err := append "lmstudio status " (itoa status) in
        (Some err, (result, Some err, w1))
      else
        match decoded with
        | Fail err => (Some err, (result, Some err, w1))
        | Ok choices =>
            match choices with
            | [] => (Some no_response, (result, Some no_response, w1))
            | c :: _ => (None, (c, lastErr, w1))
            end
        end
  end.

(** The [select] of the controller, answered by the world. *)
Definition lmstudioSelect (backoff : Z) (st : string * error * World)
  : Retry.Selected * (string * error * World) :=
  let '(result, lastErr, w) := st in
  (env_select env (selects w) backoff, (result, lastErr, count_select w)).

(** [lmstudioChat]: the local-server review request, three attempts under
    the retry controller; on failure it returns [lastErr], the error of
    the last attempt. *)
Definition lmstudioChat (l : LLMClient) (prompt code lang : string) (w : World)
  : string * error * World :=
  let req := chat_request l prompt (review_content lang code) in
  let '(err, (result, lastErr, w'), _) :=
    Retry.retryWithBackoff (lmstudioAttempt req) lmstudioSelect 3
                           (EmptyString, None, w) in
  match err with
  | Some _ => (EmptyString, lastErr, w')
  | None => (result, None, w')
  end.

(** [lmstudioChatTest]: the local-server test-generation request, a
    single attempt. *)
Definition lmstudioChatTest (l : LLMClient) (prompt code lang : string)
           (w : World) : string * error * World :=
  let req := chat_request l prompt (test_content lang code) in
  let w1 := count_http w in
  match env_http env (http_attempts w) req with
  | MarshalFails err => (EmptyString, Some err, w1)
  | NewRequestFails err => (EmptyString, Some err, w1)
  | DoFails err => (EmptyString, Some err, w1)
  | Responds status decoded =>
      if negb (status =? 200) then
        (EmptyString, Some (append "lmstudio status " (itoa status)), w1)
      else
        match decoded with
        | Fail err => (EmptyString, Some err, w1)
        | Ok choices =>
            match choices with
            | [] => (no_response, None, w1)
            | c :: _ => (c, None, w1)
            end
        end
  end.

Definition ReviewChunk (l : LLMClient) (prompt code lang : string) (w : World)
  : string * error * World :=
  if String.eqb (provider l) "openai" then
    openaiChat (chat_request l prompt (review_content lang code)) w
  else lmstudioChat l prompt code lang w.

Definition GenerateUnitTests (l : LLMClient) (prompt code lang : string)
           (w : World) : string * error * World :=
  if String.eqb (provider l) "openai" then
    openaiChat (chat_request l prompt (test_content lang code)) w
  else lmstudioChatTest l prompt code lang w.

End Backend.
End Client.

(* ================================================================== *)
(** ** The test artifact manager *)

Module Artifacts.
Import Client.

(** [os.WriteFile] and [os.Remove] on the files of the disk. *)
Definition other_than (name : string) (f : string * string) : bool :=
  negb (String.eqb (fst f) name).

Definition disk_write (name content : string) (d : list (string * string))
  : list (string * string) :=
  filter (other_than name) d ++ [(name, content)].

Definition disk_remove (name : string) (d : list (string * string))
  : list (string * string) :=
  filter (other_than name) d.

Definition no_blocks_found : string := "no code blocks found in LLM test output".

Definition not_supported (lang : string) : string :=
  append "test writing not supported for language: " lang.

Section Manager.
Variable env : Env.

(** The [switch lang] that names the file of a block; it reads the clock
    for the languages it knows. *)
Definition artifact_name (lang dir : string) (chunkIdx blockNum : Z) (w : World)
  : option (string * World) :=
  let stamp := append (itoa chunkIdx) (append "_" (append (itoa blockNum)
                 (append "_" (itoa (env_now env (clock_reads w)))))) in
  if String.eqb lang "go" then
    Some (env_join env dir
            (append "llm_generated_test_" (append stamp ".go")),
          count_clock w)
  else if String.eqb lang "php" then
    Some (env_join env dir
            (append "LLMGeneratedTest_" (append stamp ".php")),
          count_clock w)
  else None.

(** The statements after the loop of [ParseAndWriteTests]. *)
Definition parse_end (files : list string) (w : World)
  : Run (list string * error * World) :=
  if len files =? 0 then Returns (files, Some no_blocks_found, w)
  else Returns (files, None, w).

(** The loop of [ParseAndWriteTests]; every iteration that does not leave
    the loop moves [start] forward, [fuel] bounds their number. *)
Fixpoint parse_loop (fuel : nat) (testGen lang dir : string)
         (chunkIdx start blockNum : Z) (files : list string) (w : World)
  : Run (list string * error * World) :=
  match fuel with
  | O => Diverges
  | S fuel' =>
      let codeStart := Strings.Index (Strings.from testGen start) fence in
      if codeStart =? -1 then parse_end files w
      else
        let codeStart := codeStart + start + 3 in
        let codeEnd := Strings.Index (Strings.from testGen codeStart) fence in
        if codeEnd =? -1 then parse_end files w
        else
          let codeEnd := codeEnd + codeStart in
          let codeBlock := Strings.between testGen codeStart codeEnd in
          match artifact_name lang dir chunkIdx blockNum w with
          | None => Returns (files, Some (not_supported lang), w)
          | Some (filename, w1) =>
              let w2 := count_write w1 in
              match env_write env (write_calls w1) filename codeBlock with
              | Some err => Returns (files, Some err, w2)
              | None =>
                  parse_loop fuel' testGen lang dir chunkIdx (codeEnd + 3)
                             (blockNum + 1) (files ++ [filename])
                             (set_disk (disk_write filename codeBlock (disk w2)) w2)
              end
          end
  end.

Definition ParseAndWriteTests (testGen lang dir : string) (chunkIdx : Z)
           (w : World) : Run (list string * error * World) :=
  parse_loop (S (String.length testGen)) testGen lang dir chunkIdx 0 0 [] w.

(** [CleanupGeneratedTests]: [os.Remove] on every file, errors dropped. *)
Fixpoint CleanupGeneratedTests (files : list string) (w : World) : World :=
  match files with
  | [] => w
  | f :: rest =>
      let w1 := count_remove w in
      match env_remove env (remove_calls w) f with
      | Some _ => CleanupGeneratedTests rest w1
      | None => CleanupGeneratedTests rest (set_disk (disk_remove f (disk w1)) w1)
      end
  end.

(** [RunTests]: the exit status of the test command of the language. *)
Definition RunTests (lang dir : string) (w : World) : error * World :=
  if String.eqb lang "go" || String.eqb lang "php" then
    (env_run env (run_calls w) lang dir, count_run w)
  else (Some (append "test running not supported for language: " lang), w).

End Manager.
End Artifacts.

(* ================================================================== *)
(** ** The review orchestrator *)

Module Orchestrator.
Import Client Artifacts.

(** The local variables of [ReviewAndFixLoop] that outlive a chunk. *)
Record Locals : Type := {
  totalTests : Z;
  testsPassed : Z;
  testsFailed : Z;
  writtenFiles : list string;
  failedChunks : list FailedChunk;
  timeoutCount : Z
}.

Definition locals0 : Locals :=
  {| totalTests := 0; testsPassed := 0; testsFailed := 0; writtenFiles := [];
     failedChunks := []; timeoutCount := 0 |}.

Definition set_timeoutCount (n : Z) (st : Locals) : Locals :=
  {| totalTests := totalTests st; testsPassed := testsPassed st;
     testsFailed := testsFailed st; writtenFiles := writtenFiles st;
     failedChunks := failedChunks st; timeoutCount := n |}.

Definition add_failedChunk (fc : FailedChunk) (st : Locals) : Locals :=
  {| totalTests := totalTests st; testsPassed := testsPassed st;
     testsFailed := testsFailed st; writtenFiles := writtenFiles st;
     failedChunks := failedChunks st ++ [fc]; timeoutCount := timeoutCount st |}.

Definition add_written (files : list string) (st : Locals) : Locals :=
  {| totalTests := totalTests st + len files; testsPassed := testsPassed st;
     testsFailed := testsFailed st; writtenFiles := writtenFiles st ++ files;
     failedChunks := failedChunks st; timeoutCount := timeoutCount st |}.

Definition add_passed (n : Z) (st : Locals) : Locals :=
  {| totalTests := totalTests st; testsPassed := testsPassed st + n;
     testsFailed := testsFailed st; writtenFiles := writtenFiles st;
     failedChunks := failedChunks st; timeoutCount := timeoutCount st |}.

Definition add_failed (n : Z) (st : Locals) : Locals :=
  {| totalTests := totalTests st; testsPassed := testsPassed st;
     testsFailed := testsFailed st + n; writtenFiles := writtenFiles st;
     failedChunks := failedChunks st; timeoutCount := timeoutCount st |}.

Definition deadline_text : string := "context deadline exceeded".

(** [strings.Contains(err.Error(), "context deadline exceeded")]. *)
Definition is_timeout (err : string) : bool := Strings.Contains err deadline_text.

(** [timeoutCount++] followed by the warning from three on. *)
Definition count_timeout (st : Locals) (w : World) : Locals * World :=
  let n := timeoutCount st + 1 in
  (set_timeoutCount n st, if n >=? 3 then say (LogTimeoutWarning n) w else w).

Section Loop.
Variable env : Env.
Variable l : LLMClient.
Variables (lang dir : string) (writeTests : bool) (maxRetries : Z).
Variables (reviewPrompt testPrompt : string).

(** The attempts at a review of one chunk:
<<
    for retries = 0; retries < maxRetries; retries++ {
        review, err = l.ReviewChunk(chunkCtx, reviewPrompt, chunk, lang)
        if err == nil { break }
        ... print ...
        time.Sleep(2 * time.Second)
    }
>> *)
Fixpoint review_attempts (n : nat) (retries i : Z) (chunk review : string)
         (err : error) (w : World) : string * error * World :=
  match n with
  | O => (review, err, w)
  | S n' =>
      let '(review1, err1, w1) := ReviewChunk env l reviewPrompt chunk lang w in
      match err1 with
      | None => (review1, None, w1)
      | Some e =>
          let w2 := say (LogReviewError (i + 1) (retries + 1) maxRetries e) w1 in
          review_attempts n' (retries + 1) i chunk review1 err1 (count_sleep w2)
      end
  end.

(** The attempts at the tests of one chunk, the same loop around
    [GenerateUnitTests]. *)
Fixpoint testgen_attempts (n : nat) (retries i : Z) (chunk testGen : string)
         (err : error) (w : World) : string * error * World :=
  match n with
  | O => (testGen, err, w)
  | S n' =>
      let '(testGen1, err1, w1) :=
        GenerateUnitTests env l testPrompt chunk lang w in
      match err1 with
      | None => (testGen1, None, w1)
      | Some e =>
          let w2 := say (LogTestGenError (i + 1) (retries + 1) maxRetries e) w1 in
          testgen_attempts n' (retries + 1) i chunk testGen1 err1 (count_sleep w2)
      end
  end.

(** The part of the loop body under [if writeTests]. *)
Definition write_and_run (i : Z) (testGen : string) (st : Locals) (w : World)
  : Run (Locals * World) :=
  let st1 := set_timeoutCount 0 st in
  match ParseAndWriteTests env testGen lang dir i w with
  | Diverges => Diverges
  | Panics => Panics
  | Returns (files, Some e, w1) => Returns (st1, say (LogWriteFailed e) w1)
  | Returns (files, None, w1) =>
      let st2 := add_written files st1 in
      let '(rerr, w2) := RunTests env lang dir (say (LogWrote files) w1) in
      match rerr with
      | Some e => Returns (add_failed (len files) st2, say (LogTestRunFailed e) w2)
      | None => Returns (add_passed (len files) st2, say LogTestsPassed w2)
      end
  end.

(** The loop body from the test generation on. *)
Definition generate_tests (i : Z) (chunk : string) (err : error) (st : Locals)
           (w : World) : Run (Locals * World) :=
  let '(testGen, err1, w1) :=
    testgen_attempts (Z.to_nat maxRetries) 0 i chunk EmptyString err w in
  match err1 with
  | Some e =>
      let '(st1, w2) :=
        if is_timeout e then count_timeout st w1
        else (set_timeoutCount 0 st, w1) in
      Returns (st1, say (LogTestGenFailed (i + 1) e) w2)
  | None =>
      let w2 := say (LogSuggestions testGen) w1 in
      match (if writeTests then write_and_run i testGen st w2
             else Returns (st, w2)) with
      | Returns (st1, w3) => Returns (st1, say (LogChunkDone (i + 1)) w3)
      | Panics => Panics
      | Diverges => Diverges
      end
  end.

(** One iteration of the loop over the chunks, after the interrupt flag
    has been read. *)
Definition process_chunk (i total : Z) (chunk : string) (st : Locals) (w : World)
  : Run (Locals * World) :=
  let w0 := say (LogReviewing (i + 1) total) w in
  let '(review, err, w1) :=
    review_attempts (Z.to_nat maxRetries) 0 i chunk EmptyString None w0 in
  let after_review (st' : Locals) :=
    let w2 := if String.eqb review EmptyString
              then say (LogEmptyReview (i + 1)) w1 else w1 in
    generate_tests i chunk err st' w2 in
  match err with
  | Some e =>
      if is_timeout e then
        let '(st1, w2) :=
          if is_timeout e then count_timeout st w1
          else (set_timeoutCount 0 st, w1) in
        Returns (add_failedChunk {| Index := i; Error := e |} st1, w2)
      else after_review (set_timeoutCount 0 st)
  | None => after_review st
  end.

(** [for i, chunk := range chunks { if interrupted { break } ... }]. *)
Fixpoint chunks_loop (chunks : list string) (i total : Z) (st : Locals)
         (w : World) : Run (Locals * World) :=
  match chunks with
  | [] => Returns (st, w)
  | chunk :: rest =>
      if env_interrupted env (flag_reads w) then Returns (st, count_flag w)
      else
        match process_chunk i total chunk st (count_flag w) with
        | Returns (st1, w1) => chunks_loop rest (i + 1) total st1 w1
        | Panics => Panics
        | Diverges => Diverges
        end
  end.

(** The statements after the loop: summary, cleanup, ledger.
<<
    if len(failedChunks) > 0 && failedChunksFile != "..." {
        f, err := os.Create(failedChunksFile)
        if err != nil { log ... } else {
            if err := json.NewEncoder(f).Encode(failedChunks); err != nil { log ... }
            if err := f.Close(); err != nil { log ... }
            log "Wrote failed chunks to ..."
        }
    }
>>
    [os.Create] leaves an empty file of that name on the disk, [Encode]
    puts into it what it manages to write; [ledgers] keeps the records
    of the files that were written completely. *)
Definition finish (keepTests : bool) (failedChunksFile : string) (st : Locals)
           (w : World) : World :=
  let w1 := say (LogSummary lang) w in
  let w2 := if writeTests && negb keepTests
            then say LogCleanedUp (CleanupGeneratedTests env (writtenFiles st) w1)
            else w1 in
  if (0 <? len (failedChunks st)) && negb (String.eqb failedChunksFile EmptyString)
  then match env_create env failedChunksFile with
       | Some e => say (LogLedgerNotWritten failedChunksFile e) w2
       | None =>
           let w3 := set_disk (disk_write failedChunksFile EmptyString (disk w2)) w2 in
           let '(bytes, encodeErr) :=
             env_encode env failedChunksFile (failedChunks st) in
           let w4 := set_disk (disk_write failedChunksFile bytes (disk w3)) w3 in
           let w5 := match encodeErr with
                     | Some e => say (LogEncodeFailed e) w4
                     | None => add_ledger failedChunksFile (failedChunks st) w4
                     end in
           let w6 := match env_close env failedChunksFile with
                     | Some e => say (LogCloseFailed e) w5
                     | None => w5
                     end in
           say (LogLedgerWritten failedChunksFile) w6
       end
  else w2.

End Loop.

(** [ReviewAndFixLoop]. The result carries, next to the returned error,
    the final values of the locals. A panic is recovered by the deferred
    function, which prints and lets the call return [nil]. The context
    and [chunkTimeout] do not appear: what they do to a backend call is
    part of the answers of the world. *)
Definition ReviewAndFixLoop (env : Env) (l : LLMClient) (cfg : Config)
           (lang : string) (chunks : list string) (writeTests : bool)
           (dir : string) (keepTests : bool) (maxRetries : Z)
           (failedChunksFile : string) (w : World)
  : Run (error * Locals * World) :=
  if String.eqb lang "go" || String.eqb lang "php" then
    let langCfg := lookupLanguage (Languages cfg) lang in
    match chunks_loop env l lang dir writeTests maxRetries
                      (ReviewPrompt langCfg) (TestPrompt langCfg)
                      chunks 0 (len chunks) locals0 w with
    | Returns (st, w1) =>
        Returns (None, st, finish env lang writeTests keepTests failedChunksFile st w1)
    | Panics => Returns (None, locals0, say LogPanic w)
    | Diverges => Diverges
    end
  else Returns (Some (append "unsupported language: " lang), locals0, w).

End Orchestrator.

(* ================================================================== *)
(** ** Chunk selection in [main] *)

Module Main.
Import Chunker.

(** What [filepath.WalkDir] hands to its callback, in walking order. *)
Inductive WalkEntry : Type :=
| Broken (path err : string)
| Directory (path : string)
| Regular (path : string).

(** The chunks of one file for every extension the path ends with; the
    inner [for _, ext := range extensions] of [GetProjectChunks]. *)
Fixpoint file_chunks (fs : FileSystem) (path : string) (chunkSize : Z)
         (extensions : list string) (chunks : list string)
  : Run (list string * error) :=
  match extensions with
  | [] => Returns (chunks, None)
  | ext :: rest =>
      if Strings.HasSuffix path ext then
        match fs path with
        | Fail err => Returns (chunks, Some err)
        | Ok data =>
            match chunk_lines (Strings.Split data) chunkSize chunks with
            | Returns chunks1 => file_chunks fs path chunkSize rest chunks1
            | Panics => Panics
            | Diverges => Diverges
            end
        end
      else file_chunks fs path chunkSize rest chunks
  end.

(** The walk of [GetProjectChunks]: an error of the callback ends it. *)
Fixpoint walk_chunks (fs : FileSystem) (entries : list WalkEntry)
         (chunkSize : Z) (extensions : list string) (chunks : list string)
  : Run (list string * error) :=
  match entries with
  | [] => Returns (chunks, None)
  | Broken _ err :: _ => Returns (chunks, Some err)
  | Directory _ :: rest => walk_chunks fs rest chunkSize extensions chunks
  | Regular path :: rest =>
      match file_chunks fs path chunkSize extensions chunks with
      | Returns (chunks1, None) =>
          walk_chunks fs rest chunkSize extensions chunks1
      | other => other
      end
  end.

Definition GetProjectChunks (fs : FileSystem) (walk : string -> list WalkEntry)
           (dir : string) (chunkSize : Z) (extensions : list string)
  : Run (list string * error) :=
  walk_chunks fs (walk dir) chunkSize extensions [].

(** The loop of the resume branch over the decoded ledger:
<<
    for _, fc := range failedChunks {
        if fc.Index >= 0 && fc.Index < len(allChunks) {
            chunks = append(chunks, allChunks[fc.Index])
        }
    }
>>
    The index expression panics when it is out of range. *)
Fixpoint resume_chunks (failed : list Z) (allChunks chunks : list string)
  : Run (list string) :=
  match failed with
  | [] => Returns chunks
  | idx :: rest =>
      if (idx >=? 0) && (idx <? len allChunks) then
        match nth_error allChunks (Z.to_nat idx) with
        | Some c => resume_chunks rest allChunks (chunks ++ [c])
        | None => Panics
        end
      else resume_chunks rest allChunks chunks
  end.

(** The command line. *)
Record Flags : Type := {
  maxRetries : Z;
  failedChunksFile : string;
  resumeFailed : bool;
  configPath : string;
  mode : string;
  dir : string;
  file : string;
  base : string;
  writeTests : bool;
  keepTests : bool;
  llmProvider : string;
  llmModel : string
}.

(** Reading the ledger: [os.Open] fails, [Decode] fails, or the indices
    of the records. *)
Inductive LedgerRead : Type :=
| OpenFails (err : string)
| DecodeFails (err : string)
| Decoded (indices : list Z).

(** What [main] reads from outside. *)
Record Inputs : Type := {
  in_config : string -> Result Config;
  in_ledger : string -> LedgerRead;
  in_files : FileSystem;
  in_walk : string -> list WalkEntry;
  in_uncommitted : string -> Result string;
  in_branch : string -> string -> Result string;
  in_health : error;
  in_visit : list string
}.

(** How [main] ends, as far as the choice of chunks goes: [os.Exit(1)]
    with a message, a return without a review, or the calls of
    [ReviewAndFixLoop] it makes, each with its language and chunks. *)
Inductive Outcome : Type :=
| Fatal (msg : string)
| Quiet
| Reviews (calls : list (string * list string))
| Crashes
| Hangs.

Definition lmstudio_models : list string :=
  ["claude-3.7-sonnet-reasoning-gemma3-12b"; "google/gemma-3-12b";
   "openchat_3.5"]%string.

Definition with_provider (p : string) (cfg : Config) : Config :=
  {| Model := Model cfg; ChunkSize := ChunkSize cfg; LLMProvider := p;
     LLMModel := LLMModel cfg; Languages := Languages cfg |}.

Definition with_model (m : string) (cfg : Config) : Config :=
  {| Model := Model cfg; ChunkSize := ChunkSize cfg;
     LLMProvider := LLMProvider cfg; LLMModel := m;
     Languages := Languages cfg |}.

(** [detectLangFromDiff] and [detectLangFromFilename]. *)
Fixpoint detectLangFromDiff (diff : string) (langs : list (string * LanguageConfig))
  : string :=
  match langs with
  | [] => EmptyString
  | (l, lcfg) :: rest =>
      if Strings.Contains diff (Extension lcfg) then l
      else detectLangFromDiff diff rest
  end.

Fixpoint detectLangFromFilename (filename : string)
         (langs : list (string * LanguageConfig)) : string :=
  match langs with
  | [] => EmptyString
  | (l, lcfg) :: rest =>
      if Strings.HasSuffix filename (Extension lcfg) then l
      else detectLangFromFilename filename rest
  end.

(** The resume branch of [main]: the value of [chunks] when it is left. *)
Definition resume_branch (inp : Inputs) (fl : Flags) (cfg : Config)
  : Run (Result (list string)) :=
  match in_ledger inp (failedChunksFile fl) with
  | OpenFails err =>
      Returns (Fail (append "Failed to open failed chunks file: " err))
  | DecodeFails err =>
      Returns (Fail (append "Failed to decode failed chunks file: " err))
  | Decoded indices =>
      let ext := Extension (lookupLanguage (Languages cfg) "go") in
      match GetProjectChunks (in_files inp) (in_walk inp) (dir fl)
                             (ChunkSize cfg) [ext] with
      | Returns (allChunks, _) =>
          match resume_chunks indices allChunks [] with
          | Returns chunks => Returns (Ok chunks)
          | Panics => Panics
          | Diverges => Diverges
          end
      | Panics => Panics
      | Diverges => Diverges
      end
  end.

(** The chunks of the files of one language in [review-project] mode;
    a file that cannot be read is skipped. *)
Fixpoint lang_chunks (fs : FileSystem) (files : list string) (chunkSize : Z)
         (langChunks : list string) : Run (list string) :=
  match files with
  | [] => Returns langChunks
  | f :: rest =>
      match GetFileChunks fs f chunkSize with
      | Returns (chunks, None) =>
          lang_chunks fs rest chunkSize (langChunks ++ chunks)
      | Returns (_, Some _) => lang_chunks fs rest chunkSize langChunks
      | Panics => Panics
      | Diverges => Diverges
      end
  end.

(** The regular files of a walk that end with an extension; a broken
    entry ends the walk with its error. *)
Fixpoint walk_files (entries : list WalkEntry) (ext : string) (acc : list string)
  : Result (list string) :=
  match entries with
  | [] => Ok acc
  | Broken _ err :: _ => Fail err
  | Directory _ :: rest => walk_files rest ext acc
  | Regular path :: rest =>
      walk_files rest ext
                 (if Strings.HasSuffix path ext then acc ++ [path] else acc)
  end.

(** The calls of [ReviewAndFixLoop] in [review-project] mode, for the
    languages in the order [visit] of the map iteration. *)
Fixpoint project_reviews (fs : FileSystem) (visit : list string)
         (files : string -> list string) (chunkSize : Z)
         (calls : list (string * list string)) : Outcome :=
  match visit with
  | [] => Reviews calls
  | l :: rest =>
      match files l with
      | [] => project_reviews fs rest files chunkSize calls
      | _ :: _ =>
          match lang_chunks fs (files l) chunkSize [] with
          | Returns [] => project_reviews fs rest files chunkSize calls
          | Returns langChunks =>
              project_reviews fs rest files chunkSize (calls ++ [(l, langChunks)])
          | Panics => Crashes
          | Diverges => Hangs
          end
      end
  end.

(** The [switch *mode]; [chunks] is the value the variable has when the
    switch is entered. *)
Definition mode_switch (inp : Inputs) (fl : Flags) (cfg : Config)
           (chunks : list string) : Outcome :=
  let ext_of l := Extension (lookupLanguage (Languages cfg) l) in
  if String.eqb (mode fl) "diff-uncommitted" then
    match in_uncommitted inp (dir fl) with
    | Fail err => Fatal (append "Failed to get uncommitted diff: " err)
    | Ok diff =>
        let lang := if Strings.Contains diff (ext_of "go"%string) then "go"%string
                    else if Strings.Contains diff (ext_of "php"%string)
                         then "php"%string else "go"%string in
        match ChunkDiff diff (ChunkSize cfg) with
        | Returns chunks1 => Reviews [(lang, chunks1)]
        | Panics => Crashes
        | Diverges => Hangs
        end
    end
  else if String.eqb (mode fl) "diff-branch" then
    match in_branch inp (dir fl) (base fl) with
    | Fail err => Fatal (append "Failed to get branch diff: " err)
    | Ok diff =>
        if Strings.slen diff =? 0 then Quiet
        else
          let lang := detectLangFromDiff diff (Languages cfg) in
          if String.eqb lang EmptyString
          then Fatal "Could not detect language from diff."
          else match ChunkDiff diff (ChunkSize cfg) with
               | Returns chunks1 => Reviews [(lang, chunks1)]
               | Panics => Crashes
               | Diverges => Hangs
               end
    end
  else if String.eqb (mode fl) "review-project" then
    match walk_files (in_walk inp (dir fl)) (ext_of "go"%string) [],
          walk_files (in_walk inp (dir fl)) (ext_of "php"%string) [] with
    | Ok goFiles, Ok phpFiles =>
        match goFiles, phpFiles with
        | [], [] => Fatal "No supported files found in project."
        | _, _ =>
            project_reviews (in_files inp) (in_visit inp)
              (fun l => if String.eqb l "go" then goFiles
                        else if String.eqb l "php" then phpFiles else [])
              (ChunkSize cfg) []
        end
    | Fail err, _ => Fatal (append "Failed to scan project files: " err)
    | _, Fail err => Fatal (append "Failed to scan project files: " err)
    end
  else if String.eqb (mode fl) "review-file" then
    if String.eqb (file fl) EmptyString
    then Fatal "--file must be specified for review-file mode"
    else match GetFileChunks (in_files inp) (file fl) (ChunkSize cfg) with
         | Returns (_, Some err) => Fatal (append "Failed to get file chunks: " err)
         | Returns (chunks1, None) =>
             let lang := detectLangFromFilename (file fl) (Languages cfg) in
             if String.eqb lang EmptyString
             then Fatal "Could not detect language from file."
             else Reviews [(lang, chunks1)]
         | Panics => Crashes
         | Diverges => Hangs
         end
  else Fatal "Unknown mode.".

(** [main], from the flags to the calls of [ReviewAndFixLoop]. *)
Definition main (inp : Inputs) (fl : Flags) : Outcome :=
  match in_config inp (configPath fl) with
  | Fail err => Fatal (append "Failed to load config: " err)
  | Ok cfg =>
      let resumed :=
        if resumeFailed fl then resume_branch inp fl cfg else Returns (Ok []) in
      match resumed with
      | Panics => Crashes
      | Diverges => Hangs
      | Returns (Fail msg) => Fatal msg
      | Returns (Ok chunks) =>
          let cfg1 := if String.eqb (llmProvider fl) EmptyString then cfg
                      else with_provider (llmProvider fl) cfg in
          let cfg2 := if String.eqb (llmModel fl) EmptyString then cfg1
                      else with_model (llmModel fl) cfg1 in
          if String.eqb (LLMProvider cfg2) "lmstudio"
             && negb (existsb (String.eqb (LLMModel cfg2)) lmstudio_models)
          then Fatal (append "Invalid lmstudio model: " (LLMModel cfg2))
          else
            match in_health inp with
            | Some err => Fatal (append "[!] LLM backend health check failed: " err)
            | None => mode_switch inp fl cfg2 chunks
            end
      end
  end.

End Main.

(* ================================================================== *)
(** ** Auxiliary notions for the statements *)

(** The windows of [k] elements a list falls into; [fuel] bounds their
    number. The chunker's loop computes the same windows by index. *)
Fixpoint groups {A : Type} (fuel k : nat) (l : list A) : list (list A) :=
  match fuel with
  | O => []
  | S fuel' =>
      match l with
      | [] => []
      | _ :: _ => firstn k l :: groups fuel' k (skipn k l)
      end
  end.

(** A line holds no line feed. *)
Fixpoint no_newline (s : string) : bool :=
  match s with
  | EmptyString => true
  | String c r => negb (Ascii.eqb c Strings.newline) && no_newline r
  end.

(** A window of lines as the chunk the loop makes of it. *)
Definition join_lines (g : list string) : string := Strings.Join g Strings.nl.

(** A body of ten lines, for the scenario of the specification. *)
Definition ten_lines : string :=
  Strings.Join ["l0"; "l1"; "l2"; "l3"; "l4"; "l5"; "l6"; "l7"; "l8"; "l9"]%string
               Strings.nl.

(** An operation and a context given by their answers: the [i]-th
    invocation of the operation returns [outcomes i], the [j]-th [select]
    takes the case [sel j d] when the backoff is [d]. The state counts
    the invocations and the selects so far. *)
Definition scripted_fn (outcomes : nat -> error) (s : nat * nat)
  : error * (nat * nat) :=
  (outcomes (fst s), (S (fst s), snd s)).

Definition scripted_select (sel : nat -> Z -> Retry.Selected) (d : Z)
           (s : nat * nat) : Retry.Selected * (nat * nat) :=
  (sel (snd s) d, (fst s, S (snd s))).

(** A context that is never done. *)
Definition never_done (j : nat) (d : Z) : Retry.Selected := Retry.TimerFired.

(** A context whose deadline passes during the [j]-th wait. *)
Definition done_at (j : nat) (i : nat) (d : Z) : Retry.Selected :=
  if Nat.eqb i j then Retry.CtxDone DeadlineExceeded else Retry.TimerFired.

(** An operation that fails every time, with a numbered error. *)
Definition always_failing (i : nat) : error :=
  Some (append "attempt " (itoa (Z.of_nat i))).

(** The JSON text of a ledger whose error texts need no escaping. *)
Definition quote : string := String "034"%char EmptyString.

Definition render_record (fc : FailedChunk) : string :=
  append "{" (append quote (append "index" (append quote (append ":"
    (append (itoa (Index fc)) (append "," (append quote (append "error"
      (append quote (append ":" (append quote (append (Error fc)
        (append quote "}"))))))))))))).

Definition render_ledger (fcs : list FailedChunk) : string :=
  append "[" (append (Strings.Join (map render_record fcs) ",")
                     (append "]" Strings.nl)).

(** A backend that is reachable and answers every request with zero
    choices, a context that is never done, a clock that ticks, a disk
    that takes every write, tests that pass. *)
Definition silent_env : Env :=
  {| env_chat := fun _ _ => Ok [];
     env_http := fun _ _ => Responds 200 (Ok []);
     env_select := never_done;
     env_now := fun k => Z.of_nat k;
     env_write := fun _ _ _ => None;
     env_run := fun _ _ _ => None;
     env_remove := fun _ _ => None;
     env_create := fun _ => None;
     env_interrupted := fun _ => false;
     env_join := fun d n => append d (append "/" n);
     env_encode := fun _ fc => (render_ledger fc, None);
     env_close := fun _ => None |}.

Definition local_client : Client.LLMClient :=
  {| Client.provider := "lmstudio"; Client.model := "openchat_3.5";
     Client.apiKey := EmptyString;
     Client.lmstudioURL := "http://127.0.0.1:1234/v1/chat/completions" |}.

Definition hosted_client : Client.LLMClient :=
  {| Client.provider := "openai"; Client.model := "gpt-4";
     Client.apiKey := "key"; Client.lmstudioURL := EmptyString |}.

(** A fence stands at offset [i] of a text. *)
Definition fence_at (text : string) (i : nat) : Prop :=
  substring i 3 text = Client.fence.

(** A text holds a fenced code block: an opening fence and, after it, a
    closing one. *)
Definition has_fenced_block (text : string) : Prop :=
  exists i j, fence_at text i /\ fence_at text j /\ (i + 3 <= j)%nat.



(** The languages with a registered file-naming convention. *)
Definition supported (lang : string) : bool :=
  String.eqb lang "go" || String.eqb lang "php".

(** A file of that name is on the disk. *)
Definition on_disk (w : World) (f : string) : Prop := In f (map fst (disk w)).


(** A disk that is full after two writes. *)
Definition full_after_two : Env :=
  {| env_chat := env_chat silent_env;
     env_http := env_http silent_env;
     env_select := env_select silent_env;
     env_now := env_now silent_env;
     env_write := fun k _ _ => if (k <? 2)%nat then None
                               else Some "no space left on device"%string;
     env_run := env_run silent_env;
     env_remove := env_remove silent_env;
     env_create := env_create silent_env;
     env_interrupted := env_interrupted silent_env;
     env_join := env_join silent_env;
     env_encode := env_encode silent_env;
     env_close := env_close silent_env |}.

(** A model output with three fenced blocks. *)
Definition three_blocks : string :=
  "```go A``` and ```go B``` and ```go C```".

(** The error the review attempts of chunk [i] end with. *)
Definition review_outcome (env : Env) (l : Client.LLMClient) (lang : string)
           (maxRetries : Z) (reviewPrompt : string) (i total : Z)
           (chunk : string) (w : World) : error :=
  snd (fst (Orchestrator.review_attempts env l lang maxRetries reviewPrompt
              (Z.to_nat maxRetries) 0 i chunk EmptyString None
              (say (LogReviewing (i + 1) total) w))).

(** What the loop body adds to the ledger for chunk [i], given the error
    its review ended with. *)
Definition recorded (i : Z) (err : error) : list FailedChunk :=
  match err with
  | Some e => if Orchestrator.is_timeout e
              then [{| Index := i; Error := e |}] else []
  | None => []
  end.

(** A hosted backend that answers the [k]-th request with [replies k]. *)
Definition hosted_env (replies : nat -> Result (list string)) : Env :=
  {| env_chat := fun k _ => replies k;
     env_http := env_http silent_env;
     env_select := env_select silent_env;
     env_now := env_now silent_env;
     env_write := env_write silent_env;
     env_run := env_run silent_env;
     env_remove := env_remove silent_env;
     env_create := env_create silent_env;
     env_interrupted := env_interrupted silent_env;
     env_join := env_join silent_env;
     env_encode := env_encode silent_env;
     env_close := env_close silent_env |}.

Definition timed_out : Result (list string) :=
  Fail "Post https://api.openai.com/v1/chat/completions: context deadline exceeded".

Definition server_error : Result (list string) :=
  Fail "error, status code: 500, message: internal error".

(** Four chunks: the reviews of the first two time out, the third chunk
    is reviewed and gets its tests, the review of the fourth times out. *)
Definition timeouts_around_a_success (k : nat) : Result (list string) :=
  match k with
  | 0%nat => timed_out
  | 1%nat => timed_out
  | 2%nat => Ok ["Looks fine."%string]
  | 3%nat => Ok ["No tests needed."%string]
  | _ => timed_out
  end.

(** Two chunks: the review of the first fails with a server error and
    its tests are generated; the second is reviewed and its test
    generation fails with a server error. *)
Definition server_errors (k : nat) : Result (list string) :=
  match k with
  | 0%nat => server_error
  | 1%nat => Ok ["No tests needed."%string]
  | 2%nat => Ok ["Looks fine."%string]
  | _ => server_error
  end.

Definition go_config : Config :=
  {| Model := "gpt-4"; ChunkSize := 4; LLMProvider := "openai";
     LLMModel := "gpt-4";
     Languages :=
       [("go"%string,
         {| Extension := ".go"; ReviewPrompt := "Review this.";
            TestPrompt := "Write tests." |});
        ("php"%string,
         {| Extension := ".php"; ReviewPrompt := "Review this.";
            TestPrompt := "Write tests." |})] |}.

(** The chunks the in-range indices of a ledger select, in ledger order. *)
Definition in_range_chunks (failed : list Z) (allChunks : list string)
  : list string :=
  flat_map (fun idx => if (0 <=? idx) && (idx <? len allChunks)
                       then [nth (Z.to_nat idx) allChunks EmptyString]
                       else [])
           failed.

(** The same command line without [--resume-failed]. *)
Definition without_resume (fl : Main.Flags) : Main.Flags :=
  {| Main.maxRetries := Main.maxRetries fl;
     Main.failedChunksFile := Main.failedChunksFile fl;
     Main.resumeFailed := false;
     Main.configPath := Main.configPath fl;
     Main.mode := Main.mode fl;
     Main.dir := Main.dir fl;
     Main.file := Main.file fl;
     Main.base := Main.base fl;
     Main.writeTests := Main.writeTests fl;
     Main.keepTests := Main.keepTests fl;
     Main.llmProvider := Main.llmProvider fl;
     Main.llmModel := Main.llmModel fl |}.

(** A project of one Go file of six lines, a ledger that names chunk 1,
    chunk 7 and chunk -2, and an uncommitted diff. *)
Definition six_lines : string :=
  Strings.Join ["package a"; "func a() {}"; "func b() {}"; "func c() {}";
                "func d() {}"; "func e() {}"]%string Strings.nl.

Definition small_diff : string :=
  Strings.Join ["diff --git a/a.go b/a.go"; "+func f() {}"]%string Strings.nl.

Definition resume_inputs : Main.Inputs :=
  {| Main.in_config := fun _ => Ok go_config;
     Main.in_ledger := fun _ => Main.Decoded [1; 7; -2];
     Main.in_files := fun _ => Ok six_lines;
     Main.in_walk := fun _ => [Main.Directory "."; Main.Regular "a.go"];
     Main.in_uncommitted := fun _ => Ok small_diff;
     Main.in_branch := fun _ _ => Ok small_diff;
     Main.in_health := None;
     Main.in_visit := ["go"; "php"]%string |}.

(** [--resume-failed] with every other flag at its default. *)
Definition resume_flags : Main.Flags :=
  {| Main.maxRetries := 1;
     Main.failedChunksFile := "failed_chunks.json";
     Main.resumeFailed := true;
     Main.configPath := "config.toml";
     Main.mode := "diff-uncommitted";
     Main.dir := ".";
     Main.file := EmptyString;
     Main.base := "master";
     Main.writeTests := false;
     Main.keepTests := false;
     Main.llmProvider := EmptyString;
     Main.llmModel := EmptyString |}.

(** The regular files of a walk whose path ends with [ext], in walking
    order. *)
Fixpoint regular_with (ext : string) (entries : list Main.WalkEntry)
  : list string :=
  match entries with
  | [] => []
  | Main.Regular path :: rest =>
      if Strings.HasSuffix path ext then path :: regular_with ext rest
      else regular_with ext rest
  | _ :: rest => regular_with ext rest
  end.

(** No entry of the walk reports an error. *)
Fixpoint unbroken (entries : list Main.WalkEntry) : bool :=
  match entries with
  | [] => true
  | Main.Broken _ _ :: _ => false
  | _ :: rest => unbroken rest
  end.

(** The waits of [m] failed attempts in a row when the backoff starts at
    [b]: [b], [2b], [4b], ... after each invocation. *)
Fixpoint doubling_trace (m : nat) (b : Z) : list Retry.Event :=
  match m with
  | O => []
  | S m' => Retry.Invoke :: Retry.Wait b :: doubling_trace m' (b * 2)
  end.

(** An operation that fails [j] times and then succeeds. *)
Definition fails_then_succeeds (j : nat) (i : nat) : error :=
  if (i <? j)%nat then always_failing i else None.

(** Two worlds differ at most in the counters of the backend: nothing
    was written, removed, run, printed or slept between them. *)
Definition backend_only (w w' : World) : Prop :=
  clock_reads w' = clock_reads w
  /\ write_calls w' = write_calls w
  /\ run_calls w' = run_calls w
  /\ remove_calls w' = remove_calls w
  /\ flag_reads w' = flag_reads w
  /\ sleeps w' = sleeps w
  /\ disk w' = disk w
  /\ ledgers w' = ledgers w
  /\ terminal w' = terminal w.

(** The text an attempt of the local-server review yields, when it
    yields one: status 200 and at least one choice. *)
Definition attempt_text (a : HttpAttempt) : option string :=
  match a with
  | Responds status (Ok (c :: _)) => if status =? 200 then Some c else None
  | _ => None
  end.

(** The error of an attempt that yields no text. *)
Definition attempt_error (a : HttpAttempt) : string :=
  match a with
  | MarshalFails e => e
  | NewRequestFails e => e
  | DoFails e => e
  | Responds status decoded =>
      if negb (status =? 200) then append "lmstudio status " (itoa status)
      else match decoded with
           | Fail e => e
           | Ok _ => Client.no_response
           end
  end.

(** A local server that refuses the first [j] connections and then
    answers with one choice. *)
Definition recovering_env (j : nat) : Env :=
  {| env_chat := env_chat silent_env;
     env_http := fun k _ => if (k <? j)%nat then DoFails "connection refused"
                            else Responds 200 (Ok ["Looks fine."%string]);
     env_select := env_select silent_env;
     env_now := env_now silent_env;
     env_write := env_write silent_env;
     env_run := env_run silent_env;
     env_remove := env_remove silent_env;
     env_create := env_create silent_env;
     env_interrupted := env_interrupted silent_env;
     env_join := env_join silent_env;
     env_encode := env_encode silent_env;
     env_close := env_close silent_env |}.

(** A local server that is down, under a context that is canceled during
    the first wait. *)
Definition canceled_env : Env :=
  {| env_chat := env_chat silent_env;
     env_http := fun _ _ => DoFails "connection refused";
     env_select := fun _ _ => Retry.CtxDone Canceled;
     env_now := env_now silent_env;
     env_write := env_write silent_env;
     env_run := env_run silent_env;
     env_remove := env_remove silent_env;
     env_create := env_create silent_env;
     env_interrupted := env_interrupted silent_env;
     env_join := env_join silent_env;
     env_encode := env_encode silent_env;
     env_close := env_close silent_env |}.

(** A text without a backquote. *)
Fixpoint no_backtick (s : string) : bool :=
  match s with
  | EmptyString => true
  | String c r => negb (Ascii.eqb c "`"%char) && no_backtick r
  end.

(** A disk on which no file can be removed. *)
Definition sticky_env : Env :=
  {| env_chat := env_chat silent_env;
     env_http := env_http silent_env;
     env_select := env_select silent_env;
     env_now := env_now silent_env;
     env_write := env_write silent_env;
     env_run := env_run silent_env;
     env_remove := fun _ _ => Some "permission denied"%string;
     env_create := env_create silent_env;
     env_interrupted := env_interrupted silent_env;
     env_join := env_join silent_env;
     env_encode := env_encode silent_env;
     env_close := env_close silent_env |}.

(** A world with two generated files and one other file on its disk. *)
Definition three_files : World :=
  set_disk [("out/a_test.go", "A"); ("out/main.go", "M"); ("out/b_test.go", "B")]%string
           world0.

(** A model output: text before a fenced block, the block between its
    fences, and text after it. *)
Definition around_block (pre body post : string) : string :=
  append pre (append Client.fence (append body (append Client.fence post))).

(** Scenario C of the specification: the answer of a model with one
    fenced Go test. *)
Definition go_test_body : string :=
  append "go" (append Strings.nl (append "func TestX(t *testing.T){}" Strings.nl)).

(** Between two worlds no file was written or removed, no test was run,
    the clock and the interrupt flag were not read, no ledger written. *)
Definition no_disk_effect (w w' : World) : Prop :=
  clock_reads w' = clock_reads w
  /\ write_calls w' = write_calls w
  /\ run_calls w' = run_calls w
  /\ remove_calls w' = remove_calls w
  /\ flag_reads w' = flag_reads w
  /\ disk w' = disk w
  /\ ledgers w' = ledgers w.

(** Between two worlds the backend was not called and nothing slept. *)
Definition no_backend_effect (w w' : World) : Prop :=
  chat_calls w' = chat_calls w
  /\ http_attempts w' = http_attempts w
  /\ selects w' = selects w
  /\ sleeps w' = sleeps w.

(** The counters of the summary agree with each other and with the list
    of written files. *)
Definition balanced (st : Orchestrator.Locals) : Prop :=
  Orchestrator.totalTests st
  = Orchestrator.testsPassed st + Orchestrator.testsFailed st
  /\ Orchestrator.totalTests st = len (Orchestrator.writtenFiles st).

(** A record of the ledger made for one of the chunks [i], ..., [i + n - 1]
    because of a timeout. *)
Definition timeout_record (i n : Z) (fc : FailedChunk) : Prop :=
  i <= Index fc < i + n /\ Orchestrator.is_timeout (Error fc) = true.

Definition index_lt (a b : FailedChunk) : Prop := Index a < Index b.

(** The end of the run tries to write the ledger file: there is a record
    and a path. *)
Definition ledger_due (path : string) (fc : list FailedChunk) : bool :=
  (0 <? len fc) && negb (String.eqb path EmptyString).

(** What the end of the run adds to the completely written ledger files:
    the file was created and every record encoded. *)
Definition ledger_written (env : Env) (path : string) (fc : list FailedChunk)
  : list (string * list FailedChunk) :=
  if ledger_due path fc
  then match env_create env path, snd (env_encode env path fc) with
       | None, None => [(path, fc)]
       | _, _ => []
       end
  else [].

(** The answer to the liveness request of the health check: the request
    cannot be built, the transport fails, or a status code comes back. *)
Inductive Probe : Type :=
| ProbeRequestFails (err : string)
| ProbeFails (err : string)
| ProbeStatus (status : Z).

(** [strings.Replace(s, old, new, 1)]: the first occurrence of [old]
    replaced, [s] itself when there is none. *)
Definition Replace1 (s old new : string) : string :=
  let i := Strings.Index s old in
  if i <? 0 then s
  else append (Strings.between s 0 i)
              (append new (Strings.from s (i + Strings.slen old))).

(** [HealthCheck]: a GET on the models endpoint next to the chat endpoint
    for the local server, the presence of the key for the hosted API. *)
Definition HealthCheck (get : string -> Probe) (l : Client.LLMClient) : error :=
  if String.eqb (Client.provider l) "lmstudio" then
    match get (Replace1 (Client.lmstudioURL l) "/v1/chat/completions" "/v1/models") with
    | ProbeRequestFails err => Some err
    | ProbeFails err => Some err
    | ProbeStatus status =>
        if negb (status =? 200)
        then Some (append "lmstudio health check failed, status: " (itoa status))
        else None
    end
  else if String.eqb (Client.provider l) "openai"
          && String.eqb (Client.apiKey l) EmptyString
       then Some "OPENAI_API_KEY is not set"%string
       else None.

Definition models_url : string := "http://127.0.0.1:1234/v1/models".

(** A hosted backend that fails [j] requests and answers the next. *)
Definition flaky_hosted (j : nat) : Env :=
  hosted_env (fun k => if (k <? j)%nat then server_error
                       else Ok ["Looks fine."%string]).

(** The command line of a run on the uncommitted diff, and inputs with
    no change to review. *)
Definition diff_flags (m : string) : Main.Flags :=
  {| Main.maxRetries := 1;
     Main.failedChunksFile := "failed_chunks.json";
     Main.resumeFailed := false;
     Main.configPath := "config.toml";
     Main.mode := m;
     Main.dir := ".";
     Main.file := EmptyString;
     Main.base := "master";
     Main.writeTests := false;
     Main.keepTests := false;
     Main.llmProvider := EmptyString;
     Main.llmModel := EmptyString |}.

Definition unchanged_inputs : Main.Inputs :=
  {| Main.in_config := fun _ => Ok go_config;
     Main.in_ledger := fun _ => Main.Decoded [];
     Main.in_files := fun _ => Ok six_lines;
     Main.in_walk := fun _ => [Main.Regular "a.go"];
     Main.in_uncommitted := fun _ => Ok EmptyString;
     Main.in_branch := fun _ _ => Ok EmptyString;
     Main.in_health := None;
     Main.in_visit := ["go"; "php"]%string |}.

(** The lines of a text, counted byte by byte and without splitting it:
    every line feed ends a line, and the bytes after the last line feed
    are one more line when there are any. [started] says that the line
    being read has a byte already. An empty text has no line; a text of
    [n] lines, all ended by a line feed, has [n]. *)
Fixpoint count_lines (started : bool) (s : string) : Z :=
  match s with
  | EmptyString => if started then 1 else 0
  | String c r =>
      if Ascii.eqb c Strings.newline then 1 + count_lines false r
      else count_lines true r
  end.

Definition text_lines (s : string) : Z := count_lines false s.

(** The text ends within a line: it is not empty and its last byte is
    not a line feed. *)
Fixpoint ends_open (started : bool) (s : string) : bool :=
  match s with
  | EmptyString => started
  | String c r => ends_open (negb (Ascii.eqb c Strings.newline)) r
  end.

Definition open_line (s : string) : bool := ends_open false s.

(** The bodies whose lines fill whole chunks and leave nothing behind
    the last line feed: the empty body, and a body that ends with a line
    feed and whose line count is a multiple of the chunk size. *)
Definition fills_whole_chunks (body : string) (k : Z) : bool :=
  negb (open_line body) && (text_lines body mod k =? 0).

(** Four lines, each ended by a line feed. *)
Definition four_closed_lines : string :=
  append "a" (append Strings.nl (append "b" (append Strings.nl
    (append "c" (append Strings.nl (append "d" Strings.nl)))))).




(** A model output written down block by block: for every segment the
    text before the block and the block between its two fences, and
    [tail] behind the last block. *)
Fixpoint fenced_text (segs : list (string * string)) (tail : string) : string :=
  match segs with
  | [] => tail
  | (pre, body) :: rest => around_block pre body (fenced_text rest tail)
  end.


(** The three blocks of [three_blocks] with the text before each. *)
Definition three_segments : list (string * string) :=
  [(EmptyString, "go A"); (" and ", "go B"); (" and ", "go C")]%string.

(** A disk that takes the first two bytes of the ledger and no more. *)
Definition short_write_env : Env :=
  {| env_chat := env_chat silent_env;
     env_http := env_http silent_env;
     env_select := env_select silent_env;
     env_now := env_now silent_env;
     env_write := env_write silent_env;
     env_run := env_run silent_env;
     env_remove := env_remove silent_env;
     env_create := env_create silent_env;
     env_interrupted := env_interrupted silent_env;
     env_join := env_join silent_env;
     env_encode := fun _ fc => (substring 0 2 (render_ledger fc),
                                Some "no space left on device"%string);
     env_close := env_close silent_env |}.

(** The variables of a run at its end, with one chunk timed out. *)
Definition one_timeout : Orchestrator.Locals :=
  Orchestrator.add_failedChunk
    {| Index := 3; Error := "context deadline exceeded" |} Orchestrator.locals0.

(** A world with an older ledger file on its disk. *)
Definition old_ledger : World :=
  set_disk [("failed_chunks.json", "[]"); ("main.go", "M")]%string world0.

(** [ceil(n / k)] for positive [k]. *)
Definition ceil_div (n k : Z) : Z := (n + k - 1) / k.

(* ================================================================== *)
(** * Properties *)

(** ** Strings *)

Section StringFacts.
Import Strings.

Lemma Split_not_nil (s : string) : Split s <> [].
Proof.
  induction s as [|c r IH]; simpl; [discriminate|].
  destruct (Ascii.eqb c newline); [discriminate|].
  destruct (Split r); discriminate.
Qed.

Lemma Split_cons (s : string) : exists h t, Split s = h :: t.
Proof.
  destruct (Split s) as [|h t] eqn:E; [now apply Split_not_nil in E|eauto].
Qed.

Lemma Join_cons2 (a b : string) (rest : list string) (sep : string) :
  Join (a :: b :: rest) sep = append a (append sep (Join (b :: rest) sep)).
Proof. reflexivity. Qed.

Lemma append_nil_r (s : string) : append s EmptyString = s.
Proof. induction s; simpl; congruence. Qed.

Lemma append_assoc (a b c : string) :
  append (append a b) c = append a (append b c).
Proof. induction a; simpl; congruence. Qed.

Lemma Join_Split (s : string) : Join (Split s) nl = s.
Proof.
  induction s as [|c r IH]; [reflexivity|].
  simpl Split. destruct (Ascii.eqb_spec c newline) as [->|Hc].
  - destruct (Split_cons r) as (h & t & E). rewrite E in *.
    rewrite Join_cons2, IH. reflexivity.
  - destruct (Split_cons r) as (h & t & E). rewrite E in *.
    destruct t as [|h' t].
    + simpl in *. congruence.
    + rewrite Join_cons2. rewrite Join_cons2 in IH.
      change (append (String c h) ?x) with (String c (append h x)).
      now rewrite IH.
Qed.

Lemma Split_no_newline (s : string) : Forall (fun x => no_newline x = true) (Split s).
Proof.
  induction s as [|c r IH]; simpl.
  - constructor; [reflexivity|constructor].
  - destruct (Ascii.eqb c newline) eqn:Ec.
    + constructor; [reflexivity|assumption].
    + destruct (Split r) as [|h t]; inversion IH; subst;
        constructor; simpl; try rewrite Ec; simpl; auto.
Qed.

Lemma Split_line (s : string) : no_newline s = true -> Split s = [s].
Proof.
  induction s as [|c r IH]; simpl; [reflexivity|].
  intros H. apply andb_true_iff in H as [Hc Hr].
  apply negb_true_iff in Hc. rewrite Hc, (IH Hr). reflexivity.
Qed.

Lemma Split_append_line (a rest : string) :
  no_newline a = true ->
  Split (append a (String newline rest)) = a :: Split rest.
Proof.
  induction a as [|c r IH]; simpl; intros H.
  - reflexivity.
  - apply andb_true_iff in H as [Hc Hr]. apply negb_true_iff in Hc.
    rewrite Hc, (IH Hr). reflexivity.
Qed.

Lemma Split_Join (ls : list string) :
  ls <> [] -> Forall (fun x => no_newline x = true) ls -> Split (Join ls nl) = ls.
Proof.
  induction ls as [|a rest IH]; [congruence|].
  intros _ HF. inversion HF as [|? ? Ha Hrest]; subst.
  destruct rest as [|b rest].
  - simpl. now apply Split_line.
  - rewrite Join_cons2. change (append nl ?x) with (String newline x).
    rewrite Split_append_line by assumption.
    f_equal. apply IH; [discriminate|assumption].
Qed.

Lemma Join_app (l1 l2 : list string) (sep : string) :
  l1 <> [] -> l2 <> [] ->
  Join (l1 ++ l2) sep = append (Join l1 sep) (append sep (Join l2 sep)).
Proof.
  induction l1 as [|a rest IH]; [congruence|].
  intros _ H2. destruct rest as [|b rest].
  - destruct l2 as [|c l2]; [congruence|]. reflexivity.
  - change ((a :: b :: rest) ++ l2) with (a :: ((b :: rest) ++ l2)).
    simpl app. rewrite !Join_cons2.
    change (b :: rest ++ l2) with ((b :: rest) ++ l2).
    rewrite IH by (discriminate || assumption).
    now rewrite !append_assoc.
Qed.

Lemma Split_length_le (s : string) :
  (List.length (Split s) <= S (String.length s))%nat.
Proof.
  induction s as [|c r IH]; simpl; [lia|].
  destruct (Ascii.eqb c newline); simpl; [lia|].
  destruct (Split r); simpl in *; lia.
Qed.

End StringFacts.

(** ** The chunker *)

Lemma wrap64_small (z : Z) : - 2 ^ 63 <= z <= max_int -> wrap64 z = z.
Proof.
  unfold wrap64, max_int. intros H.
  rewrite Z.mod_small; lia.
Qed.

Section GroupFacts.
Context {A : Type}.

Lemma groups_nil (fuel k : nat) : @groups A fuel k [] = [].
Proof. destruct fuel; reflexivity. Qed.

Lemma groups_concat (k : nat) :
  (1 <= k)%nat ->
  forall fuel (l : list A), (List.length l <= fuel)%nat -> List.concat (groups fuel k l) = l.
Proof.
  intros Hk. induction fuel as [|f IH]; intros l Hl.
  - destruct l; [reflexivity|simpl in Hl; lia].
  - destruct l as [|a l]; [reflexivity|].
    cbn [groups List.concat]. rewrite IH.
    + apply firstn_skipn.
    + rewrite length_skipn. cbn [List.length] in *. lia.
Qed.

Lemma groups_sizes (k : nat) :
  (1 <= k)%nat ->
  forall fuel (l : list A),
    Forall (fun g => (1 <= List.length g <= k)%nat) (groups fuel k l).
Proof.
  intros Hk. induction fuel as [|f IH]; intros l; [constructor|].
  destruct l as [|a l]; [constructor|].
  cbn [groups]. constructor; [|apply IH].
  rewrite length_firstn. simpl List.length. lia.
Qed.

Lemma Forall_take (P : A -> Prop) (n : nat) (l : list A) :
  Forall P l -> Forall P (firstn n l).
Proof.
  revert l. induction n as [|n IH]; intros l H; [constructor|].
  destruct H; simpl; [constructor|]. constructor; auto.
Qed.

Lemma Forall_drop (P : A -> Prop) (n : nat) (l : list A) :
  Forall P l -> Forall P (skipn n l).
Proof.
  revert l. induction n as [|n IH]; intros l H; [assumption|].
  destruct H; simpl; [constructor|]. auto.
Qed.

Lemma groups_keep (P : A -> Prop) (k : nat) :
  forall fuel (l : list A), Forall P l -> Forall (Forall P) (groups fuel k l).
Proof.
  induction fuel as [|f IH]; intros l HP; [constructor|].
  destruct l as [|a l]; [constructor|].
  cbn [groups]. constructor.
  - now apply Forall_take.
  - apply IH. now apply Forall_drop.
Qed.

Lemma ceil_div_0 (k : Z) : 1 <= k -> ceil_div 0 k = 0.
Proof. intros Hk. unfold ceil_div. apply Z.div_small. lia. Qed.

Lemma ceil_div_le (n k : Z) : 1 <= n <= k -> ceil_div n k = 1.
Proof.
  intros H. unfold ceil_div. symmetry.
  apply (Z.div_unique_pos _ _ 1 (n - 1)); lia.
Qed.

Lemma ceil_div_step (n k : Z) : 1 <= k -> ceil_div (n + k) k = ceil_div n k + 1.
Proof.
  intros H. unfold ceil_div.
  replace (n + k + k - 1) with (n + k - 1 + 1 * k) by lia.
  rewrite Z.div_add by lia. reflexivity.
Qed.

Lemma groups_count (k : nat) :
  (1 <= k)%nat ->
  forall fuel (l : list A),
    (List.length l <= fuel)%nat ->
    len (groups fuel k l) = ceil_div (len l) (Z.of_nat k).
Proof.
  intros Hk. unfold len. induction fuel as [|f IH]; intros l Hl.
  - destruct l; [|simpl in Hl; lia]. simpl. now rewrite ceil_div_0 by lia.
  - destruct l as [|a l]; [simpl; now rewrite ceil_div_0 by lia|].
    cbn [groups].
    assert (Hpos : (1 <= List.length (a :: l))%nat) by (simpl; lia).
    set (l' := a :: l) in *.
    cbn [List.length]. rewrite Nat2Z.inj_succ, IH.
    2:{ rewrite length_skipn. lia. }
    rewrite length_skipn.
    destruct (Nat.le_gt_cases (List.length l') k) as [Hle|Hgt].
    + replace (List.length l' - k)%nat with 0%nat by lia.
      rewrite ceil_div_0 by lia. rewrite ceil_div_le; lia.
    + replace (Z.of_nat (List.length l'))
        with (Z.of_nat (List.length l' - k) + Z.of_nat k) by lia.
      rewrite ceil_div_step by lia. lia.
Qed.

End GroupFacts.

Section ChunkerFacts.
Import Strings Chunker.

Lemma Join_groups (gs : list (list string)) :
  Forall (fun g => (1 <= List.length g)%nat) gs ->
  Join (map join_lines gs) nl = Join (List.concat gs) nl.
Proof.
  induction gs as [|g gs IH]; [reflexivity|].
  intros HF. inversion HF as [|? ? Hg Hgs]; subst.
  destruct gs as [|g' gs].
  - simpl. now rewrite app_nil_r.
  - cbn [map List.concat]. cbn [map List.concat] in IH.
    inversion Hgs as [|? ? Hg' _]; subst.
    rewrite Join_cons2, Join_app.
    + unfold join_lines at 1. now rewrite IH.
    + destruct g; [simpl in Hg; lia|discriminate].
    + destruct g'; [simpl in Hg'; lia|discriminate].
Qed.

(** The loop, started at line [p], produces the windows of the lines
    from [p] on. *)
Lemma chunk_loop_groups (lines : list string) (k : Z) :
  1 <= k <= max_int ->
  len lines <= 2 ^ 62 ->
  forall fuel p acc,
    (p = 0%nat \/ k <= Z.of_nat p) ->
    (List.length lines - p <= fuel)%nat ->
    chunk_loop fuel lines k (Z.of_nat p) acc
    = Returns (acc ++ map join_lines (groups fuel (Z.to_nat k) (skipn p lines))).
Proof.
  intros Hk Hlen. unfold len in Hlen. unfold max_int in Hk.
  induction fuel as [|f IH]; intros p acc Hp Hfuel.
  - simpl. unfold len.
    destruct (Z.ltb_spec (Z.of_nat p) (Z.of_nat (List.length lines))); [lia|].
    now rewrite app_nil_r.
  - cbn [chunk_loop]. unfold len.
    destruct (Z.ltb_spec (Z.of_nat p) (Z.of_nat (List.length lines))) as [Hlt|Hge].
    2:{ rewrite skipn_all2 by lia. now rewrite app_nil_r. }
    rewrite wrap64_small by (unfold max_int; lia).
    set (e := if Z.of_nat p + k >? Z.of_nat (List.length lines)
              then Z.of_nat (List.length lines) else Z.of_nat p + k).
    assert (He : Z.of_nat p < e <= Z.of_nat (List.length lines)
                 /\ (e = Z.of_nat p + k \/ e = Z.of_nat (List.length lines)
                                         /\ e <= Z.of_nat p + k)).
    { subst e. destruct (Z.gtb_spec (Z.of_nat p + k) (Z.of_nat (List.length lines))); lia. }
    destruct He as [He1 He2].
    unfold slice, len.
    destruct (Z.leb_spec 0 (Z.of_nat p)); [|lia].
    destruct (Z.leb_spec (Z.of_nat p) e); [|lia].
    destruct (Z.leb_spec e (Z.of_nat (List.length lines))); [|lia].
    cbn [andb]. rewrite Nat2Z.id.
    replace (Z.of_nat p + k) with (Z.of_nat (p + Z.to_nat k)) by lia.
    rewrite IH by lia.
    destruct (skipn p lines) as [|a rest] eqn:Es.
    { apply (f_equal (@List.length string)) in Es.
      rewrite length_skipn in Es. simpl in Es. lia. }
    cbn [groups map]. rewrite <- app_assoc. cbn [app].
    rewrite Nat.add_comm, <- skipn_skipn, Es.
    do 3 f_equal.
    unfold join_lines. f_equal.
    destruct He2 as [->|[He2 He3]].
    + f_equal. lia.
    + assert (Hl : (List.length (a :: rest) = List.length lines - p)%nat).
      { rewrite <- Es. apply length_skipn. }
      rewrite !firstn_all2; [reflexivity|lia|lia].
Qed.

End ChunkerFacts.

Section ChunkerTheorems.
Import Strings Chunker.

Lemma last_map_Forall {A B : Type} (f : A -> B) (P : B -> Prop) (d : B)
      (l : list A) :
  l <> [] -> Forall (fun a => P (f a)) l -> P (last (map f l) d).
Proof.
  induction l as [|a l IH]; [congruence|].
  intros _ HF. inversion HF as [|? ? Ha Hl]; subst.
  destruct l as [|b l]; [exact Ha|].
  change (last (map f (a :: b :: l)) d) with (last (map f (b :: l)) d).
  apply IH; [discriminate|assumption].
Qed.

Lemma chunk_lines_groups (lines : list string) (k : Z) :
  1 <= k <= max_int ->
  len lines <= 2 ^ 62 ->
  chunk_lines lines k []
  = Returns (map join_lines (groups (S (List.length lines)) (Z.to_nat k) lines)).
Proof.
  intros Hk Hlen. unfold chunk_lines.
  change 0 with (Z.of_nat 0).
  rewrite (chunk_loop_groups lines k Hk Hlen) by (auto; lia).
  reflexivity.
Qed.

Lemma line_count_bound (body : string) :
  slen body < 2 ^ 62 -> len (Split body) <= 2 ^ 62.
Proof.
  unfold slen, len. intros H. pose proof (Split_length_le body). lia.
Qed.

(** Scenario A of the specification: ten lines in chunks of four give
    chunks of 4, 4 and 2 lines. *)
Example ten_lines_by_four :
  ChunkDiff ten_lines 4
  = Returns [Join ["l0"; "l1"; "l2"; "l3"]%string nl;
             Join ["l4"; "l5"; "l6"; "l7"]%string nl;
             Join ["l8"; "l9"]%string nl].
Proof. vm_compute. reflexivity. Qed.

Lemma chunk_loop_exit (fuel : nat) (lines : list string) (k i : Z)
      (acc : list string) :
  len lines <= i -> chunk_loop fuel lines k i acc = Returns acc.
Proof.
  intros H. destruct fuel; simpl;
    destruct (Z.ltb_spec i (len lines)); (lia || reflexivity).
Qed.

(** A text of at most [k] lines is one chunk, the text itself. *)
Lemma chunk_lines_single (body : string) (k : Z) :
  1 <= k <= max_int ->
  line_count body <= k ->
  chunk_lines (Split body) k [] = Returns [body].
Proof.
  intros Hk Hn. unfold line_count in Hn. unfold chunk_lines.
  assert (Hpos : 1 <= len (Split body)).
  { destruct (Split_cons body) as (h & t & ->). unfold len. simpl List.length. lia. }
  cbn [chunk_loop].
  destruct (Z.ltb_spec 0 (len (Split body))); [|lia].
  rewrite Z.add_0_l, wrap64_small by (unfold max_int in *; lia).
  assert (He : (if k >? len (Split body) then len (Split body) else k)
               = len (Split body)).
  { destruct (Z.gtb_spec k (len (Split body))); lia. }
  rewrite He. unfold slice.
  destruct (Z.leb_spec 0 0); [|lia].
  destruct (Z.leb_spec 0 (len (Split body))); [|lia].
  destruct (Z.leb_spec (len (Split body)) (len (Split body))); [|lia].
  cbn [andb]. rewrite chunk_loop_exit by lia.
  rewrite Z.sub_0_r. unfold len. rewrite Nat2Z.id.
  change (Z.to_nat 0) with 0%nat. rewrite skipn_O, firstn_all, Join_Split.
  reflexivity.
Qed.

(** The chunker's split has one element per line of the text, and one
    more unless the text ends within a line. *)
Lemma Split_count (s : string) :
  forall o, len (Split s) = count_lines o s + (if ends_open o s then 0 else 1).
Proof.
  induction s as [|c r IH]; intros o.
  - cbn. destruct o; reflexivity.
  - cbn [Split count_lines ends_open].
    destruct (Ascii.eqb c newline); cbn [negb].
    + specialize (IH false). unfold len in *. cbn [List.length]. lia.
    + specialize (IH true). destruct (Split_cons r) as (h & t & E).
      rewrite E in *. exact IH.
Qed.

Lemma line_count_text_lines (body : string) :
  line_count body = text_lines body + (if open_line body then 0 else 1).
Proof. apply Split_count. Qed.

Lemma count_lines_nonneg (s : string) : forall o, 0 <= count_lines o s.
Proof.
  induction s as [|c r IH]; intros o; cbn [count_lines].
  - destruct o; lia.
  - destruct (Ascii.eqb c newline); [specialize (IH false)|specialize (IH true)]; lia.
Qed.

Lemma ends_open_started (x : string) :
  no_newline x = true -> ends_open true x = true.
Proof.
  induction x as [|c r IH]; [reflexivity|]. cbn [no_newline ends_open].
  intros H. apply andb_true_iff in H as [-> H]. auto.
Qed.

(** A text ends within a line exactly when the last element of its
    split is not empty. *)
Lemma ends_open_last (s : string) :
  forall o,
    ends_open o s
    = match Split s with
      | [h] => ends_open o h
      | _ => ends_open false (last (Split s) EmptyString)
      end.
Proof.
  induction s as [|c r IH]; intros o; [reflexivity|].
  cbn [Split ends_open]. destruct (Split_cons r) as (h & t & E).
  destruct (Ascii.eqb c newline) eqn:Ec; cbn [negb].
  - rewrite (IH false), E. destruct t; reflexivity.
  - rewrite (IH true), E. destruct t; [|reflexivity].
    cbn [ends_open]. now rewrite Ec.
Qed.

Lemma open_line_last (s : string) :
  open_line s = open_line (last (Split s) EmptyString).
Proof.
  unfold open_line. rewrite (ends_open_last s false).
  destruct (Split s) as [|h [|h' t]]; reflexivity.
Qed.

Lemma Forall_last {A : Type} (P : A -> Prop) (d : A) (l : list A) :
  l <> [] -> Forall P l -> P (last l d).
Proof.
  induction l as [|a l IH]; [congruence|].
  intros _ HF. inversion HF as [|? ? Ha Hl]; subst.
  destruct l as [|b l]; [exact Ha|]. apply IH; [discriminate|assumption].
Qed.

Lemma open_line_of_line (x : string) :
  no_newline x = true -> open_line x = false -> x = EmptyString.
Proof.
  destruct x as [|c r]; [reflexivity|]. unfold open_line.
  cbn [no_newline ends_open]. intros H. apply andb_true_iff in H as [-> H].
  rewrite (ends_open_started r H). discriminate.
Qed.

(** Behind the last line feed of a text that ends with one, and in an
    empty text, the split finds an empty element. *)
Lemma last_line_of_closed (s : string) :
  open_line s = false -> last (Split s) EmptyString = EmptyString.
Proof.
  intros H. rewrite open_line_last in H.
  apply open_line_of_line; [|exact H].
  apply (Forall_last (fun x => no_newline x = true));
    [apply Split_not_nil|apply Split_no_newline].
Qed.

Lemma last_skipn {A : Type} (d : A) (k : nat) :
  forall l : list A, skipn k l <> [] -> last (skipn k l) d = last l d.
Proof.
  induction k as [|k IH]; intros l H; [reflexivity|].
  destruct l as [|a l]; [now elim H|].
  cbn [skipn] in *. rewrite (IH l H).
  destruct l as [|b l]; [|reflexivity].
  rewrite skipn_nil in H. now elim H.
Qed.

(** The windows of the loop: all but the last are full, the last one
    holds what is left, the last line included. *)
Lemma groups_last {A : Type} (d : A) (k : nat) :
  (1 <= k)%nat ->
  forall fuel (l : list A),
    (List.length l <= fuel)%nat -> l <> [] ->
    exists init g,
      groups fuel k l = init ++ [g]
      /\ List.length l = (List.length init * k + List.length g)%nat
      /\ (1 <= List.length g <= k)%nat
      /\ last g d = last l d.
Proof.
  intros Hk. induction fuel as [|f IH]; intros l Hl Hne.
  - destruct l; [now elim Hne|simpl in Hl; lia].
  - destruct l as [|a l0]; [now elim Hne|]. cbn [groups].
    set (l := a :: l0) in *.
    assert (Hpos : (1 <= List.length l)%nat) by (subst l; simpl; lia).
    destruct (Nat.le_gt_cases (List.length l) k) as [Hle|Hgt].
    + rewrite skipn_all2, groups_nil, firstn_all2 by lia.
      exists [], l. cbn [app List.length]. repeat split; lia.
    + assert (Hs : skipn k l <> []).
      { intros E. apply (f_equal (@List.length A)) in E.
        rewrite length_skipn in E. change (List.length (@nil A)) with 0%nat in E.
        lia. }
      destruct (IH (skipn k l)) as (init & g & Hg & Hn & Hb & Hlast);
        [rewrite length_skipn; lia|exact Hs|].
      exists (firstn k l :: init), g. rewrite Hg. split; [reflexivity|].
      split; [|split; [exact Hb|]].
      * rewrite length_skipn in Hn. cbn [List.length]. lia.
      * rewrite Hlast. now apply last_skipn.
Qed.

Lemma ceil_div_succ (n k : Z) :
  1 <= k -> 0 <= n ->
  ceil_div (n + 1) k = ceil_div n k + (if n mod k =? 0 then 1 else 0).
Proof.
  intros Hk Hn. unfold ceil_div.
  pose proof (Z.div_mod n k ltac:(lia)) as Hd.
  pose proof (Z.mod_pos_bound n k ltac:(lia)) as Hr.
  set (q := n / k) in *. set (r := n mod k) in *.
  replace (n + 1 + k - 1) with ((q + 1) * k + r) by lia.
  rewrite Z.div_add_l, (Z.div_small r k) by lia.
  destruct (Z.eqb_spec r 0) as [E|E].
  - replace (n + k - 1) with (q * k + (k - 1)) by lia.
    rewrite Z.div_add_l, (Z.div_small (k - 1) k) by lia. lia.
  - replace (n + k - 1) with ((q + 1) * k + (r - 1)) by lia.
    rewrite Z.div_add_l, (Z.div_small (r - 1) k) by lia. lia.
Qed.

(** C5. For every chunk size [k >= 1] and every body, [ChunkDiff] (and
    [GetFileChunks] on a file holding the body) returns chunks that,
    joined with line feeds in order, are the body again: the round trip
    holds. The count law and the law of the last chunk hold for the
    bodies that do not fill whole chunks. A body that does (the empty
    body, and a body that ends with a line feed and has a multiple of
    [k] lines) gets one chunk more than the ceiling of its line count
    over [k], and that last chunk is the empty text, a chunk of no line.
    The lines are counted on the text ([text_lines]), not on the
    chunker's split. The bounds [k <= max_int] and [len(body) < 2^62]
    say that [k] is a Go [int] and the body a Go string that fits the
    address space; [fs path = Ok body] that the file [GetFileChunks]
    reads holds the body. *)
Theorem chunker_round_trip (body : string) (k : Z) (fs : FileSystem)
        (path : string) :
  1 <= k <= max_int ->
  slen body < 2 ^ 62 ->
  fs path = Ok body ->
  exists chunks,
    ChunkDiff body k = Returns chunks
    /\ GetFileChunks fs path k = Returns (chunks, None)
    /\ Join chunks nl = body
    /\ len chunks = ceil_div (text_lines body) k
                    + (if fills_whole_chunks body k then 1 else 0)
    /\ (fills_whole_chunks body k = true ->
        last chunks EmptyString = EmptyString)
    /\ (fills_whole_chunks body k = false ->
        1 <= text_lines (last chunks EmptyString) <= k).
Proof.
  intros Hk Hbody Hf.
  pose proof (line_count_bound body Hbody) as Hlen.
  pose proof (chunk_lines_groups (Split body) k Hk Hlen) as Hrun.
  set (gs := groups (S (List.length (Split body))) (Z.to_nat k) (Split body)) in *.
  assert (Hk' : (1 <= Z.to_nat k)%nat) by lia.
  pose proof (groups_sizes (Z.to_nat k) Hk' (S (List.length (Split body))) (Split body))
    as Hsizes.
  fold gs in Hsizes.
  pose proof (groups_keep (fun x => no_newline x = true) (Z.to_nat k)
                (S (List.length (Split body))) (Split body)
                (Split_no_newline body)) as Hnl.
  fold gs in Hnl.
  destruct (groups_last EmptyString (Z.to_nat k) Hk' (S (List.length (Split body)))
              (Split body) ltac:(lia) (Split_not_nil body))
    as (init & g & Hgs & Hn & Hg & Hlast).
  fold gs in Hgs.
  pose proof (line_count_text_lines body) as Hcount.
  pose proof (count_lines_nonneg body false) as Hpos. fold (text_lines body) in Hpos.
  unfold line_count, len in Hcount.
  assert (Hlastc : last (map join_lines gs) EmptyString = join_lines g).
  { rewrite Hgs, map_app. cbn [map]. apply last_last. }
  assert (Hgnl : Forall (fun x => no_newline x = true) g).
  { rewrite Hgs in Hnl. apply Forall_app in Hnl as [_ Hnl].
    now inversion Hnl. }
  assert (Hgne : g <> []) by (destruct g; [simpl in Hg; lia|discriminate]).
  assert (Hone : open_line body = false -> text_lines body mod k = 0 ->
                 List.length g = 1%nat).
  { intros Hc Hm. rewrite Hc in Hcount.
    assert (E : text_lines body
                = (Z.of_nat (List.length g) - 1) + Z.of_nat (List.length init) * k)
      by nia.
    rewrite E, Z.mod_add, Z.mod_small in Hm by lia. lia. }
  exists (map join_lines gs). split; [exact Hrun|].
  split; [unfold GetFileChunks; now rewrite Hf, Hrun|].
  split; [|split; [|split]].
  - rewrite Join_groups.
    + unfold gs. rewrite groups_concat by lia. apply Join_Split.
    + eapply Forall_impl; [|exact Hsizes]. simpl. lia.
  - unfold len. rewrite length_map. fold (len gs). unfold gs.
    rewrite groups_count by lia. rewrite Z2Nat.id by lia.
    unfold len, fills_whole_chunks. rewrite Hcount.
    destruct (open_line body); cbn [negb andb].
    + now rewrite !Z.add_0_r.
    + now apply ceil_div_succ.
  - intros Hfill. unfold fills_whole_chunks in Hfill.
    apply andb_true_iff in Hfill as [Hc Hm].
    apply negb_true_iff in Hc. apply Z.eqb_eq in Hm.
    rewrite Hlastc. specialize (Hone Hc Hm).
    destruct g as [|x [|y g]]; try discriminate Hone.
    cbn [last] in Hlast. unfold join_lines. cbn [Join].
    rewrite Hlast. now apply last_line_of_closed.
  - intros Hfill. rewrite Hlastc.
    pose proof (line_count_text_lines (join_lines g)) as Hc.
    unfold line_count, join_lines in Hc. rewrite Split_Join in Hc by assumption.
    fold (join_lines g) in Hc. unfold len in Hc.
    split; [|destruct (open_line (join_lines g)); lia].
    destruct g as [|x [|y g]]; [now elim Hgne| |].
    + cbn [last] in Hlast. unfold join_lines in *. cbn [Join List.length] in *.
      assert (Ho : open_line body = true).
      { destruct (open_line body) eqn:Eo; [reflexivity|].
        unfold fills_whole_chunks in Hfill. rewrite Eo in Hfill.
        cbn [negb andb] in Hfill. apply Z.eqb_neq in Hfill.
        elim Hfill.
        replace (text_lines body) with (0 + Z.of_nat (List.length init) * k) by nia.
        rewrite Z.mod_add, Z.mod_small by lia. reflexivity. }
      rewrite open_line_last, <- Hlast in Ho. rewrite Ho in Hc. lia.
    + cbn [List.length] in Hc. destruct (open_line (join_lines (x :: y :: g))); lia.
Qed.

Lemma chunker_round_trip_witness :
  exists chunks,
    ChunkDiff four_closed_lines 4 = Returns chunks
    /\ GetFileChunks (fun _ => Ok four_closed_lines) "main.go" 4
       = Returns (chunks, None)
    /\ Join chunks nl = four_closed_lines
    /\ len chunks = ceil_div (text_lines four_closed_lines) 4
                    + (if fills_whole_chunks four_closed_lines 4 then 1 else 0)
    /\ (fills_whole_chunks four_closed_lines 4 = true ->
        last chunks EmptyString = EmptyString)
    /\ (fills_whole_chunks four_closed_lines 4 = false ->
        1 <= text_lines (last chunks EmptyString) <= 4).
Proof.
  apply (chunker_round_trip four_closed_lines 4 (fun _ => Ok four_closed_lines)
           "main.go").
  - unfold max_int. lia.
  - vm_compute. reflexivity.
  - reflexivity.
Defined.

(** Four lines in chunks of four: the text has four lines, which fill
    one chunk, and the chunker returns two, the second one empty. *)
Example closed_lines_leave_an_empty_chunk :
  text_lines four_closed_lines = 4
  /\ ceil_div (text_lines four_closed_lines) 4 = 1
  /\ ChunkDiff four_closed_lines 4
     = Returns [Join ["a"; "b"; "c"; "d"]%string nl; EmptyString].
Proof. vm_compute. repeat split. Qed.

(** Ten lines without a final line feed in chunks of four: three chunks,
    as the count law says. *)
Example ten_lines_obey_the_count_law :
  text_lines ten_lines = 10
  /\ fills_whole_chunks ten_lines 4 = false
  /\ ceil_div (text_lines ten_lines) 4 = 3.
Proof. vm_compute. repeat split. Qed.

(** C4. For every chunk size [k >= 1] the chunker applied to an empty
    body yields one chunk, the empty text, and not zero chunks
    ([strings.Split] of an empty text is one empty element, and the
    chunker has no case for it); applied to a non-empty body of fewer
    than [k] lines it yields exactly one chunk, the body. The lines are
    counted on the text ([text_lines]), so that a body of [k - 1] lines
    that ends with a line feed is covered. Both hold of [ChunkDiff] and
    of [GetFileChunks] on a file that holds the body. *)
Theorem chunker_short_bodies (k : Z) (body : string) (fs : FileSystem)
        (path : string) :
  1 <= k <= max_int ->
  body = EmptyString \/ (body <> EmptyString /\ text_lines body < k) ->
  fs path = Ok body ->
  ChunkDiff body k = Returns [body]
  /\ GetFileChunks fs path k = Returns ([body], None).
Proof.
  intros Hk Hbody Hf.
  assert (Hn : line_count body <= k).
  { destruct Hbody as [->|[_ Hn]]; [unfold line_count, len; simpl; lia|].
    rewrite line_count_text_lines. destruct (open_line body); lia. }
  split.
  - now apply chunk_lines_single.
  - unfold GetFileChunks. now rewrite Hf, chunk_lines_single.
Qed.

Lemma chunker_short_bodies_witness :
  (ChunkDiff EmptyString 4 = Returns [EmptyString]
   /\ GetFileChunks (fun _ => Ok EmptyString) "main.go" 4
      = Returns ([EmptyString], None))
  /\ (ChunkDiff (append "a" nl) 2 = Returns [append "a" nl]
      /\ GetFileChunks (fun _ => Ok (append "a" nl)) "main.go" 2
         = Returns ([append "a" nl], None)).
Proof.
  split.
  - apply (chunker_short_bodies 4 EmptyString (fun _ => Ok EmptyString) "main.go").
    + unfold max_int. lia.
    + left. reflexivity.
    + reflexivity.
  - apply (chunker_short_bodies 2 (append "a" nl) (fun _ => Ok (append "a" nl))
             "main.go").
    + unfold max_int. lia.
    + right. split; [discriminate|]. vm_compute. reflexivity.
    + reflexivity.
Defined.

End ChunkerTheorems.

(** ** The retry controller *)

Section RetryFacts.
Import Retry.

Lemma invocations_app (a b : list Event) :
  invocations (a ++ b) = invocations a + invocations b.
Proof. unfold invocations, len. rewrite filter_app, length_app. lia. Qed.

Lemma waits_app (a b : list Event) : waits (a ++ b) = waits a + waits b.
Proof. unfold waits, len. rewrite filter_app, length_app. lia. Qed.

(** The loop on an operation that keeps failing under a context that is
    never done: every iteration invokes and then waits. *)
Lemma retry_loop_all_fail (outcomes : nat -> error) (sel : nat -> Z -> Selected) :
  (forall i, outcomes i <> None) ->
  (forall j d, sel j d = TimerFired) ->
  forall n backoff err c w tr,
  exists tr',
    retry_loop (scripted_fn outcomes) (scripted_select sel) n backoff err (c, w) tr
    = (match n with O => err | S n' => outcomes (c + n')%nat end,
       ((c + n)%nat, (w + n)%nat), tr ++ tr')
    /\ invocations tr' = Z.of_nat n
    /\ waits tr' = Z.of_nat n
    /\ (n <> 0%nat -> exists d, last tr' Invoke = Wait d).
Proof.
  intros Hfail Hsel. induction n as [|n IH]; intros backoff err c w tr.
  - exists []. simpl. rewrite !Nat.add_0_r, app_nil_r. repeat split. congruence.
  - cbn [retry_loop]. unfold scripted_fn at 1. cbn [fst snd].
    destruct (outcomes c) as [e|] eqn:Ec; [|now apply Hfail in Ec].
    unfold scripted_select at 1. cbn [fst snd]. rewrite Hsel.
    destruct (IH (wrap64 (backoff * 2)) (Some e) (S c) (S w)
                 ((tr ++ [Invoke]) ++ [Wait backoff])) as (tr' & Hrun & Hi & Hw & Hl).
    exists ([Invoke; Wait backoff] ++ tr'). rewrite Hrun. repeat split.
    + f_equal; [f_equal|].
      * destruct n as [|n']; [now rewrite Nat.add_0_r|].
        f_equal. lia.
      * f_equal; lia.
      * now rewrite <- !app_assoc.
    + rewrite invocations_app, Hi, Nat2Z.inj_succ.
      change (invocations [Invoke; Wait backoff]) with 1. lia.
    + rewrite waits_app, Hw, Nat2Z.inj_succ.
      change (waits [Invoke; Wait backoff]) with 1. lia.
    + intros _. destruct n as [|n'].
      * exists backoff. destruct tr' as [|x tr'']; [reflexivity|].
        unfold invocations, len in Hi. unfold waits, len in Hw.
        destruct x; simpl in Hi, Hw; lia.
      * destruct Hl as (d & Hd); [discriminate|]. exists d.
        destruct tr' as [|x tr'']; [discriminate Hd|]. exact Hd.
Qed.

(** C1, as the code has it. For every maximum-retry count [m >= 1], an
    operation that fails on every attempt, under a context that is not
    done, is invoked exactly [m] times and the last error is returned;
    but the backoff wait is entered [m] times, not [m - 1]: the run ends
    with a wait after the final attempt. *)
Theorem retry_waits_after_every_failure (m : Z) (outcomes : nat -> error) :
  1 <= m ->
  (forall i, outcomes i <> None) ->
  exists tr,
    retryWithBackoff (scripted_fn outcomes) (scripted_select never_done) m
                     (0%nat, 0%nat)
    = (outcomes (Z.to_nat (m - 1)), (Z.to_nat m, Z.to_nat m), tr)
    /\ invocations tr = m
    /\ waits tr = m
    /\ exists d, last tr Invoke = Wait d.
Proof.
  intros Hm Hfail. unfold retryWithBackoff.
  destruct (retry_loop_all_fail outcomes never_done Hfail (fun _ _ => eq_refl)
              (Z.to_nat m) second None 0%nat 0%nat [])
    as (tr & Hrun & Hi & Hw & Hl).
  exists tr. rewrite Hrun. repeat split.
  - destruct (Z.to_nat m) as [|n] eqn:En; [lia|].
    cbn [app Nat.add]. do 2 f_equal. f_equal. lia.
  - lia.
  - lia.
  - apply Hl. lia.
Qed.

Lemma retry_waits_after_every_failure_witness :
  exists tr,
    retryWithBackoff (scripted_fn always_failing) (scripted_select never_done) 1
                     (0%nat, 0%nat)
    = (always_failing (Z.to_nat (1 - 1)), (Z.to_nat 1, Z.to_nat 1), tr)
    /\ invocations tr = 1
    /\ waits tr = 1
    /\ exists d, last tr Invoke = Wait d.
Proof.
  apply (retry_waits_after_every_failure 1 always_failing).
  - lia.
  - intros i. discriminate.
Defined.

(** With a single attempt allowed the controller still waits a second
    after it. *)
Example retry_once_still_waits :
  retryWithBackoff (scripted_fn always_failing) (scripted_select never_done) 1
                   (0%nat, 0%nat)
  = (Some "attempt 0"%string, (1%nat, 1%nat), [Invoke; Wait second]).
Proof. vm_compute. reflexivity. Qed.

(** The loop under a context that is done during the wait that follows
    the [t]-th next attempt. *)
Lemma retry_loop_cancelled (outcomes : nat -> error) (sel : nat -> Z -> Selected)
      (e : CtxErr) :
  forall t n backoff err c w tr,
    (t < n)%nat ->
    (forall i, (i <= t)%nat -> outcomes (c + i)%nat <> None) ->
    (forall i d, (i < t)%nat -> sel (w + i)%nat d = TimerFired) ->
    (forall d, sel (w + t)%nat d = CtxDone e) ->
    exists tr',
      retry_loop (scripted_fn outcomes) (scripted_select sel) n backoff err (c, w) tr
      = (Some (ctx_text e), (S (c + t), S (w + t)), tr ++ tr')
      /\ invocations tr' = Z.of_nat (S t)
      /\ waits tr' = Z.of_nat (S t).
Proof.
  induction t as [|t IH]; intros n backoff err c w tr Hn Hfail Hwait Hdone.
  - destruct n as [|n]; [lia|]. cbn [retry_loop].
    unfold scripted_fn at 1. cbn [fst snd].
    destruct (outcomes c) as [x|] eqn:Ec.
    2:{ exfalso. apply (Hfail 0%nat); [lia|]. now rewrite Nat.add_0_r. }
    unfold scripted_select at 1. cbn [fst snd].
    specialize (Hdone backoff). rewrite Nat.add_0_r in Hdone. rewrite Hdone.
    exists [Invoke; Wait backoff]. rewrite !Nat.add_0_r, <- app_assoc.
    repeat split.
  - destruct n as [|n]; [lia|]. cbn [retry_loop].
    unfold scripted_fn at 1. cbn [fst snd].
    destruct (outcomes c) as [x|] eqn:Ec.
    2:{ exfalso. apply (Hfail 0%nat); [lia|]. now rewrite Nat.add_0_r. }
    unfold scripted_select at 1. cbn [fst snd].
    assert (H0 : sel w backoff = TimerFired).
    { rewrite <- (Hwait 0%nat backoff) by lia. now rewrite Nat.add_0_r. }
    rewrite H0.
    destruct (IH n (wrap64 (backoff * 2)) (Some x) (S c) (S w)
                 ((tr ++ [Invoke]) ++ [Wait backoff])) as (tr' & Hrun & Hi & Hw).
    + lia.
    + intros i Hi. replace (S c + i)%nat with (c + S i)%nat by lia.
      apply Hfail. lia.
    + intros i d Hi. replace (S w + i)%nat with (w + S i)%nat by lia.
      apply Hwait. lia.
    + intros d. replace (S w + t)%nat with (w + S t)%nat by lia. apply Hdone.
    + exists ([Invoke; Wait backoff] ++ tr'). rewrite Hrun. repeat split.
      * f_equal; [f_equal; f_equal; lia|]. now rewrite <- !app_assoc.
      * rewrite invocations_app, Hi, !Nat2Z.inj_succ.
        change (invocations [Invoke; Wait backoff]) with 1. lia.
      * rewrite waits_app, Hw, !Nat2Z.inj_succ.
        change (waits [Invoke; Wait backoff]) with 1. lia.
Qed.

(** C6. If the context is canceled or its deadline passes while the
    controller waits after the failed attempt number [j] (counted from
    0), the controller returns the context's error at once: the operation
    has been invoked [j + 1] times and is not invoked again, however many
    of the [m] attempts are left. *)
Theorem retry_stops_when_context_done (m : Z) (outcomes : nat -> error)
        (sel : nat -> Z -> Selected) (j : nat) (e : CtxErr) :
  Z.of_nat j < m ->
  (forall i, (i <= j)%nat -> outcomes i <> None) ->
  (forall i d, (i < j)%nat -> sel i d = TimerFired) ->
  (forall d, sel j d = CtxDone e) ->
  exists tr,
    retryWithBackoff (scripted_fn outcomes) (scripted_select sel) m (0%nat, 0%nat)
    = (Some (ctx_text e), (S j, S j), tr)
    /\ invocations tr = Z.of_nat j + 1
    /\ waits tr = Z.of_nat j + 1.
Proof.
  intros Hj Hfail Hwait Hdone. unfold retryWithBackoff.
  destruct (retry_loop_cancelled outcomes sel e j (Z.to_nat m) second None
              0%nat 0%nat []) as (tr & Hrun & Hi & Hw); auto; [lia|].
  exists tr. rewrite Hrun. cbn [app Nat.add]. repeat split; lia.
Qed.

Lemma retry_stops_when_context_done_witness :
  exists tr,
    retryWithBackoff (scripted_fn always_failing) (scripted_select (done_at 1)) 5
                     (0%nat, 0%nat)
    = (Some (ctx_text DeadlineExceeded), (2%nat, 2%nat), tr)
    /\ invocations tr = Z.of_nat 1 + 1
    /\ waits tr = Z.of_nat 1 + 1.
Proof.
  apply (retry_stops_when_context_done 5 always_failing (done_at 1) 1
           DeadlineExceeded).
  - lia.
  - intros i _. discriminate.
  - intros i d Hi. assert (i = 0%nat) as -> by lia. reflexivity.
  - intros d. reflexivity.
Defined.

End RetryFacts.

(** ** The backend client *)

Section ClientFacts.
Import Retry Client.
Variable env : Env.

(** The hosted variant returns the placeholder text and no error when
    the response has no choices, for both request kinds. *)
Lemma hosted_zero_choices (l : LLMClient) (prompt code lang : string) (w : World) :
  provider l = "openai"%string ->
  (forall req, env_chat env (chat_calls w) req = Ok []) ->
  ReviewChunk env l prompt code lang w = (no_response, None, count_chat w)
  /\ GenerateUnitTests env l prompt code lang w = (no_response, None, count_chat w).
Proof.
  intros Hp Hz. unfold ReviewChunk, GenerateUnitTests, openaiChat.
  rewrite Hp, !Hz. split; reflexivity.
Qed.

(** So does the local variant for the test-generation request. *)
Lemma local_tests_zero_choices (l : LLMClient) (prompt code lang : string)
      (w : World) :
  provider l = "lmstudio"%string ->
  (forall req, env_http env (http_attempts w) req = Responds 200 (Ok [])) ->
  GenerateUnitTests env l prompt code lang w = (no_response, None, count_http w).
Proof.
  intros Hp Hz. unfold GenerateUnitTests, lmstudioChatTest.
  rewrite Hp, Hz. reflexivity.
Qed.

(** The controller around the closure of [lmstudioChat], when every
    response has zero choices: it ends with an error, and [lastErr] is
    the "No response" error. *)
Lemma lmstudio_loop_zero_choices (req : ChatRequest) :
  (forall k, env_http env k req = Responds 200 (Ok [])) ->
  forall n backoff err result lastErr w tr,
    n <> 0%nat ->
    exists e w' tr',
      retry_loop (lmstudioAttempt env req) (lmstudioSelect env) n backoff err
                 (result, lastErr, w) tr
      = (Some e, (result, Some no_response, w'), tr').
Proof.
  intros Hz. induction n as [|n IH]; intros backoff err result lastErr w tr Hn;
    [congruence|].
  cbn [retry_loop]. unfold lmstudioAttempt at 1. rewrite Hz.
  cbn [Z.eqb negb Pos.eqb]. unfold lmstudioSelect at 1.
  destruct (env_select env (selects (count_http w)) backoff) as [c|].
  - eauto.
  - destruct n as [|n]; [cbn [retry_loop]; eauto|].
    apply IH. discriminate.
Qed.

(** C2, where the code departs from it. On the local-server variant a
    review request whose responses carry zero choices is classified as an
    error: [ReviewChunk] returns the error "No response from LLM" with an
    empty text, whatever the context does. (The other three paths return
    the placeholder text with a nil error, see [hosted_zero_choices] and
    [local_tests_zero_choices].) *)
Theorem local_review_zero_choices_is_error (l : LLMClient)
        (prompt code lang : string) (w : World) :
  provider l = "lmstudio"%string ->
  (forall k req, env_http env k req = Responds 200 (Ok [])) ->
  exists w',
    ReviewChunk env l prompt code lang w = (EmptyString, Some no_response, w').
Proof.
  intros Hp Hz. unfold ReviewChunk. rewrite Hp.
  change (String.eqb "lmstudio" "openai") with false. cbv iota.
  unfold lmstudioChat, retryWithBackoff.
  set (run := retry_loop _ _ _ _ _ _ _).
  assert (Hrun : exists e w' tr', run = (Some e, (EmptyString, Some no_response, w'), tr')).
  { apply lmstudio_loop_zero_choices; [intros k; apply Hz|discriminate]. }
  destruct Hrun as (e & w' & tr' & ->). eauto.
Qed.

End ClientFacts.

Lemma local_review_zero_choices_is_error_witness :
  exists w',
    Client.ReviewChunk silent_env local_client "Review this." "func f() {}" "go"
                       world0
    = (EmptyString, Some Client.no_response, w').
Proof.
  apply (local_review_zero_choices_is_error silent_env local_client).
  - reflexivity.
  - intros k req. reflexivity.
Defined.

(** The same run, spelled out: three attempts, three waits, an error. *)
Example local_review_zero_choices_run :
  let '(review, err, w) :=
    Client.ReviewChunk silent_env local_client "Review this." "func f() {}" "go"
                       world0 in
  review = EmptyString /\ err = Some Client.no_response
  /\ http_attempts w = 3%nat /\ selects w = 3%nat.
Proof. vm_compute. repeat split. Qed.

(** ** The test artifact manager *)

Section IndexFacts.
Import Strings.

Lemma prefix_length (sub s : string) :
  prefix sub s = true -> (String.length sub <= String.length s)%nat.
Proof.
  revert s. induction sub as [|c sub IH]; intros s H; simpl; [lia|].
  destruct s as [|d s]; simpl in H; [discriminate|].
  destruct (ascii_dec c d); [|discriminate].
  apply IH in H. simpl. lia.
Qed.

Lemma Index_ge (s sub : string) : -1 <= Index s sub.
Proof.
  induction s as [|c r IH]; cbn [Index].
  - destruct (prefix sub EmptyString); lia.
  - destruct (prefix sub (String c r)); [lia|].
    destruct (Z.ltb_spec (Index r sub) 0); lia.
Qed.

Lemma Index_bound (s sub : string) :
  0 <= Index s sub -> Index s sub + slen sub <= slen s.
Proof.
  unfold slen. induction s as [|c r IH]; cbn [Index].
  - destruct (prefix sub EmptyString) eqn:E; [|lia].
    apply prefix_length in E. lia.
  - destruct (prefix sub (String c r)) eqn:E.
    + apply prefix_length in E. lia.
    + destruct (Z.ltb_spec (Index r sub) 0); [lia|].
      intros _. specialize (IH ltac:(lia)). simpl String.length. lia.
Qed.

Lemma Index_sound (s sub : string) (p : nat) :
  Index s sub = Z.of_nat p -> substring p (String.length sub) s = sub.
Proof.
  revert p. induction s as [|c r IH]; intros p; cbn [Index].
  - destruct (prefix sub EmptyString) eqn:E; [|lia].
    intros Hp. assert (p = 0%nat) as -> by lia. now apply prefix_correct.
  - destruct (prefix sub (String c r)) eqn:E.
    + intros Hp. assert (p = 0%nat) as -> by lia. now apply prefix_correct.
    + destruct (Z.ltb_spec (Index r sub) 0); [lia|].
      intros Hp. destruct p as [|p]; [lia|].
      simpl. apply IH. lia.
Qed.

Lemma substring_whole (s : string) : substring 0 (String.length s) s = s.
Proof. induction s; simpl; congruence. Qed.

Lemma substring_of_suffix (s : string) (a q m : nat) :
  (a <= String.length s)%nat ->
  substring q m (substring a (String.length s - a) s) = substring (a + q) m s.
Proof.
  revert a. induction s as [|c r IH]; intros a Ha.
  - simpl in Ha. assert (a = 0%nat) as -> by lia. reflexivity.
  - destruct a as [|a].
    + rewrite Nat.sub_0_r, substring_whole. reflexivity.
    + simpl in Ha. simpl. apply IH. lia.
Qed.

Lemma suffix_length (s : string) (a : nat) :
  (a <= String.length s)%nat ->
  String.length (substring a (String.length s - a) s) = (String.length s - a)%nat.
Proof.
  revert a. induction s as [|c r IH]; intros a Ha.
  - simpl in Ha. assert (a = 0%nat) as -> by lia. reflexivity.
  - destruct a as [|a].
    + rewrite Nat.sub_0_r, substring_whole. lia.
    + simpl in Ha. simpl. apply IH. lia.
Qed.

Lemma from_length (s : string) (a : Z) :
  0 <= a <= slen s -> slen (from s a) = slen s - a.
Proof.
  unfold slen, from. intros Ha. rewrite suffix_length by lia. lia.
Qed.

Lemma from_start (s : string) : from s 0 = s.
Proof. unfold from. simpl. rewrite Nat.sub_0_r. apply substring_whole. Qed.

(** A fence found by [Index] in the rest of a text from [a] on stands at
    that offset of the text. *)
Lemma fence_found (text : string) (a : Z) :
  0 <= a <= slen text ->
  0 <= Index (from text a) Client.fence ->
  fence_at text (Z.to_nat (a + Index (from text a) Client.fence))
  /\ a + Index (from text a) Client.fence + 3 <= slen text.
Proof.
  intros Ha Hi.
  pose proof (Index_bound (from text a) Client.fence Hi) as Hb.
  pose proof (Index_sound (from text a) Client.fence
                (Z.to_nat (Index (from text a) Client.fence))) as Hs.
  rewrite Z2Nat.id in Hs by lia. specialize (Hs eq_refl).
  set (q := Index (from text a) Client.fence) in *.
  split.
  - unfold fence_at. unfold from in Hs.
    rewrite substring_of_suffix in Hs by (unfold slen in Ha; lia).
    change (String.length Client.fence) with 3%nat in Hs.
    rewrite Z2Nat.inj_add by lia. exact Hs.
  - rewrite from_length in Hb by lia.
    change (slen Client.fence) with 3 in Hb. lia.
Qed.

End IndexFacts.

Section ArtifactFacts.
Import Strings Client Artifacts.
Variable env : Env.

(** C8. For every model output that holds no fenced code block, every
    language and every directory, [ParseAndWriteTests] returns the "no
    code blocks found" error with an empty list of files, and leaves the
    world as it was: nothing is written. *)
Theorem no_blocks_is_an_error (testGen lang dir : string) (chunkIdx : Z)
        (w : World) :
  ~ has_fenced_block testGen ->
  ParseAndWriteTests env testGen lang dir chunkIdx w
  = Returns ([], Some no_blocks_found, w).
Proof.
  intros Hnone. unfold ParseAndWriteTests. cbn [parse_loop].
  rewrite from_start.
  destruct (Z.eqb_spec (Index testGen fence) (-1)) as [|Hopen]; [reflexivity|].
  pose proof (Index_ge testGen fence) as Hge.
  assert (Hlen : 0 <= slen testGen) by (unfold slen; lia).
  destruct (fence_found testGen 0) as [Hat Hin];
    [lia|rewrite from_start; lia|].
  rewrite from_start in Hat, Hin. rewrite Z.add_0_l in Hat.
  rewrite Z.add_0_r.
  set (cs := Index testGen fence + 3) in *.
  destruct (Z.eqb_spec (Index (from testGen cs) fence) (-1)) as [|Hclose];
    [reflexivity|].
  pose proof (Index_ge (from testGen cs) fence) as Hge2.
  destruct (fence_found testGen cs) as [Hat2 _]; [lia|lia|].
  exfalso. apply Hnone.
  exists (Z.to_nat (Index testGen fence)),
         (Z.to_nat (cs + Index (from testGen cs) fence)).
  repeat split; try assumption. lia.
Qed.

Lemma artifact_name_supported (lang dir : string) (chunkIdx blockNum : Z)
      (w : World) :
  supported lang = true ->
  exists name,
    artifact_name env lang dir chunkIdx blockNum w = Some (name, count_clock w).
Proof.
  unfold supported, artifact_name. intros H.
  destruct (String.eqb lang "go"); [eauto|].
  destruct (String.eqb lang "php"); [eauto|discriminate].
Qed.




(** The loop of [ParseAndWriteTests] ends: with one unit of fuel per
    byte left of the text, and one more, it returns. *)
Lemma parse_loop_returns (testGen lang dir : string) (chunkIdx : Z) :
  forall fuel start blockNum files w,
    0 <= start <= slen testGen ->
    slen testGen - start < Z.of_nat fuel ->
    exists r,
      parse_loop env fuel testGen lang dir chunkIdx start blockNum files w
      = Returns r.
Proof.
  assert (Hend : forall files w, exists r, parse_end files w = Returns r).
  { intros files w. unfold parse_end. destruct (len files =? 0); eauto. }
  induction fuel as [|fuel IH]; intros start blockNum files w Hs Hf; [lia|].
  cbn [parse_loop].
  destruct (Z.eqb_spec (Index (from testGen start) fence) (-1)) as [|Hopen];
    [apply Hend|].
  pose proof (Index_ge (from testGen start) fence) as Hge.
  destruct (fence_found testGen start Hs) as [_ Hin]; [lia|].
  set (cs := Index (from testGen start) fence + start + 3) in *.
  destruct (Z.eqb_spec (Index (from testGen cs) fence) (-1)) as [|Hclose];
    [apply Hend|].
  pose proof (Index_ge (from testGen cs) fence) as Hge2.
  destruct (fence_found testGen cs) as [_ Hin2]; [lia|lia|].
  destruct (artifact_name env lang dir chunkIdx blockNum w) as [[name w1]|];
    [|eauto].
  destruct (env_write env (write_calls w1) name _); [eauto|].
  apply IH; lia.
Qed.

Lemma ParseAndWriteTests_returns (testGen lang dir : string) (chunkIdx : Z)
      (w : World) :
  exists r, ParseAndWriteTests env testGen lang dir chunkIdx w = Returns r.
Proof.
  unfold ParseAndWriteTests. apply parse_loop_returns; unfold slen; lia.
Qed.

End ArtifactFacts.

Lemma no_blocks_is_an_error_witness :
  Artifacts.ParseAndWriteTests silent_env "I have no tests to offer." "go" "out"
                               7 world0
  = Returns ([], Some Artifacts.no_blocks_found, world0).
Proof.
  apply (no_blocks_is_an_error silent_env).
  intros (i & j & Hi & Hj & Hij). unfold fence_at in Hi.
  do 26 (destruct i as [|i]; [discriminate Hi|]).
  clear - Hi. simpl in Hi. destruct i; discriminate Hi.
Defined.

(** The same run, spelled out: two files are returned with the error and
    are on the disk. *)
Example third_write_fails :
  Artifacts.ParseAndWriteTests full_after_two three_blocks "go" "out" 7 world0
  = Returns
      (["out/llm_generated_test_7_0_0.go"; "out/llm_generated_test_7_1_1.go"]%string,
       Some "no space left on device"%string,
       {| chat_calls := 0; http_attempts := 0; selects := 0; clock_reads := 3;
          write_calls := 3; run_calls := 0; remove_calls := 0; flag_reads := 0;
          sleeps := 0;
          disk := [("out/llm_generated_test_7_0_0.go", "go A");
                   ("out/llm_generated_test_7_1_1.go", "go B")]%string;
          ledgers := []; terminal := [] |}).
Proof. vm_compute. reflexivity. Qed.

(** ** The review orchestrator *)

Section OrchestratorFacts.
Import Client Artifacts Orchestrator.
Variable env : Env.
Variable l : LLMClient.
Variables (lang dir : string) (writeTests : bool) (maxRetries : Z).
Variables (reviewPrompt testPrompt : string).

(** Writing and running the tests of a chunk returns, resets the timeout
    counter and leaves the ledger alone. *)
Lemma write_and_run_ledger (i : Z) (testGen : string) (st : Locals) (w : World) :
  exists st' w',
    write_and_run env lang dir i testGen st w = Returns (st', w')
    /\ failedChunks st' = failedChunks st
    /\ timeoutCount st' = 0.
Proof.
  unfold write_and_run.
  destruct (ParseAndWriteTests_returns env testGen lang dir i w)
    as ([[files [e|]] w1] & ->).
  - eauto.
  - destruct (RunTests env lang dir (say (LogWrote files) w1)) as [[e|] w2]; eauto.
Qed.

(** The test generation of a chunk returns and leaves the ledger alone,
    whether it succeeds or fails. *)
Lemma generate_tests_ledger (i : Z) (chunk : string) (err : error)
      (st : Locals) (w : World) :
  exists st' w',
    generate_tests env l lang dir writeTests maxRetries testPrompt i chunk err st w
    = Returns (st', w')
    /\ failedChunks st' = failedChunks st.
Proof.
  unfold generate_tests.
  destruct (testgen_attempts env l lang maxRetries testPrompt (Z.to_nat maxRetries)
              0 i chunk EmptyString err w) as [[testGen [e|]] w1].
  - unfold count_timeout. destruct (is_timeout e); eauto.
  - destruct writeTests.
    + destruct (write_and_run_ledger i testGen st (say (LogSuggestions testGen) w1))
        as (st' & w' & -> & Hl & _). eauto.
    + eauto.
Qed.

(** C3, as the code has it. The loop body for chunk [i] always returns,
    and it appends a record to the ledger in one case only: the review
    attempts ended with an error whose text contains "context deadline
    exceeded"; the record then holds the index [i] and the error text. A
    review that ends with any other error adds no record (the chunk goes
    on to test generation), and no outcome of the test generation adds
    one. *)
Theorem ledger_after_chunk (i total : Z) (chunk : string) (st : Locals)
        (w : World) :
  exists st' w',
    process_chunk env l lang dir writeTests maxRetries reviewPrompt testPrompt
                  i total chunk st w
    = Returns (st', w')
    /\ failedChunks st'
       = failedChunks st
         ++ recorded i (review_outcome env l lang maxRetries reviewPrompt
                                       i total chunk w).
Proof.
  unfold process_chunk, review_outcome.
  destruct (review_attempts env l lang maxRetries reviewPrompt (Z.to_nat maxRetries)
              0 i chunk EmptyString None (say (LogReviewing (i + 1) total) w))
    as [[review [e|]] w1]; cbn [fst snd recorded].
  - destruct (is_timeout e) eqn:Et.
    + unfold count_timeout.
      destruct (timeoutCount st + 1 >=? 3); eexists; eexists; split; reflexivity.
    + match goal with
      | |- context [generate_tests ?a ?b ?c ?d ?e ?f ?g ?h ?i ?j ?k ?m] =>
          destruct (generate_tests_ledger h i j k m) as (st' & w' & -> & Hl)
      end.
      exists st', w'. rewrite Hl, app_nil_r. split; reflexivity.
  - match goal with
    | |- context [generate_tests ?a ?b ?c ?d ?e ?f ?g ?h ?i ?j ?k ?m] =>
        destruct (generate_tests_ledger h i j k m) as (st' & w' & -> & Hl)
    end.
    exists st', w'. rewrite Hl, app_nil_r. split; reflexivity.
Qed.

(** A chunk that is reviewed and gets its tests leaves the timeout
    counter as it was when tests are not written. *)
Lemma success_keeps_timeout_count (i total : Z) (chunk : string) (st : Locals)
      (w : World) (review testGen : string) (w1 w2 : World) :
  writeTests = false ->
  review_attempts env l lang maxRetries reviewPrompt (Z.to_nat maxRetries) 0 i
                  chunk EmptyString None (say (LogReviewing (i + 1) total) w)
  = (review, None, w1) ->
  testgen_attempts env l lang maxRetries testPrompt (Z.to_nat maxRetries) 0 i
                   chunk EmptyString None
                   (if String.eqb review EmptyString
                    then say (LogEmptyReview (i + 1)) w1 else w1)
  = (testGen, None, w2) ->
  process_chunk env l lang dir writeTests maxRetries reviewPrompt testPrompt
                i total chunk st w
  = Returns (st, say (LogChunkDone (i + 1)) (say (LogSuggestions testGen) w2)).
Proof.
  intros Hw Hr Ht. unfold process_chunk. rewrite Hr.
  unfold generate_tests. rewrite Ht, Hw. reflexivity.
Qed.

End OrchestratorFacts.

(** A review that fails with a server error, and a test generation that
    fails with one: both chunks are left out of the ledger, and no ledger
    file is written. *)
Example server_errors_not_recorded :
  exists st w,
    Orchestrator.ReviewAndFixLoop (hosted_env server_errors) hosted_client go_config
      "go" ["func a() {}"; "func b() {}"]%string false "." false 1
      "failed_chunks.json" world0
    = Returns (None, st, w)
    /\ Orchestrator.failedChunks st = []
    /\ ledgers w = []
    /\ chat_calls w = 4%nat.
Proof. eexists. eexists. split; [vm_compute; reflexivity|repeat split]. Qed.

(** C7, where the code departs from it. Without [--write-tests] a
    successful chunk does not reset the counter: two chunks that time
    out, a chunk that succeeds and a fourth that times out leave the
    counter at 3, and the warning about 3 consecutive timeouts is
    printed, although the timeouts are not consecutive. *)
Theorem timeouts_counted_across_a_success :
  exists st w,
    Orchestrator.ReviewAndFixLoop (hosted_env timeouts_around_a_success)
      hosted_client go_config "go"
      ["func a() {}"; "func b() {}"; "func c() {}"; "func d() {}"]%string
      false "." false 1 EmptyString world0
    = Returns (None, st, w)
    /\ Orchestrator.timeoutCount st = 3
    /\ map Index (Orchestrator.failedChunks st) = [0; 1; 3]
    /\ In (LogChunkDone 3) (terminal w)
    /\ In (LogTimeoutWarning 3) (terminal w).
Proof.
  eexists. eexists. split; [vm_compute; reflexivity|].
  repeat split; simpl; tauto.
Qed.

(** With [--write-tests] the same run resets the counter at the third
    chunk and prints no warning. *)
Example timeouts_reset_when_writing_tests :
  exists st w,
    Orchestrator.ReviewAndFixLoop (hosted_env timeouts_around_a_success)
      hosted_client go_config "go"
      ["func a() {}"; "func b() {}"; "func c() {}"; "func d() {}"]%string
      true "." false 1 EmptyString world0
    = Returns (None, st, w)
    /\ Orchestrator.timeoutCount st = 1
    /\ ~ In (LogTimeoutWarning 3) (terminal w).
Proof.
  eexists. eexists. split; [vm_compute; reflexivity|].
  split; [reflexivity|]. simpl. intuition discriminate.
Qed.

(** ** Chunk selection in [main] *)

Section MainFacts.
Import Main.

(** The filter of the resume branch: it never indexes out of range, and
    it selects the chunks of the in-range indices, in ledger order; a
    record with a negative or too large index contributes nothing. *)
Lemma resume_chunks_in_range (failed : list Z) (allChunks chunks : list string) :
  resume_chunks failed allChunks chunks
  = Returns (chunks ++ in_range_chunks failed allChunks).
Proof.
  revert chunks. induction failed as [|idx rest IH]; intros chunks.
  - simpl. now rewrite app_nil_r.
  - cbn [resume_chunks in_range_chunks flat_map]. rewrite Z.geb_leb.
    destruct (Z.leb_spec 0 idx) as [H0|H0];
      destruct (Z.ltb_spec idx (len allChunks)) as [H1|H1]; cbn [andb];
      try (rewrite IH; reflexivity).
    unfold len in H1.
    rewrite (nth_error_nth' allChunks EmptyString) by lia.
    rewrite IH, <- app_assoc. reflexivity.
Qed.

(** The [switch] on the mode does not read the chunks the resume branch
    selected: every case assigns [chunks] anew, returns or exits. *)
Lemma mode_switch_ignores_chunks (inp : Inputs) (fl : Flags) (cfg : Config)
      (chunks chunks' : list string) :
  mode_switch inp fl cfg chunks = mode_switch inp fl cfg chunks'.
Proof. reflexivity. Qed.

(** C9, where the code departs from it. The resume branch filters the
    ledger as the claim says ([resume_chunks_in_range]), but the run
    does not proceed with the chunks it selected: whenever a run with
    [--resume-failed] reaches the review, it reviews exactly what the
    same command line without [--resume-failed] reviews. *)
Theorem resume_selection_is_discarded (inp : Inputs) (fl : Flags)
        (calls : list (string * list string)) :
  resumeFailed fl = true ->
  main inp fl = Reviews calls ->
  main inp (without_resume fl) = Reviews calls.
Proof.
  intros Hr. unfold main. cbn [without_resume configPath resumeFailed
                                llmProvider llmModel].
  rewrite Hr.
  destruct (in_config inp (configPath fl)) as [cfg|err]; [|auto].
  destruct (resume_branch inp fl cfg) as [[chunks|msg]| |]; try discriminate.
  set (cfg2 := if String.eqb (llmModel fl) EmptyString then _ else _).
  destruct (String.eqb (LLMProvider cfg2) "lmstudio"
            && negb (existsb (String.eqb (LLMModel cfg2)) lmstudio_models));
    [auto|].
  destruct (in_health inp); [auto|].
  intros H. rewrite <- H. reflexivity.
Qed.

End MainFacts.

Lemma resume_selection_is_discarded_witness :
  Main.main resume_inputs (without_resume resume_flags)
  = Main.Reviews [("go"%string, [small_diff])].
Proof.
  apply (resume_selection_is_discarded resume_inputs resume_flags).
  - reflexivity.
  - vm_compute. reflexivity.
Defined.

(** The run of the witness, spelled out: the resume branch selects chunk
    1 of the project, the last two lines of the file, and skips the
    records 7 and -2; the review is then made of the uncommitted diff. *)
Example resume_run :
  Main.resume_branch resume_inputs resume_flags go_config
  = Returns (Ok [Strings.Join ["func d() {}"; "func e() {}"]%string Strings.nl])
  /\ Main.main resume_inputs resume_flags
     = Main.Reviews [("go"%string, [small_diff])].
Proof. split; vm_compute; reflexivity. Qed.

(** * Further properties *)

(** ** The chunker at its edges *)

Section ChunkerEdges.
Import Strings Chunker.

(** With a chunk size of 0 the loop of the chunker never ends: whatever
    the number of iterations allowed, it has not returned. (A
    configuration without [chunk_size] has the chunk size 0.) *)
Theorem chunk_size_zero_never_returns (body : string) (fuel : nat)
        (chunks : list string) :
  chunk_loop fuel (Split body) 0 0 chunks = Diverges.
Proof.
  destruct (Split_cons body) as (h & t & E). rewrite E.
  revert chunks. induction fuel as [|fuel IH]; intros chunks.
  - reflexivity.
  - cbn [chunk_loop].
    assert (Hlen : 0 < len (h :: t)) by (unfold len; simpl List.length; lia).
    destruct (Z.ltb_spec 0 (len (h :: t))); [|lia].
    change (wrap64 (0 + 0)) with 0.
    destruct (Z.gtb_spec 0 (len (h :: t))); [lia|].
    unfold slice.
    destruct (Z.leb_spec 0 (len (h :: t))); [|lia].
    cbn [Z.leb Z.compare andb]. apply IH.
Qed.

(** A negative chunk size makes the first slice expression panic. *)
Theorem negative_chunk_size_panics (body : string) (k : Z) :
  - 2 ^ 63 <= k < 0 ->
  ChunkDiff body k = Panics.
Proof.
  intros Hk. unfold ChunkDiff, chunk_lines.
  destruct (Split_cons body) as (h & t & E). rewrite E.
  cbn [chunk_loop].
  assert (Hlen : 0 < len (h :: t)) by (unfold len; simpl List.length; lia).
  destruct (Z.ltb_spec 0 (len (h :: t))); [|lia].
  rewrite Z.add_0_l, wrap64_small by (unfold max_int; lia).
  destruct (Z.gtb_spec k (len (h :: t))); [lia|].
  unfold slice.
  destruct (Z.leb_spec 0 k); [lia|]. reflexivity.
Qed.

Lemma negative_chunk_size_panics_witness :
  ChunkDiff ten_lines (-1) = Panics.
Proof. apply (negative_chunk_size_panics ten_lines (-1)). lia. Defined.

Lemma groups_full {A : Type} (k : nat) :
  (1 <= k)%nat ->
  forall fuel (l : list A),
    (List.length l <= fuel)%nat ->
    Forall (fun g => List.length g = k) (removelast (groups fuel k l)).
Proof.
  intros Hk. induction fuel as [|f IH]; intros l Hl; [constructor|].
  destruct l as [|a l]; [constructor|].
  cbn [groups].
  assert (Hpos : (1 <= List.length (a :: l))%nat) by (simpl; lia).
  set (l' := a :: l) in *.
  destruct (groups f k (skipn k l')) as [|g gs] eqn:Eg; [constructor|].
  change (removelast (firstn k l' :: g :: gs))
    with (firstn k l' :: removelast (g :: gs)).
  constructor.
  - rewrite length_firstn.
    destruct (Nat.le_gt_cases (List.length l') k) as [Hle|Hgt]; [|lia].
    rewrite skipn_all2, groups_nil in Eg by lia. discriminate.
  - rewrite <- Eg. apply IH. rewrite length_skipn. lia.
Qed.

(** Every chunk but the last has exactly [k] lines. *)
Theorem full_chunks_have_k_lines (body : string) (k : Z) :
  1 <= k <= max_int ->
  slen body < 2 ^ 62 ->
  exists chunks,
    ChunkDiff body k = Returns chunks
    /\ Forall (fun c => line_count c = k) (removelast chunks).
Proof.
  intros Hk Hbody.
  pose proof (line_count_bound body Hbody) as Hlen.
  pose proof (chunk_lines_groups (Split body) k Hk Hlen) as Hrun.
  set (n := S (List.length (Split body))) in *.
  assert (Hk' : (1 <= Z.to_nat k)%nat) by lia.
  pose proof (groups_full (Z.to_nat k) Hk' n (Split body) ltac:(lia)) as Hfull.
  pose proof (groups_keep (fun x => no_newline x = true) (Z.to_nat k) n
                (Split body) (Split_no_newline body)) as Hnl.
  exists (map join_lines (groups n (Z.to_nat k) (Split body))).
  split; [exact Hrun|]. clear Hrun.
  induction (groups n (Z.to_nat k) (Split body)) as [|g gs IH]; [constructor|].
  destruct gs as [|g' gs]; [constructor|].
  change (removelast (map join_lines (g :: g' :: gs)))
    with (join_lines g :: removelast (map join_lines (g' :: gs))).
  change (removelast (g :: g' :: gs)) with (g :: removelast (g' :: gs)) in Hfull.
  inversion Hfull as [|? ? Hg Hrest]; inversion Hnl as [|? ? Hgl Hnl']; subst.
  constructor; [|apply IH; assumption].
  unfold line_count, join_lines. rewrite Split_Join; [unfold len; lia| |assumption].
  destruct g; [simpl in Hg; lia|discriminate].
Qed.

Lemma full_chunks_have_k_lines_witness :
  exists chunks,
    ChunkDiff ten_lines 4 = Returns chunks
    /\ Forall (fun c => line_count c = 4) (removelast chunks).
Proof.
  apply (full_chunks_have_k_lines ten_lines 4).
  - unfold max_int. lia.
  - vm_compute. reflexivity.
Defined.

End ChunkerEdges.

(** ** The chunks of a project *)

Section ProjectChunks.
Import Strings Chunker Main.

Lemma chunk_lines_append (lines : list string) (k : Z) (acc : list string) :
  1 <= k <= max_int ->
  len lines <= 2 ^ 62 ->
  exists cs,
    chunk_lines lines k [] = Returns cs
    /\ chunk_lines lines k acc = Returns (acc ++ cs).
Proof.
  intros Hk Hlen. unfold chunk_lines. change 0 with (Z.of_nat 0).
  rewrite !(chunk_loop_groups lines k Hk Hlen) by (auto; lia).
  eexists. split; reflexivity.
Qed.

Lemma walk_chunks_per_file (fs : FileSystem) (k : Z) (ext : string) :
  1 <= k <= max_int ->
  forall entries acc,
    unbroken entries = true ->
    Forall (fun p => exists body, fs p = Ok body /\ slen body < 2 ^ 62)
           (regular_with ext entries) ->
    exists per_file,
      Forall2 (fun p cs => GetFileChunks fs p k = Returns (cs, None))
              (regular_with ext entries) per_file
      /\ walk_chunks fs entries k [ext] acc
         = Returns (acc ++ List.concat per_file, None).
Proof.
  intros Hk. induction entries as [|e rest IH]; intros acc Hu Hr.
  - exists []. split; [constructor|]. simpl. now rewrite app_nil_r.
  - destruct e as [p err|p|p]; cbn [unbroken] in Hu; [discriminate| |].
    + cbn [walk_chunks regular_with] in *. now apply IH.
    + cbn [walk_chunks regular_with file_chunks] in *.
      destruct (HasSuffix p ext) eqn:Es.
      * inversion Hr as [|? ? (body & Hf & Hb) Hrest]; subst.
        rewrite Hf.
        destruct (chunk_lines_append (Split body) k acc Hk
                    (line_count_bound body Hb)) as (cs & Hcs & Hacc).
        rewrite Hacc.
        destruct (IH (acc ++ cs) Hu Hrest) as (per_file & Hall & Hrun).
        exists (cs :: per_file). split.
        -- constructor; [|assumption]. unfold GetFileChunks. now rewrite Hf, Hcs.
        -- rewrite Hrun. cbn [List.concat]. now rewrite app_assoc.
      * now apply IH.
Qed.

(** The chunks of a project are the chunks of its files, one file after
    the other in walking order: directories and files without the
    extension are passed over, and no chunk holds lines of two files. *)
Theorem project_chunks_are_per_file (fs : FileSystem)
        (walk : string -> list WalkEntry) (dir ext : string) (k : Z) :
  1 <= k <= max_int ->
  unbroken (walk dir) = true ->
  Forall (fun p => exists body, fs p = Ok body /\ slen body < 2 ^ 62)
         (regular_with ext (walk dir)) ->
  exists per_file,
    Forall2 (fun p cs => GetFileChunks fs p k = Returns (cs, None))
            (regular_with ext (walk dir)) per_file
    /\ GetProjectChunks fs walk dir k [ext] = Returns (List.concat per_file, None).
Proof.
  intros Hk Hu Hr. unfold GetProjectChunks.
  destruct (walk_chunks_per_file fs k ext Hk (walk dir) [] Hu Hr)
    as (per_file & Hall & Hrun).
  exists per_file. split; assumption.
Qed.

Lemma project_chunks_are_per_file_witness :
  exists per_file,
    Forall2 (fun p cs => GetFileChunks (fun _ => Ok six_lines) p 4
                         = Returns (cs, None))
            (regular_with ".go"
               [Directory "."; Regular "a.go"; Regular "README.md"; Regular "b.go"])
            per_file
    /\ GetProjectChunks (fun _ => Ok six_lines)
         (fun _ => [Directory "."; Regular "a.go"; Regular "README.md";
                    Regular "b.go"])
         "." 4 [".go"%string]
       = Returns (List.concat per_file, None).
Proof.
  apply (project_chunks_are_per_file (fun _ => Ok six_lines)
           (fun _ => [Directory "."; Regular "a.go"; Regular "README.md";
                      Regular "b.go"]) "." ".go" 4).
  - unfold max_int. lia.
  - reflexivity.
  - repeat constructor; exists six_lines; split; try reflexivity;
      vm_compute; reflexivity.
Defined.

(** A file that cannot be read ends the walk: the chunks of the files
    before it are returned with the error, the files after it are not
    read. *)
Theorem unreadable_file_ends_the_walk (fs : FileSystem) (k : Z) (ext : string)
        (before after : list WalkEntry) (p err : string) :
  1 <= k <= max_int ->
  unbroken before = true ->
  Forall (fun q => exists body, fs q = Ok body /\ slen body < 2 ^ 62)
         (regular_with ext before) ->
  HasSuffix p ext = true ->
  fs p = Fail err ->
  exists chunks,
    walk_chunks fs before k [ext] [] = Returns (chunks, None)
    /\ walk_chunks fs (before ++ Regular p :: after) k [ext] []
       = Returns (chunks, Some err).
Proof.
  intros Hk Hu Hr Hs Hf.
  assert (Hgen : forall acc, exists more,
             walk_chunks fs before k [ext] acc = Returns (acc ++ more, None)
             /\ walk_chunks fs (before ++ Regular p :: after) k [ext] acc
                = Returns (acc ++ more, Some err)).
  { induction before as [|e rest IH]; intros acc.
    - exists []. rewrite app_nil_r. split; [reflexivity|].
      cbn [app walk_chunks file_chunks]. now rewrite Hs, Hf.
    - destruct e as [q e'|q|q]; cbn [unbroken] in Hu; [discriminate| |].
      + cbn [app walk_chunks regular_with] in *. now apply IH.
      + cbn [app walk_chunks regular_with file_chunks] in *.
        destruct (HasSuffix q ext) eqn:Es; [|now apply IH].
        inversion Hr as [|? ? (body & Hq & Hb) Hrest]; subst.
        rewrite Hq.
        destruct (chunk_lines_append (Split body) k acc Hk
                    (line_count_bound body Hb)) as (cs & _ & Hacc).
        rewrite Hacc.
        destruct (IH Hu Hrest (acc ++ cs)) as (more & H1 & H2).
        exists (cs ++ more). rewrite app_assoc. split; assumption. }
  destruct (Hgen []) as (more & H1 & H2). exists more. split; assumption.
Qed.

Lemma unreadable_file_ends_the_walk_witness :
  exists chunks,
    walk_chunks (fun q => if String.eqb q "b.go" then Fail "permission denied"
                          else Ok six_lines)
                [Regular "a.go"] 4 [".go"%string] []
    = Returns (chunks, None)
    /\ walk_chunks (fun q => if String.eqb q "b.go" then Fail "permission denied"
                             else Ok six_lines)
                   ([Regular "a.go"] ++ Regular "b.go" :: [Regular "c.go"])
                   4 [".go"%string] []
       = Returns (chunks, Some "permission denied"%string).
Proof.
  apply (unreadable_file_ends_the_walk
           (fun q => if String.eqb q "b.go" then Fail "permission denied"
                     else Ok six_lines)
           4 ".go" [Regular "a.go"] [Regular "c.go"] "b.go" "permission denied").
  - unfold max_int. lia.
  - reflexivity.
  - repeat constructor. exists six_lines. split; [reflexivity|].
    vm_compute. reflexivity.
  - reflexivity.
  - reflexivity.
Defined.

End ProjectChunks.

(** ** The retry controller: success and backoff *)

Section RetryMore.
Import Retry.

Lemma retry_loop_succeeds (outcomes : nat -> error) (sel : nat -> Z -> Selected) :
  forall t n backoff err c w tr,
    (t < n)%nat ->
    (forall i, (i < t)%nat -> outcomes (c + i)%nat <> None) ->
    outcomes (c + t)%nat = None ->
    (forall i d, (i < t)%nat -> sel (w + i)%nat d = TimerFired) ->
    exists tr',
      retry_loop (scripted_fn outcomes) (scripted_select sel) n backoff err (c, w) tr
      = (None, (S (c + t), (w + t)%nat), tr ++ tr')
      /\ invocations tr' = Z.of_nat (S t)
      /\ waits tr' = Z.of_nat t.
Proof.
  induction t as [|t IH]; intros n backoff err c w tr Hn Hfail Hok Hwait;
    (destruct n as [|n]; [lia|]); cbn [retry_loop];
    unfold scripted_fn at 1; cbn [fst snd].
  - rewrite Nat.add_0_r in Hok. rewrite Hok.
    exists [Invoke]. rewrite !Nat.add_0_r. repeat split.
  - destruct (outcomes c) as [x|] eqn:Ec.
    2:{ exfalso. apply (Hfail 0%nat); [lia|]. now rewrite Nat.add_0_r. }
    unfold scripted_select at 1. cbn [fst snd].
    assert (H0 : sel w backoff = TimerFired).
    { rewrite <- (Hwait 0%nat backoff) by lia. now rewrite Nat.add_0_r. }
    rewrite H0.
    destruct (IH n (wrap64 (backoff * 2)) (Some x) (S c) (S w)
                 ((tr ++ [Invoke]) ++ [Wait backoff])) as (tr' & Hrun & Hi & Hw).
    + lia.
    + intros i Hi. replace (S c + i)%nat with (c + S i)%nat by lia.
      apply Hfail. lia.
    + replace (S c + t)%nat with (c + S t)%nat by lia. exact Hok.
    + intros i d Hi. replace (S w + i)%nat with (w + S i)%nat by lia.
      apply Hwait. lia.
    + exists ([Invoke; Wait backoff] ++ tr'). rewrite Hrun. repeat split.
      * f_equal; [f_equal; f_equal; lia|]. now rewrite <- !app_assoc.
      * rewrite invocations_app, Hi, !Nat2Z.inj_succ.
        change (invocations [Invoke; Wait backoff]) with 1. lia.
      * rewrite waits_app, Hw, !Nat2Z.inj_succ.
        change (waits [Invoke; Wait backoff]) with 1. lia.
Qed.

(** An operation that fails [j] times and succeeds at its next attempt,
    with [j] below the limit and a context that is not done meanwhile:
    the controller returns [nil] after [j + 1] invocations and [j] waits,
    and does not invoke the operation again. *)
Theorem retry_returns_at_first_success (m : Z) (outcomes : nat -> error)
        (sel : nat -> Z -> Selected) (j : nat) :
  Z.of_nat j < m ->
  (forall i, (i < j)%nat -> outcomes i <> None) ->
  outcomes j = None ->
  (forall i d, (i < j)%nat -> sel i d = TimerFired) ->
  exists tr,
    retryWithBackoff (scripted_fn outcomes) (scripted_select sel) m (0%nat, 0%nat)
    = (None, (S j, j), tr)
    /\ invocations tr = Z.of_nat j + 1
    /\ waits tr = Z.of_nat j.
Proof.
  intros Hj Hfail Hok Hwait. unfold retryWithBackoff.
  destruct (retry_loop_succeeds outcomes sel j (Z.to_nat m) second None
              0%nat 0%nat []) as (tr & Hrun & Hi & Hw); auto; [lia|].
  exists tr. rewrite Hrun. cbn [app Nat.add]. repeat split; lia.
Qed.

Lemma retry_returns_at_first_success_witness :
  exists tr,
    retryWithBackoff (scripted_fn (fails_then_succeeds 2))
                     (scripted_select never_done) 3 (0%nat, 0%nat)
    = (None, (3%nat, 2%nat), tr)
    /\ invocations tr = Z.of_nat 2 + 1
    /\ waits tr = Z.of_nat 2.
Proof.
  apply (retry_returns_at_first_success 3 (fails_then_succeeds 2) never_done 2).
  - lia.
  - intros i Hi. unfold fails_then_succeeds.
    destruct (Nat.ltb_spec i 2); [discriminate|lia].
  - reflexivity.
  - intros i d _. reflexivity.
Defined.

Lemma retry_loop_doubles (outcomes : nat -> error) :
  (forall i, outcomes i <> None) ->
  forall n backoff err c w tr,
    0 <= backoff ->
    backoff * 2 ^ Z.of_nat (pred n) <= max_int ->
    snd (retry_loop (scripted_fn outcomes) (scripted_select never_done) n
                    backoff err (c, w) tr)
    = tr ++ doubling_trace n backoff.
Proof.
  intros Hfail. induction n as [|n IH]; intros backoff err c w tr Hb Hmax.
  - simpl. now rewrite app_nil_r.
  - cbn [retry_loop]. unfold scripted_fn at 1. cbn [fst snd].
    destruct (outcomes c) as [x|] eqn:Ec; [|now apply Hfail in Ec].
    unfold scripted_select at 1, never_done at 1. cbn [fst snd].
    destruct n as [|n].
    + cbn [retry_loop snd doubling_trace]. now rewrite <- app_assoc.
    + assert (Hpow : 2 ^ Z.of_nat (pred (S (S n))) = 2 * 2 ^ Z.of_nat (pred (S n))).
      { cbn [pred]. rewrite Nat2Z.inj_succ, Z.pow_succ_r by lia. reflexivity. }
      assert (Hone : 0 < 2 ^ Z.of_nat (pred (S n))) by (apply Z.pow_pos_nonneg; lia).
      rewrite Hpow in Hmax.
      rewrite wrap64_small by (unfold max_int in *; nia).
      rewrite IH by nia.
      cbn [doubling_trace]. rewrite <- !app_assoc. reflexivity.
Qed.

(** The backoff is exponential: when up to 34 attempts fail in a row
    under a context that is not done, the waits are of 1 s, 2 s, 4 s and
    so on, each twice the one before. (From the 35th attempt on the
    doubled duration no longer fits 64 bits.) *)
Theorem backoff_doubles (m : Z) (outcomes : nat -> error) :
  0 <= m <= 34 ->
  (forall i, outcomes i <> None) ->
  snd (retryWithBackoff (scripted_fn outcomes) (scripted_select never_done) m
                        (0%nat, 0%nat))
  = doubling_trace (Z.to_nat m) second.
Proof.
  intros Hm Hfail. unfold retryWithBackoff.
  rewrite (retry_loop_doubles outcomes Hfail); [reflexivity|unfold second; lia|].
  assert (Hp : 2 ^ Z.of_nat (pred (Z.to_nat m)) <= 2 ^ 33).
  { apply Z.pow_le_mono_r; lia. }
  unfold second, max_int. nia.
Qed.

Lemma backoff_doubles_witness :
  snd (retryWithBackoff (scripted_fn always_failing) (scripted_select never_done) 3
                        (0%nat, 0%nat))
  = doubling_trace (Z.to_nat 3) second.
Proof.
  apply (backoff_doubles 3 always_failing).
  - lia.
  - intros i. discriminate.
Defined.

End RetryMore.

(** ** The backend client: attempts, recovery, cancellation *)

Section ClientMore.
Import Retry Client.
Variable env : Env.

Lemma backend_only_refl (w : World) : backend_only w w.
Proof. unfold backend_only. repeat split. Qed.

Lemma backend_only_trans (w1 w2 w3 : World) :
  backend_only w1 w2 -> backend_only w2 w3 -> backend_only w1 w3.
Proof. unfold backend_only. intuition congruence. Qed.

(** One run of the closure of [lmstudioChat]: a text and no error, or
    the error of the attempt, also kept in [lastErr]. *)
Lemma lmstudioAttempt_result (req : ChatRequest) (result : string)
      (lastErr : error) (w : World) :
  lmstudioAttempt env req (result, lastErr, w)
  = match attempt_text (env_http env (http_attempts w) req) with
    | Some c => (None, (c, lastErr, count_http w))
    | None =>
        let e := attempt_error (env_http env (http_attempts w) req) in
        (Some e, (result, Some e, count_http w))
    end.
Proof.
  unfold lmstudioAttempt, attempt_text, attempt_error.
  destruct (env_http env (http_attempts w) req) as [e|e|e|status [[|c cs]|e]];
    try reflexivity; destruct (status =? 200); reflexivity.
Qed.

(** The controller around the closure: what it leaves of the world. *)
Lemma lmstudio_loop_frame (req : ChatRequest) :
  forall n backoff err result lastErr w tr e r le w' tr',
    retry_loop (lmstudioAttempt env req) (lmstudioSelect env) n backoff err
               (result, lastErr, w) tr
    = (e, (r, le, w'), tr') ->
    backend_only w w'
    /\ chat_calls w' = chat_calls w
    /\ (http_attempts w <= http_attempts w' <= http_attempts w + n)%nat
    /\ (selects w' <= selects w + n)%nat
    /\ (n <> 0%nat -> (http_attempts w < http_attempts w')%nat).
Proof.
  induction n as [|n IH]; intros backoff err result lastErr w tr e r le w' tr' Hrun.
  - cbn [retry_loop] in Hrun. inversion Hrun; subst.
    split; [apply backend_only_refl|]. repeat split; lia.
  - cbn [retry_loop] in Hrun. rewrite lmstudioAttempt_result in Hrun.
    destruct (attempt_text (env_http env (http_attempts w) req)) as [c|].
    + inversion Hrun; subst. cbn [http_attempts chat_calls selects count_http].
      split; [unfold backend_only; repeat split|]. repeat split; lia.
    + cbn zeta in Hrun. unfold lmstudioSelect at 1 in Hrun.
      destruct (env_select env (selects (count_http w)) backoff) as [ce|].
      * inversion Hrun; subst.
        cbn [http_attempts chat_calls selects count_http count_select].
        split; [unfold backend_only; repeat split|]. repeat split; lia.
      * apply IH in Hrun. destruct Hrun as (Hb & Hc & Hh & Hs & _).
        cbn [http_attempts chat_calls selects count_http count_select] in *.
        split.
        -- eapply backend_only_trans; [|exact Hb].
           unfold backend_only. repeat split.
        -- repeat split; lia.
Qed.

Lemma ReviewChunk_frame (l : LLMClient) (prompt code lang : string)
      (w : World) (review : string) (err : error) (w' : World) :
  ReviewChunk env l prompt code lang w = (review, err, w') ->
  backend_only w w'
  /\ (chat_calls w <= chat_calls w')%nat
  /\ (http_attempts w <= http_attempts w')%nat
  /\ (chat_calls w + http_attempts w < chat_calls w' + http_attempts w'
      <= chat_calls w + http_attempts w + 3)%nat
  /\ (selects w' <= selects w + 3)%nat.
Proof.
  unfold ReviewChunk. destruct (String.eqb (provider l) "openai").
  - unfold openaiChat.
    destruct (env_chat env (chat_calls w) _) as [[|c cs]|e];
      intros H; inversion H; subst;
      cbn [chat_calls http_attempts selects count_chat];
      (split; [unfold backend_only; repeat split|repeat split; lia]).
  - unfold lmstudioChat, retryWithBackoff.
    destruct (retry_loop _ _ _ _ _ _ _) as [[e [[r le] w1]] tr'] eqn:Hrun.
    apply lmstudio_loop_frame in Hrun.
    destruct Hrun as (Hb & Hc & Hh & Hs & Hpos).
    change (Z.to_nat 3) with 3%nat in *.
    specialize (Hpos ltac:(discriminate)).
    destruct e; intros H; inversion H; subst; repeat split; try apply Hb; lia.
Qed.

Lemma GenerateUnitTests_frame (l : LLMClient) (prompt code lang : string)
      (w : World) (testGen : string) (err : error) (w' : World) :
  GenerateUnitTests env l prompt code lang w = (testGen, err, w') ->
  backend_only w w'
  /\ (chat_calls w' + http_attempts w' = S (chat_calls w + http_attempts w))%nat
  /\ selects w' = selects w
  /\ (chat_calls w <= chat_calls w')%nat
  /\ (http_attempts w <= http_attempts w')%nat.
Proof.
  unfold GenerateUnitTests. destruct (String.eqb (provider l) "openai").
  - unfold openaiChat.
    destruct (env_chat env (chat_calls w) _) as [[|c cs]|e];
      intros H; inversion H; subst;
      cbn [chat_calls http_attempts selects count_chat];
      (split; [unfold backend_only; repeat split|repeat split; lia]).
  - unfold lmstudioChatTest.
    destruct (env_http env (http_attempts w) _) as [e|e|e|status [[|c cs]|e]];
      try destruct (negb (status =? 200));
      intros H; inversion H; subst;
      cbn [chat_calls http_attempts selects count_http];
      (split; [unfold backend_only; repeat split|repeat split; lia]).
Qed.

(** A review request costs at most one call of the hosted API, or
    between one and three HTTP attempts and at most three waits on the
    local server, and a test-generation request exactly one request;
    neither writes, removes, runs, prints nor sleeps. *)
Theorem backend_calls_are_bounded (l : LLMClient) (prompt code lang : string)
        (w : World) :
  let '(_, _, w1) := ReviewChunk env l prompt code lang w in
  let '(_, _, w2) := GenerateUnitTests env l prompt code lang w in
  backend_only w w1
  /\ (chat_calls w + http_attempts w < chat_calls w1 + http_attempts w1
      <= chat_calls w + http_attempts w + 3)%nat
  /\ (selects w1 <= selects w + 3)%nat
  /\ backend_only w w2
  /\ (chat_calls w2 + http_attempts w2 = S (chat_calls w + http_attempts w))%nat
  /\ selects w2 = selects w.
Proof.
  destruct (ReviewChunk env l prompt code lang w) as [[r e] w1] eqn:Hr.
  destruct (GenerateUnitTests env l prompt code lang w) as [[t e'] w2] eqn:Ht.
  apply ReviewChunk_frame in Hr. apply GenerateUnitTests_frame in Ht.
  destruct Hr as (Hb & Hc & Hh & Hsum & Hs). destruct Ht as (Hb' & Hc' & Hs' & _).
  repeat split; try assumption; try apply Hb; try apply Hb'; lia.
Qed.

End ClientMore.

Section ClientRecovery.
Import Retry Client.
Variable env : Env.

Lemma lmstudio_loop_recovers (req : ChatRequest) (c : string) :
  forall t n backoff err result lastErr w tr,
    (t < n)%nat ->
    (forall i, (i < t)%nat ->
               attempt_text (env_http env (http_attempts w + i) req) = None) ->
    attempt_text (env_http env (http_attempts w + t) req) = Some c ->
    (forall i d, (i < t)%nat -> env_select env (selects w + i) d = TimerFired) ->
    exists le w' tr',
      retry_loop (lmstudioAttempt env req) (lmstudioSelect env) n backoff err
                 (result, lastErr, w) tr
      = (None, (c, le, w'), tr')
      /\ http_attempts w' = (http_attempts w + S t)%nat
      /\ selects w' = (selects w + t)%nat.
Proof.
  induction t as [|t IH]; intros n backoff err result lastErr w tr Hn Hfail Hok Hsel;
    (destruct n as [|n]; [lia|]); cbn [retry_loop];
    rewrite lmstudioAttempt_result.
  - rewrite Nat.add_0_r in Hok. rewrite Hok.
    do 3 eexists. split; [reflexivity|].
    cbn [http_attempts selects count_http]. split; lia.
  - pose proof (Hfail 0%nat ltac:(lia)) as H0. rewrite Nat.add_0_r in H0.
    rewrite H0. cbn zeta. unfold lmstudioSelect at 1.
    pose proof (Hsel 0%nat backoff ltac:(lia)) as H1. rewrite Nat.add_0_r in H1.
    change (selects (count_http w)) with (selects w). rewrite H1.
    destruct (IH n (wrap64 (backoff * 2))
                 (Some (attempt_error (env_http env (http_attempts w) req)))
                 result
                 (Some (attempt_error (env_http env (http_attempts w) req)))
                 (count_select (count_http w))
                 ((tr ++ [Invoke]) ++ [Wait backoff]))
      as (le & w' & tr' & Hrun & Hh & Hs).
    + lia.
    + intros i Hi. cbn [http_attempts count_select count_http].
      replace (S (http_attempts w) + i)%nat with (http_attempts w + S i)%nat by lia.
      apply Hfail. lia.
    + cbn [http_attempts count_select count_http].
      replace (S (http_attempts w) + t)%nat with (http_attempts w + S t)%nat by lia.
      exact Hok.
    + intros i d Hi. cbn [selects count_select count_http].
      replace (S (selects w) + i)%nat with (selects w + S i)%nat by lia.
      apply Hsel. lia.
    + exists le, w', tr'. split; [exact Hrun|].
      cbn [http_attempts selects count_select count_http] in Hh, Hs. split; lia.
Qed.

(** A review on the local server whose first [j] attempts fail, with
    [j < 3] and a context that is not done meanwhile, and whose next
    attempt is answered with choices: the first choice is returned with a
    nil error after [j + 1] attempts; the earlier errors are dropped. *)
Theorem local_review_recovers (l : LLMClient) (prompt code lang : string)
        (w : World) (j : nat) (c : string) :
  provider l = "lmstudio"%string ->
  (j < 3)%nat ->
  (forall i req, (i < j)%nat ->
                 attempt_text (env_http env (http_attempts w + i) req) = None) ->
  (forall req, attempt_text (env_http env (http_attempts w + j) req) = Some c) ->
  (forall i d, (i < j)%nat -> env_select env (selects w + i) d = TimerFired) ->
  exists w',
    ReviewChunk env l prompt code lang w = (c, None, w')
    /\ http_attempts w' = (http_attempts w + S j)%nat.
Proof.
  intros Hp Hj Hfail Hok Hsel. unfold ReviewChunk. rewrite Hp.
  change (String.eqb "lmstudio" "openai") with false. cbv iota.
  unfold lmstudioChat, retryWithBackoff.
  set (run := retry_loop _ _ _ _ _ _ _).
  assert (Hrun : exists le w' tr',
             run = (None, (c, le, w'), tr')
             /\ http_attempts w' = (http_attempts w + S j)%nat
             /\ selects w' = (selects w + j)%nat).
  { apply lmstudio_loop_recovers; auto;
      change (Z.to_nat 3) with 3%nat; lia. }
  destruct Hrun as (le & w' & tr' & -> & Hh & _). eauto.
Qed.

(** A review on the local server whose first attempt fails and whose
    context is done during the wait that follows returns the error of the
    attempt, not the error of the context: the cancellation is not told
    apart from a backend failure. *)
Theorem local_review_hides_cancellation (l : LLMClient)
        (prompt code lang : string) (w : World) (ce : CtxErr) :
  provider l = "lmstudio"%string ->
  (forall req, attempt_text (env_http env (http_attempts w) req) = None) ->
  env_select env (selects w) second = CtxDone ce ->
  ReviewChunk env l prompt code lang w
  = (EmptyString,
     Some (attempt_error
             (env_http env (http_attempts w)
                       (chat_request l prompt (review_content lang code)))),
     count_select (count_http w)).
Proof.
  intros Hp Hfail Hsel. unfold ReviewChunk. rewrite Hp.
  change (String.eqb "lmstudio" "openai") with false. cbv iota.
  unfold lmstudioChat, retryWithBackoff.
  change (Z.to_nat 3) with 3%nat. cbn [retry_loop].
  rewrite lmstudioAttempt_result, Hfail. cbn zeta.
  unfold lmstudioSelect at 1.
  change (selects (count_http w)) with (selects w). rewrite Hsel.
  reflexivity.
Qed.

End ClientRecovery.

Lemma local_review_recovers_witness :
  exists w',
    Client.ReviewChunk (recovering_env 2) local_client "Review this."
                       "func f() {}" "go" world0
    = ("Looks fine."%string, None, w')
    /\ http_attempts w' = (http_attempts world0 + 3)%nat.
Proof.
  apply (local_review_recovers (recovering_env 2) local_client "Review this."
           "func f() {}" "go" world0 2 "Looks fine.").
  - reflexivity.
  - lia.
  - intros i req Hi. simpl. destruct i as [|[|i]]; [reflexivity|reflexivity|lia].
  - intros req. reflexivity.
  - intros i d _. reflexivity.
Defined.

Lemma local_review_hides_cancellation_witness :
  Client.ReviewChunk canceled_env local_client "Review this." "func f() {}" "go"
                     world0
  = (EmptyString, Some "connection refused"%string,
     count_select (count_http world0)).
Proof.
  apply (local_review_hides_cancellation canceled_env local_client "Review this."
           "func f() {}" "go" world0 Canceled).
  - reflexivity.
  - intros req. reflexivity.
  - reflexivity.
Defined.

(** ** The test artifact manager: names and cleanup *)

Section ArtifactNames.
Import Strings Client Artifacts.
Variable env : Env.


Lemma append_length (a b : string) :
  String.length (append a b) = (String.length a + String.length b)%nat.
Proof. induction a as [|c a IH]; simpl; [reflexivity|]. now rewrite IH. Qed.




Lemma on_disk_remove (name f : string) (w w0 : World) :
  on_disk (set_disk (disk_remove name (disk w)) w0) f
  <-> on_disk w f /\ f <> name.
Proof.
  unfold on_disk, disk_remove. cbn [disk set_disk]. split.
  - intros H. apply in_map_iff in H as ((f' & c) & Hf & Hin). cbn [fst] in Hf.
    subst f'. apply filter_In in Hin as [Hin Hne]. split.
    + apply in_map_iff. now exists (f, c).
    + unfold other_than in Hne. cbn [fst] in Hne.
      now apply negb_true_iff, String.eqb_neq in Hne.
  - intros [H Hne]. apply in_map_iff in H as ((f' & c) & Hf & Hin).
    cbn [fst] in Hf. subst f'. apply in_map_iff. exists (f, c).
    split; [reflexivity|]. apply filter_In. split; [assumption|].
    unfold other_than. cbn [fst]. now apply negb_true_iff, String.eqb_neq.
Qed.

(** When every removal succeeds, cleanup leaves none of the listed files
    on the disk and every other file where it was. *)
Theorem cleanup_removes_the_listed_files (files : list string) (w : World) :
  (forall k f, env_remove env k f = None) ->
  forall f,
    on_disk (CleanupGeneratedTests env files w) f <-> on_disk w f /\ ~ In f files.
Proof.
  intros Hok. revert w. induction files as [|g files IH]; intros w f.
  - simpl. tauto.
  - cbn [CleanupGeneratedTests]. rewrite Hok, IH, on_disk_remove.
    unfold on_disk. cbn [disk count_remove In]. intuition congruence.
Qed.

(** Cleanup is best effort: it tries to remove every listed file, whether
    or not an earlier removal failed, writes nothing, and a file is on
    the disk afterwards only if it was before. *)
Theorem cleanup_tries_every_file (files : list string) (w : World) :
  remove_calls (CleanupGeneratedTests env files w)
  = (remove_calls w + List.length files)%nat
  /\ write_calls (CleanupGeneratedTests env files w) = write_calls w
  /\ terminal (CleanupGeneratedTests env files w) = terminal w
  /\ forall f, on_disk (CleanupGeneratedTests env files w) f -> on_disk w f.
Proof.
  revert w. induction files as [|g files IH]; intros w.
  - simpl. repeat split; auto.
  - cbn [CleanupGeneratedTests List.length].
    destruct (env_remove env (remove_calls w) g).
    + destruct (IH (count_remove w)) as (Hr & Hw & Ht & Hd).
      rewrite Hr, Hw, Ht. cbn [remove_calls write_calls terminal count_remove].
      repeat split; try lia. intros f Hf. apply Hd in Hf. exact Hf.
    + destruct (IH (set_disk (disk_remove g (disk (count_remove w)))
                             (count_remove w))) as (Hr & Hw & Ht & Hd).
      rewrite Hr, Hw, Ht.
      cbn [remove_calls write_calls terminal count_remove set_disk].
      repeat split; try lia. intros f Hf. apply Hd in Hf.
      apply on_disk_remove in Hf. apply Hf.
Qed.

End ArtifactNames.


Lemma cleanup_removes_the_listed_files_witness :
  on_disk (Artifacts.CleanupGeneratedTests silent_env
             ["out/a_test.go"; "out/b_test.go"]%string three_files)
          "out/a_test.go"
  <-> on_disk three_files "out/a_test.go"
      /\ ~ In "out/a_test.go"%string ["out/a_test.go"; "out/b_test.go"]%string.
Proof.
  apply (cleanup_removes_the_listed_files silent_env
           ["out/a_test.go"; "out/b_test.go"]%string three_files).
  intros k f. reflexivity.
Defined.

(** ** The test artifact manager: what is extracted and written *)

Section BlockFacts.
Import Strings Client Artifacts.

Lemma substring_prefix (b c : string) :
  substring 0 (String.length b) (append b c) = b.
Proof. induction b as [|x b IH]; simpl; [now destruct c|]. now rewrite IH. Qed.

Lemma substring_middle (a b c : string) :
  substring (String.length a) (String.length b) (append a (append b c)) = b.
Proof. induction a as [|x a IH]; simpl; [apply substring_prefix|exact IH]. Qed.

Lemma from_append (a b : string) : from (append a b) (slen a) = b.
Proof.
  unfold from, slen. rewrite Nat2Z.id, append_length.
  replace (String.length a + String.length b - String.length a)%nat
    with (String.length b) by lia.
  rewrite <- (append_nil_r b) at 2. rewrite substring_middle. reflexivity.
Qed.

Lemma between_append (a b c : string) :
  between (append a (append b c)) (slen a) (slen a + slen b) = b.
Proof.
  unfold between, slen. rewrite Nat2Z.id.
  replace (Z.to_nat (Z.of_nat (String.length a) + Z.of_nat (String.length b)
                     - Z.of_nat (String.length a)))
    with (String.length b) by lia.
  apply substring_middle.
Qed.

Lemma prefix_fence_backtick (c : ascii) (s : string) :
  prefix fence (String c s) = true -> c = "`"%char.
Proof.
  intros H. apply prefix_correct in H. simpl in H.
  destruct s as [|d s]; [discriminate|]. now inversion H.
Qed.

(** [Index] passes over a text without backquotes and finds the fence
    behind it. *)
Lemma Index_skip (pre rest : string) :
  no_backtick pre = true ->
  Index (append pre (append fence rest)) fence = slen pre.
Proof.
  unfold slen. induction pre as [|c pre IH]; intros Hn.
  - cbn [append String.length]. unfold fence at 1. cbn [append Index].
    replace (prefix fence (String "`" (String "`" (String "`" rest)))) with true;
      [reflexivity|].
    symmetry. apply prefix_correct. now destruct rest.
  - cbn [no_backtick] in Hn. apply andb_true_iff in Hn as [Hc Hn].
    apply negb_true_iff in Hc. apply Ascii.eqb_neq in Hc.
    cbn [append Index String.length].
    destruct (prefix fence (String c (append pre (append fence rest)))) eqn:Ep.
    + apply prefix_fence_backtick in Ep. contradiction.
    + rewrite (IH Hn).
      destruct (Z.ltb_spec (Z.of_nat (String.length pre)) 0); lia.
Qed.

Section Step.
Variable env : Env.

(** One iteration of the loop of [ParseAndWriteTests] on a text whose
    rest holds a fenced block: the block is everything between the
    fences. *)
Lemma parse_loop_step (fuel : nat) (head pre body post lang dir : string)
      (chunkIdx blockNum : Z) (files : list string) (w : World) :
  no_backtick pre = true ->
  no_backtick body = true ->
  parse_loop env (S fuel) (append head (around_block pre body post)) lang dir
             chunkIdx (slen head) blockNum files w
  = match artifact_name env lang dir chunkIdx blockNum w with
    | None => Returns (files, Some (not_supported lang), w)
    | Some (filename, w1) =>
        match env_write env (write_calls w1) filename body with
        | Some err => Returns (files, Some err, count_write w1)
        | None =>
            parse_loop env fuel (append head (around_block pre body post))
                       lang dir chunkIdx
                       (slen (append head
                                (append pre (append fence (append body fence)))))
                       (blockNum + 1) (files ++ [filename])
                       (set_disk (disk_write filename body (disk (count_write w1)))
                                 (count_write w1))
        end
    end.
Proof.
  intros Hpre Hbody. cbn [parse_loop]. unfold around_block.
  rewrite from_append, Index_skip by assumption.
  assert (Hp : 0 <= slen pre) by (unfold slen; lia).
  assert (Hb : 0 <= slen body) by (unfold slen; lia).
  destruct (Z.eqb_spec (slen pre) (-1)); [lia|].
  assert (Hcs : slen pre + slen head + 3
                = slen (append head (append pre fence))).
  { unfold slen. rewrite !append_length. simpl String.length. lia. }
  rewrite Hcs.
  replace (append head (append pre (append fence (append body (append fence post)))))
    with (append (append head (append pre fence)) (append body (append fence post)))
    by (now rewrite !append_assoc).
  rewrite from_append, Index_skip by assumption.
  destruct (Z.eqb_spec (slen body) (-1)); [lia|].
  rewrite (Z.add_comm (slen body)), between_append.
  destruct (artifact_name env lang dir chunkIdx blockNum w) as [[name w1]|];
    [|reflexivity].
  destruct (env_write env (write_calls w1) name body); [reflexivity|].
  f_equal. unfold slen. rewrite !append_length. simpl String.length. lia.
Qed.

(** The file written for a fenced block holds everything between the
    two fences, the line with the language tag included: for a model
    output of text, a fenced block and text without a further fence, one
    file is written and it holds the block unchanged. *)
Theorem fenced_block_is_written_whole (pre body post lang dir : string)
        (chunkIdx : Z) (w : World) :
  supported lang = true ->
  no_backtick pre = true ->
  no_backtick body = true ->
  Index post fence = -1 ->
  (forall name, env_write env (write_calls w) name body = None) ->
  exists name w',
    ParseAndWriteTests env (around_block pre body post) lang dir chunkIdx w
    = Returns ([name], None, w')
    /\ In (name, body) (disk w')
    /\ write_calls w' = S (write_calls w).
Proof.
  intros Hlang Hpre Hbody Hpost Hwrite. unfold ParseAndWriteTests.
  pose proof (parse_loop_step (String.length (around_block pre body post))
                EmptyString pre body post lang dir chunkIdx 0 [] w Hpre Hbody)
    as Hstep.
  cbn [append] in Hstep. change (slen EmptyString) with 0 in Hstep.
  rewrite Hstep. clear Hstep.
  destruct (artifact_name_supported env lang dir chunkIdx 0 w Hlang) as (name & ->).
  change (write_calls (count_clock w)) with (write_calls w). rewrite Hwrite.
  assert (Hlen : exists n, String.length (around_block pre body post) = S n).
  { unfold around_block. rewrite !append_length. simpl String.length.
    exists (String.length pre + (2 + (String.length body
                                      + (3 + String.length post))))%nat. lia. }
  destruct Hlen as (n & ->). cbn [parse_loop].
  replace (around_block pre body post)
    with (append (append pre (append fence (append body fence))) post)
    by (unfold around_block; now rewrite !append_assoc).
  rewrite from_append, Hpost. cbn [Z.eqb]. unfold parse_end.
  cbn [app len List.length Z.of_nat Z.eqb Pos.of_succ_nat].
  exists name. eexists. split; [reflexivity|]. split.
  - cbn [disk set_disk]. unfold disk_write. apply in_or_app. right. now left.
  - reflexivity.
Qed.

End Step.
End BlockFacts.

Lemma fenced_block_is_written_whole_witness :
  exists name w',
    Artifacts.ParseAndWriteTests silent_env
      (around_block EmptyString go_test_body EmptyString) "go" "out" 7 world0
    = Returns ([name], None, w')
    /\ In (name, go_test_body) (disk w')
    /\ write_calls w' = S (write_calls world0).
Proof.
  apply (fenced_block_is_written_whole silent_env EmptyString go_test_body
           EmptyString "go" "out" 7 world0);
    [reflexivity|reflexivity|reflexivity|reflexivity|intros name; reflexivity].
Defined.

(** ** The test artifact manager: which files a run leaves *)

Section ArtifactTrace.
Import Strings Client Artifacts.
Variable env : Env.

(** Writing a file leaves the files of other names as they were. *)
Lemma disk_write_other (n c f c' : string) (d : list (string * string)) :
  f <> n -> In (f, c') (disk_write n c d) <-> In (f, c') d.
Proof.
  intros Hne. unfold disk_write. rewrite in_app_iff, filter_In.
  unfold other_than. cbn [fst In].
  destruct (String.eqb_spec f n) as [->|_]; [contradiction|].
  cbn [negb]. split.
  - intros [[H _]|[H|[]]]; [exact H|]. inversion H. congruence.
  - intros H. left. split; [exact H|reflexivity].
Qed.

Lemma disk_write_in (n c : string) (d : list (string * string)) :
  In (n, c) (disk_write n c d).
Proof. unfold disk_write. rewrite in_app_iff. right. left. reflexivity. Qed.

(** A written file has one content. *)
Lemma disk_write_one (n c c' : string) (d : list (string * string)) :
  In (n, c') (disk_write n c d) -> c' = c.
Proof.
  unfold disk_write. rewrite in_app_iff, filter_In. unfold other_than.
  cbn [fst In]. rewrite String.eqb_refl. cbn [negb].
  intros [[_ H]|[H|[]]]; [discriminate|congruence].
Qed.












End ArtifactTrace.


Section AllBlocks.
Import Strings Client Artifacts.
Variable env : Env.




End AllBlocks.


(** The text of [three_segments] is [three_blocks], and its three files
    spelled out. *)
Example three_blocks_three_files :
  fenced_text three_segments EmptyString = three_blocks
  /\ exists w',
       Artifacts.ParseAndWriteTests silent_env three_blocks "go" "out" 7 world0
       = Returns (["out/llm_generated_test_7_0_0.go";
                   "out/llm_generated_test_7_1_1.go";
                   "out/llm_generated_test_7_2_2.go"]%string, None, w')
       /\ disk w' = [("out/llm_generated_test_7_0_0.go", "go A");
                     ("out/llm_generated_test_7_1_1.go", "go B");
                     ("out/llm_generated_test_7_2_2.go", "go C")]%string.
Proof. split; [reflexivity|]. eexists. split; vm_compute; reflexivity. Qed.

(** ** The review orchestrator: what a run keeps and leaves *)

Section LoopFacts.
Import Client Artifacts Orchestrator.
Variable env : Env.
Variable l : LLMClient.
Variables (lang dir : string) (writeTests : bool) (maxRetries : Z).
Variables (reviewPrompt testPrompt : string).

Lemma no_disk_effect_refl (w : World) : no_disk_effect w w.
Proof. unfold no_disk_effect. repeat split. Qed.

Lemma no_disk_effect_trans (w1 w2 w3 : World) :
  no_disk_effect w1 w2 -> no_disk_effect w2 w3 -> no_disk_effect w1 w3.
Proof. unfold no_disk_effect. intuition congruence. Qed.

Lemma backend_only_no_disk (w w' : World) :
  backend_only w w' -> no_disk_effect w w'.
Proof. unfold backend_only, no_disk_effect. intuition. Qed.

(** The attempts at a review: at most one call of [ReviewChunk] per
    attempt, a sleep after every failed one, no effect on files. *)
Lemma review_attempts_frame :
  forall n retries i chunk review err w r e w',
    review_attempts env l lang maxRetries reviewPrompt n retries i chunk review err w
    = (r, e, w') ->
    no_disk_effect w w'
    /\ (chat_calls w <= chat_calls w')%nat
    /\ (http_attempts w <= http_attempts w')%nat
    /\ (chat_calls w' + http_attempts w'
        <= chat_calls w + http_attempts w + 3 * n)%nat
    /\ (selects w' <= selects w + 3 * n)%nat
    /\ (sleeps w <= sleeps w' <= sleeps w + n)%nat
    /\ (n <> 0%nat -> e <> None -> sleeps w' = (sleeps w + n)%nat)
    /\ (n = 0%nat -> w' = w /\ e = err /\ r = review).
Proof.
  induction n as [|n IH]; intros retries i chunk review err w r e w' Hrun.
  - cbn [review_attempts] in Hrun. inversion Hrun; subst.
    split; [apply no_disk_effect_refl|]. repeat split; try lia; congruence.
  - cbn [review_attempts] in Hrun.
    destruct (ReviewChunk env l reviewPrompt chunk lang w) as [[r1 [e1|]] w1] eqn:Hc;
      apply ReviewChunk_frame in Hc; destruct Hc as (Hb & Hcc & Hh & Hsum & Hs).
    + apply IH in Hrun.
      destruct Hrun as (Hd & Hcc' & Hh' & Hsum' & Hs' & Hsl & Hall & Hzero).
      cbn [chat_calls http_attempts selects sleeps count_sleep say] in *.
      split.
      * eapply no_disk_effect_trans; [apply backend_only_no_disk, Hb|].
        eapply no_disk_effect_trans; [|exact Hd].
        unfold no_disk_effect. repeat split.
      * assert (Hsl0 : sleeps w1 = sleeps w) by apply Hb.
        repeat split; try lia.
        -- intros _ He. destruct n as [|n].
           ++ destruct (Hzero eq_refl) as (-> & _ & _).
              cbn [sleeps count_sleep say]. lia.
           ++ rewrite Hall by (congruence || discriminate). lia.
    + inversion Hrun; subst. assert (Hsl0 : sleeps w' = sleeps w) by apply Hb.
      split; [apply backend_only_no_disk, Hb|].
      repeat split; try lia; try congruence.
Qed.

Lemma testgen_attempts_frame :
  forall n retries i chunk testGen err w r e w',
    testgen_attempts env l lang maxRetries testPrompt n retries i chunk testGen err w
    = (r, e, w') ->
    no_disk_effect w w'
    /\ (chat_calls w <= chat_calls w')%nat
    /\ (http_attempts w <= http_attempts w')%nat
    /\ (chat_calls w' + http_attempts w' <= chat_calls w + http_attempts w + n)%nat
    /\ selects w' = selects w
    /\ (sleeps w <= sleeps w' <= sleeps w + n)%nat
    /\ (n = 0%nat -> w' = w /\ e = err /\ r = testGen).
Proof.
  induction n as [|n IH]; intros retries i chunk testGen err w r e w' Hrun.
  - cbn [testgen_attempts] in Hrun. inversion Hrun; subst.
    split; [apply no_disk_effect_refl|]. repeat split; try lia; congruence.
  - cbn [testgen_attempts] in Hrun.
    destruct (GenerateUnitTests env l testPrompt chunk lang w)
      as [[r1 [e1|]] w1] eqn:Hc;
      apply GenerateUnitTests_frame in Hc;
      destruct Hc as (Hb & Hsum & Hs & Hmc & Hmh);
      assert (Hsl0 : sleeps w1 = sleeps w) by apply Hb.
    + apply IH in Hrun.
      destruct Hrun as (Hd & Hcc' & Hh' & Hsum' & Hs' & Hsl & _).
      cbn [chat_calls http_attempts selects sleeps count_sleep say] in *.
      split.
      * eapply no_disk_effect_trans; [apply backend_only_no_disk, Hb|].
        eapply no_disk_effect_trans; [|exact Hd].
        unfold no_disk_effect. repeat split.
      * repeat split; lia.
    + inversion Hrun; subst.
      split; [apply backend_only_no_disk, Hb|].
      repeat split; try lia; try congruence.
Qed.

(** The loop of [ParseAndWriteTests] touches the disk and the clock
    only. *)
Lemma parse_loop_frame (testGen : string) (chunkIdx : Z) :
  forall fuel start blockNum files w f e w',
    parse_loop env fuel testGen lang dir chunkIdx start blockNum files w
    = Returns (f, e, w') ->
    ledgers w' = ledgers w
    /\ flag_reads w' = flag_reads w
    /\ remove_calls w' = remove_calls w
    /\ run_calls w' = run_calls w
    /\ terminal w' = terminal w
    /\ no_backend_effect w w'.
Proof.
  assert (Hend : forall files w f e w',
             parse_end files w = Returns (f, e, w') -> w' = w).
  { intros files w f e w'. unfold parse_end.
    destruct (len files =? 0); intros H; now inversion H. }
  induction fuel as [|fuel IH]; intros start blockNum files w f e w' Hrun;
    [discriminate|].
  cbn [parse_loop] in Hrun.
  destruct (_ =? -1) in Hrun.
  { apply Hend in Hrun. subst. unfold no_backend_effect. repeat split. }
  destruct (_ =? -1) in Hrun.
  { apply Hend in Hrun. subst. unfold no_backend_effect. repeat split. }
  unfold artifact_name in Hrun.
  destruct (String.eqb lang "go");
    [|destruct (String.eqb lang "php");
      [|inversion Hrun; subst; unfold no_backend_effect; now repeat split]];
    (destruct (env_write env _ _ _);
     [inversion Hrun; subst; unfold no_backend_effect; now repeat split|];
     apply IH in Hrun; unfold no_backend_effect in *;
     cbn [ledgers flag_reads remove_calls run_calls terminal chat_calls
          http_attempts selects sleeps set_disk count_write count_clock] in Hrun;
     exact Hrun).
Qed.

Lemma write_and_run_facts (i : Z) (testGen : string) (st : Locals) (w : World)
      (st' : Locals) (w' : World) :
  write_and_run env lang dir i testGen st w = Returns (st', w') ->
  (balanced st -> balanced st')
  /\ ledgers w' = ledgers w
  /\ flag_reads w' = flag_reads w
  /\ remove_calls w' = remove_calls w
  /\ no_backend_effect w w'.
Proof.
  unfold write_and_run, ParseAndWriteTests.
  destruct (parse_loop env _ testGen lang dir i 0 0 [] w)
    as [[[files [e|]] w1]| |] eqn:Hp; try discriminate.
  - apply parse_loop_frame in Hp. intros H. inversion H; subst.
    unfold no_backend_effect in *.
    cbn [ledgers flag_reads remove_calls chat_calls http_attempts selects sleeps say].
    split; [|tauto]. unfold balanced.
    cbn [totalTests testsPassed testsFailed writtenFiles set_timeoutCount]. tauto.
  - apply parse_loop_frame in Hp. unfold RunTests.
    assert (Hbal : forall n, balanced st ->
              n = len files ->
              balanced (add_failed n (add_written files (set_timeoutCount 0 st)))
              /\ balanced (add_passed n (add_written files (set_timeoutCount 0 st)))).
    { intros n [H1 H2] ->. unfold balanced in *.
      cbn [totalTests testsPassed testsFailed writtenFiles set_timeoutCount
           add_written add_failed add_passed].
      unfold len in *. rewrite length_app. lia. }
    destruct (String.eqb lang "go" || String.eqb lang "php");
      [destruct (env_run env _ lang dir)|];
      intros H; inversion H; subst; unfold no_backend_effect in *;
      cbn [ledgers flag_reads remove_calls chat_calls http_attempts selects sleeps
           say count_run];
      (split; [intros Hb; now apply Hbal|tauto]).
Qed.

Lemma generate_tests_facts (i : Z) (chunk : string) (err : error) (st : Locals)
      (w : World) (st' : Locals) (w' : World) :
  generate_tests env l lang dir writeTests maxRetries testPrompt i chunk err st w
  = Returns (st', w') ->
  (balanced st -> balanced st')
  /\ ledgers w' = ledgers w
  /\ flag_reads w' = flag_reads w
  /\ remove_calls w' = remove_calls w
  /\ (writeTests = false ->
      no_disk_effect w w' /\ writtenFiles st' = writtenFiles st
      /\ totalTests st' = totalTests st)
  /\ (maxRetries <= 0 -> no_backend_effect w w').
Proof.
  unfold generate_tests.
  destruct (testgen_attempts env l lang maxRetries testPrompt (Z.to_nat maxRetries)
              0 i chunk EmptyString err w) as [[testGen e1] w1] eqn:Ht.
  apply testgen_attempts_frame in Ht.
  destruct Ht as (Hd & _ & _ & _ & _ & _ & Hzero).
  assert (Hoff : maxRetries <= 0 -> w1 = w).
  { intros Hm. apply Hzero. lia. }
  destruct e1 as [e|].
  - assert (Hst : forall st1 w2,
               (if is_timeout e then count_timeout st w1
                else (set_timeoutCount 0 st, w1)) = (st1, w2) ->
               (balanced st -> balanced st1)
               /\ writtenFiles st1 = writtenFiles st
               /\ totalTests st1 = totalTests st
               /\ no_disk_effect w1 w2 /\ no_backend_effect w1 w2).
    { intros st1 w2. unfold count_timeout.
      destruct (is_timeout e); [destruct (timeoutCount st + 1 >=? 3)|];
        intros H; inversion H; subst;
        unfold balanced, no_disk_effect, no_backend_effect;
        cbn [totalTests testsPassed testsFailed writtenFiles set_timeoutCount];
        now repeat split. }
    destruct (if is_timeout e then count_timeout st w1
              else (set_timeoutCount 0 st, w1)) as [st1 w2].
    destruct (Hst st1 w2 eq_refl) as (Hb & Hw & Ht & Hd2 & Hn2).
    intros H. inversion H; subst.
    unfold no_disk_effect, no_backend_effect in *.
    cbn [ledgers flag_reads remove_calls clock_reads write_calls run_calls disk
         chat_calls http_attempts selects sleeps say].
    split; [exact Hb|].
    repeat split; try tauto; try (intuition congruence);
      intros Hm; rewrite (Hoff Hm) in *; intuition congruence.
  - destruct writeTests.
    + destruct (write_and_run env lang dir i testGen st
                  (say (LogSuggestions testGen) w1)) as [[st1 w2]| |] eqn:Hw;
        try discriminate.
      apply write_and_run_facts in Hw. destruct Hw as (Hb & Hl & Hf & Hr & Hn).
      intros H. inversion H; subst.
      unfold no_disk_effect, no_backend_effect in *.
      cbn [ledgers flag_reads remove_calls clock_reads write_calls run_calls disk
           chat_calls http_attempts selects sleeps say] in *.
      split; [exact Hb|].
      repeat split; try tauto; try (intuition congruence); try discriminate;
        intros Hm; rewrite (Hoff Hm) in *; intuition congruence.
    + intros H. inversion H; subst.
      unfold no_disk_effect, no_backend_effect in *.
      cbn [ledgers flag_reads remove_calls clock_reads write_calls run_calls disk
           chat_calls http_attempts selects sleeps say].
      split; [tauto|].
      repeat split; try tauto; try (intuition congruence);
        intros Hm; rewrite (Hoff Hm) in *; intuition congruence.
Qed.

Lemma process_chunk_facts (i total : Z) (chunk : string) (st : Locals) (w : World) :
  exists st' w',
    process_chunk env l lang dir writeTests maxRetries reviewPrompt testPrompt
                  i total chunk st w
    = Returns (st', w')
    /\ (failedChunks st' = failedChunks st
        \/ exists e, is_timeout e = true
                     /\ failedChunks st'
                        = failedChunks st ++ [{| Index := i; Error := e |}])
    /\ (balanced st -> balanced st')
    /\ ledgers w' = ledgers w
    /\ flag_reads w' = flag_reads w
    /\ remove_calls w' = remove_calls w
    /\ (writeTests = false ->
        no_disk_effect w w' /\ writtenFiles st' = writtenFiles st
        /\ totalTests st' = totalTests st)
    /\ (maxRetries <= 0 ->
        no_backend_effect w w' /\ failedChunks st' = failedChunks st).
Proof.
  unfold process_chunk.
  destruct (review_attempts env l lang maxRetries reviewPrompt (Z.to_nat maxRetries)
              0 i chunk EmptyString None (say (LogReviewing (i + 1) total) w))
    as [[review err] w1] eqn:Hr.
  apply review_attempts_frame in Hr.
  destruct Hr as (Hd & _ & _ & _ & _ & _ & _ & Hzero).
  assert (Hoff : maxRetries <= 0 ->
                 w1 = say (LogReviewing (i + 1) total) w /\ err = None).
  { intros Hm. destruct Hzero as (H1 & H2 & _); [lia|]. auto. }
  assert (Hgen : forall st0,
             (balanced st -> balanced st0) ->
             failedChunks st0 = failedChunks st ->
             writtenFiles st0 = writtenFiles st ->
             totalTests st0 = totalTests st ->
             exists st' w',
               generate_tests env l lang dir writeTests maxRetries testPrompt i
                 chunk err st0
                 (if String.eqb review EmptyString
                  then say (LogEmptyReview (i + 1)) w1 else w1)
               = Returns (st', w')
               /\ (failedChunks st' = failedChunks st
                   \/ exists e, is_timeout e = true
                                /\ failedChunks st'
                                   = failedChunks st ++ [{| Index := i; Error := e |}])
               /\ (balanced st -> balanced st')
               /\ ledgers w' = ledgers w
               /\ flag_reads w' = flag_reads w
               /\ remove_calls w' = remove_calls w
               /\ (writeTests = false ->
                   no_disk_effect w w' /\ writtenFiles st' = writtenFiles st
                   /\ totalTests st' = totalTests st)
               /\ (maxRetries <= 0 ->
                   no_backend_effect w w' /\ failedChunks st' = failedChunks st)).
  { intros st0 Hb0 Hf0 Hw0 Ht0.
    set (w2 := if String.eqb review EmptyString
               then say (LogEmptyReview (i + 1)) w1 else w1).
    assert (Hw2 : no_disk_effect w w2 /\ no_backend_effect w1 w2).
    { subst w2. unfold no_disk_effect, no_backend_effect in *.
      destruct (String.eqb review EmptyString);
        cbn [ledgers flag_reads remove_calls clock_reads write_calls run_calls
             disk chat_calls http_attempts selects sleeps say] in *; tauto. }
    destruct Hw2 as [Hd2 Hn2].
    destruct (generate_tests_ledger env l lang dir writeTests maxRetries testPrompt
                i chunk err st0 w2) as (st' & w' & Hrun & Hl).
    exists st', w'. split; [exact Hrun|].
    apply generate_tests_facts in Hrun.
    destruct Hrun as (Hb & Hle & Hfl & Hrm & Hwt & Hmr).
    unfold no_disk_effect, no_backend_effect in *.
    split; [left; congruence|]. split; [tauto|].
    repeat split; try (intuition congruence).
    all: match goal with
         | Hm : maxRetries <= 0 |- _ => destruct (Hoff Hm) as [Hw1 _]
         end;
      rewrite Hw1 in Hn2;
      cbn [chat_calls http_attempts selects sleeps say] in Hn2;
      intuition congruence. }
  destruct err as [e|].
  - destruct (is_timeout e) eqn:Et.
    + unfold count_timeout.
      assert (Hsay : forall n, no_disk_effect w
                 (if n >=? 3 then say (LogTimeoutWarning n) w1 else w1)).
      { intros n. unfold no_disk_effect in *.
        destruct (n >=? 3);
          cbn [ledgers flag_reads remove_calls clock_reads write_calls run_calls
               disk say] in *; tauto. }
      specialize (Hsay (timeoutCount st + 1)).
      do 2 eexists. split; [reflexivity|].
      cbn [failedChunks add_failedChunk set_timeoutCount].
      split; [right; eauto|].
      split; [unfold balanced; cbn [totalTests testsPassed testsFailed writtenFiles
                                    add_failedChunk set_timeoutCount]; tauto|].
      unfold no_disk_effect in Hsay.
      repeat split; try (intuition congruence).
      all: match goal with
           | Hm : maxRetries <= 0 |- _ =>
               destruct (Hoff Hm) as [_ Hn]; discriminate Hn
           end.
    + apply Hgen; auto.
  - apply Hgen; auto.
Qed.

(** The loop over the chunks from index [i] on. *)
Lemma chunks_loop_facts :
  forall chunks i total st w,
  exists st' w',
    chunks_loop env l lang dir writeTests maxRetries reviewPrompt testPrompt
                chunks i total st w
    = Returns (st', w')
    /\ (exists new,
           failedChunks st' = failedChunks st ++ new
           /\ Forall (timeout_record i (len chunks)) new
           /\ StronglySorted index_lt new)
    /\ (balanced st -> balanced st')
    /\ ledgers w' = ledgers w
    /\ remove_calls w' = remove_calls w
    /\ (writeTests = false ->
        clock_reads w' = clock_reads w /\ write_calls w' = write_calls w
        /\ run_calls w' = run_calls w /\ disk w' = disk w
        /\ writtenFiles st' = writtenFiles st /\ totalTests st' = totalTests st)
    /\ (maxRetries <= 0 ->
        no_backend_effect w w' /\ failedChunks st' = failedChunks st).
Proof.
  induction chunks as [|chunk rest IH]; intros i total st w.
  - exists st, w. split; [reflexivity|]. split.
    + exists []. rewrite app_nil_r. repeat split; constructor.
    + split; [tauto|]. unfold no_backend_effect. repeat split; auto.
  - cbn [chunks_loop]. destruct (env_interrupted env (flag_reads w)).
    + exists st, (count_flag w). split; [reflexivity|]. split.
      * exists []. rewrite app_nil_r. repeat split; constructor.
      * split; [tauto|]. unfold no_backend_effect. repeat split; auto.
    + destruct (process_chunk_facts i total chunk st (count_flag w))
        as (st1 & w1 & -> & Hl1 & Hb1 & Hle1 & _ & Hr1 & Hw1 & Hm1).
      destruct (IH (i + 1) total st1 w1)
        as (st2 & w2 & -> & (new & Hl2 & Hrec & Hsort) & Hb2 & Hle2 & Hr2 & Hw2 & Hm2).
      exists st2, w2. split; [reflexivity|].
      assert (Hlen : len (chunk :: rest) = len rest + 1).
      { unfold len. cbn [List.length]. lia. }
      assert (Hlift : Forall (timeout_record i (len (chunk :: rest))) new
                      /\ Forall (fun fc => i < Index fc) new).
      { rewrite Hlen. clear - Hrec. induction Hrec as [|fc new' Hfc _ IH'].
        - split; constructor.
        - destruct IH' as [IH1 IH2]. destruct Hfc as [Hi Ht].
          split; constructor; auto; [split; [lia|exact Ht]|lia]. }
      destruct Hlift as [Hlift Hgt].
      split.
      * destruct Hl1 as [Hl1|(e & He & Hl1)].
        -- exists new. rewrite Hl2, Hl1. repeat split; assumption.
        -- exists ({| Index := i; Error := e |} :: new).
           rewrite Hl2, Hl1, <- app_assoc. repeat split.
           ++ constructor; [|assumption]. unfold timeout_record. cbn [Index Error].
              split; [|assumption]. rewrite Hlen. unfold len. lia.
           ++ constructor; [assumption|]. unfold index_lt. cbn [Index].
              exact Hgt.
      * split; [tauto|].
        unfold no_disk_effect, no_backend_effect in *.
        cbn [ledgers remove_calls clock_reads write_calls run_calls disk
             chat_calls http_attempts selects sleeps count_flag] in *.
        repeat split; try (intuition congruence).
Qed.

Lemma cleanup_frame (files : list string) (w : World) :
  ledgers (CleanupGeneratedTests env files w) = ledgers w
  /\ no_backend_effect w (CleanupGeneratedTests env files w).
Proof.
  revert w. induction files as [|f files IH]; intros w.
  - unfold no_backend_effect. repeat split.
  - cbn [CleanupGeneratedTests]. unfold no_backend_effect in *.
    destruct (env_remove env (remove_calls w) f);
      [destruct (IH (count_remove w)) as (H1 & H2)
      |destruct (IH (set_disk (disk_remove f (disk (count_remove w)))
                              (count_remove w))) as (H1 & H2)];
      cbn [ledgers chat_calls http_attempts selects sleeps count_remove set_disk]
        in *; tauto.
Qed.

(** The statements after the loop: one ledger file at most, no call of
    the backend; the ledger file is the one file they write. *)
Lemma finish_facts (keepTests : bool) (path : string) (st : Locals) (w : World) :
  ledgers (finish env lang writeTests keepTests path st w)
  = ledgers w ++ ledger_written env path (failedChunks st)
  /\ no_backend_effect w (finish env lang writeTests keepTests path st w)
  /\ (writeTests = false ->
      remove_calls (finish env lang writeTests keepTests path st w)
      = remove_calls w
      /\ write_calls (finish env lang writeTests keepTests path st w)
         = write_calls w
      /\ run_calls (finish env lang writeTests keepTests path st w) = run_calls w
      /\ clock_reads (finish env lang writeTests keepTests path st w)
         = clock_reads w
      /\ (forall f c, f <> path ->
            In (f, c) (disk (finish env lang writeTests keepTests path st w))
            <-> In (f, c) (disk w))
      /\ (ledger_due path (failedChunks st) = false \/ env_create env path <> None ->
          disk (finish env lang writeTests keepTests path st w) = disk w))
  /\ (ledger_due path (failedChunks st) = true ->
      env_create env path = None ->
      (forall c, In (path, c) (disk (finish env lang writeTests keepTests path st w))
                 <-> c = fst (env_encode env path (failedChunks st)))
      /\ last (terminal (finish env lang writeTests keepTests path st w)) LogPanic
         = LogLedgerWritten path)
  /\ (ledger_due path (failedChunks st) = true ->
      forall e, env_create env path = Some e ->
      last (terminal (finish env lang writeTests keepTests path st w)) LogPanic
      = LogLedgerNotWritten path e).
Proof.
  unfold finish, ledger_written, ledger_due.
  set (w2 := if writeTests && negb keepTests then _ else _).
  assert (H2 : ledgers w2 = ledgers w /\ no_backend_effect w w2
               /\ (writeTests = false -> w2 = say (LogSummary lang) w)).
  { subst w2. destruct (writeTests && negb keepTests) eqn:E.
    - destruct (cleanup_frame (writtenFiles st) (say (LogSummary lang) w))
        as (H1 & H2).
      unfold no_backend_effect in *.
      cbn [ledgers chat_calls http_attempts selects sleeps say] in *.
      repeat split; try tauto.
      intros ->. discriminate E.
    - unfold no_backend_effect. repeat split. }
  destruct H2 as (Hl & Hn & Hoff). unfold no_backend_effect in *.
  destruct ((0 <? len (failedChunks st)) && negb (String.eqb path EmptyString)).
  - destruct (env_create env path) as [e|].
    + cbn [ledgers chat_calls http_attempts selects sleeps disk remove_calls
           write_calls run_calls clock_reads say terminal].
      rewrite app_nil_r.
      split; [congruence|]. split; [tauto|]. split.
      * intros Hw. rewrite (Hoff Hw). repeat split; auto.
      * split; [discriminate|]. intros _ e' He. inversion He. subst e'.
        apply last_last.
    + destruct (env_encode env path (failedChunks st)) as [bytes [e|]];
        destruct (env_close env path);
        cbn [ledgers chat_calls http_attempts selects sleeps disk remove_calls
             write_calls run_calls clock_reads say add_ledger set_disk terminal
             fst snd];
        rewrite ?app_nil_r;
        (split; [congruence|]); (split; [tauto|]);
        (split;
         [intros Hw; rewrite (Hoff Hw);
          cbn [disk remove_calls write_calls run_calls clock_reads say];
          repeat split; auto;
          try (intros [H|H]; [discriminate H|now elim H]);
          try (rewrite !disk_write_other by assumption; tauto)
         |split; [|discriminate]]);
        intros _ _; (split; [|apply last_last]);
        intros c; (split; [apply disk_write_one|intros ->; apply disk_write_in]).
  - rewrite app_nil_r.
    split; [congruence|]. split; [tauto|]. split.
    + intros Hw. rewrite (Hoff Hw). repeat split; auto.
    + split; discriminate.
Qed.

End LoopFacts.

Section RunFacts.
Import Client Artifacts Orchestrator.
Variable env : Env.
Variable l : LLMClient.
Variable cfg : Config.
Variables (lang dir path : string) (chunks : list string).
Variables (writeTests keepTests : bool) (maxRetries : Z).

(** A whole run, put together from the loop and the statements after
    it. *)
Lemma run_facts (w : World) :
  exists st w',
    ReviewAndFixLoop env l cfg lang chunks writeTests dir keepTests maxRetries
                     path w
    = Returns (if supported lang then None
               else Some (append "unsupported language: " lang), st, w')
    /\ (supported lang = false -> w' = w)
    /\ Forall (timeout_record 0 (len chunks)) (failedChunks st)
    /\ StronglySorted index_lt (failedChunks st)
    /\ balanced st
    /\ ledgers w' = ledgers w ++ ledger_written env path (failedChunks st)
    /\ (writeTests = false ->
        write_calls w' = write_calls w
        /\ run_calls w' = run_calls w /\ remove_calls w' = remove_calls w
        /\ clock_reads w' = clock_reads w
        /\ writtenFiles st = [] /\ totalTests st = 0
        /\ (forall f c, f <> path -> In (f, c) (disk w') <-> In (f, c) (disk w))
        /\ (ledger_due path (failedChunks st) = false
            \/ env_create env path <> None -> disk w' = disk w))
    /\ (maxRetries <= 0 -> no_backend_effect w w' /\ failedChunks st = [])
    /\ (ledger_due path (failedChunks st) = true ->
        env_create env path = None ->
        (forall c, In (path, c) (disk w')
                   <-> c = fst (env_encode env path (failedChunks st)))
        /\ last (terminal w') LogPanic = LogLedgerWritten path)
    /\ (ledger_due path (failedChunks st) = true ->
        forall e, env_create env path = Some e ->
        last (terminal w') LogPanic = LogLedgerNotWritten path e).
Proof.
  assert (Hb0 : balanced locals0) by (unfold balanced; split; reflexivity).
  unfold ReviewAndFixLoop, supported.
  destruct (String.eqb lang "go" || String.eqb lang "php").
  - set (langCfg := lookupLanguage (Languages cfg) lang).
    destruct (chunks_loop_facts env l lang dir writeTests maxRetries
                (ReviewPrompt langCfg) (TestPrompt langCfg) chunks 0
                (len chunks) locals0 w)
      as (st & w1 & -> & (new & Hnew & Hrec & Hsort) & Hbal & Hled & Hrem & Hwt & Hmr).
    cbn [failedChunks locals0 app] in Hnew. subst new.
    destruct (finish_facts env lang writeTests keepTests path st w1)
      as (Hfl & Hfn & Hfw & Hfc & Hfe).
    exists st, (finish env lang writeTests keepTests path st w1).
    split; [reflexivity|]. split; [discriminate|].
    split; [exact Hrec|]. split; [exact Hsort|].
    split; [auto|]. split; [congruence|]. split; [|split; [|split]].
    + intros Hw. destruct (Hwt Hw) as (H1 & H2 & H3 & H4 & H5 & H6).
      destruct (Hfw Hw) as (G1 & G2 & G3 & G4 & G5 & G6).
      cbn [writtenFiles totalTests locals0] in H5, H6.
      repeat split; try congruence.
      * intros Hin. apply (G5 f c) in Hin; [|assumption]. congruence.
      * intros Hin. apply (G5 f c); [assumption|]. congruence.
      * intros Hc. rewrite (G6 Hc). exact H4.
    + intros Hm. destruct (Hmr Hm) as [H1 H2].
      cbn [failedChunks locals0] in H2. unfold no_backend_effect in *.
      split; [intuition congruence|congruence].
    + exact Hfc.
    + exact Hfe.
  - exists locals0, w. split; [reflexivity|]. split; [reflexivity|].
    cbn [failedChunks locals0]. unfold ledger_written, ledger_due.
    cbn [len List.length Z.of_nat Z.ltb Z.compare andb]. rewrite app_nil_r.
    unfold no_backend_effect.
    repeat split; auto; try constructor; try discriminate.
Qed.

(** The ledger of a run holds at most one record per chunk, in
    increasing order of the chunk index, every index within the chunk
    list, and every error text containing "context deadline exceeded". *)
Theorem ledger_holds_timeouts_in_order (w : World) :
  exists err st w',
    ReviewAndFixLoop env l cfg lang chunks writeTests dir keepTests maxRetries
                     path w
    = Returns (err, st, w')
    /\ Forall (timeout_record 0 (len chunks)) (failedChunks st)
    /\ StronglySorted index_lt (failedChunks st).
Proof.
  destruct (run_facts w) as (st & w' & Hrun & _ & Hrec & Hsort & _).
  do 3 eexists. split; [exact Hrun|]. split; assumption.
Qed.

(** The counters of the summary agree: every written test was counted
    once, as passed or as failed, and the written files are as many as
    the tests counted. *)
Theorem summary_counters_agree (w : World) :
  exists err st w',
    ReviewAndFixLoop env l cfg lang chunks writeTests dir keepTests maxRetries
                     path w
    = Returns (err, st, w')
    /\ totalTests st = testsPassed st + testsFailed st
    /\ totalTests st = len (writtenFiles st).
Proof.
  destruct (run_facts w) as (st & w' & Hrun & _ & _ & _ & [H1 H2] & _).
  do 3 eexists. split; [exact Hrun|]. split; assumption.
Qed.

(** At its end a run writes at most one ledger file. It tries to when
    there is a record and the path is not empty. When the file can be
    created, it holds afterwards exactly what the encoder managed to
    write, the run reports "Wrote failed chunks" last, also after an
    encoding error, and the records count as written only when the
    encoder reported no error; when the file cannot be created the run
    reports that last. Nothing else adds to the written ledgers. *)
Theorem ledger_file_written_once (w : World) :
  exists err st w',
    ReviewAndFixLoop env l cfg lang chunks writeTests dir keepTests maxRetries
                     path w
    = Returns (err, st, w')
    /\ ledgers w' = ledgers w ++ ledger_written env path (failedChunks st)
    /\ (ledger_due path (failedChunks st) = true ->
        env_create env path = None ->
        (forall c, In (path, c) (disk w')
                   <-> c = fst (env_encode env path (failedChunks st)))
        /\ last (terminal w') LogPanic = LogLedgerWritten path)
    /\ (ledger_due path (failedChunks st) = true ->
        forall e, env_create env path = Some e ->
        last (terminal w') LogPanic = LogLedgerNotWritten path e).
Proof.
  destruct (run_facts w) as (st & w' & Hrun & _ & _ & _ & _ & Hl & _ & _ & Hc & He).
  do 3 eexists. split; [exact Hrun|]. split; [exact Hl|]. split; assumption.
Qed.

(** With a retry limit of zero or less no request reaches the backend:
    every chunk passes as reviewed with an empty review, no failure is
    recorded and the run reports success. *)
Theorem zero_retries_skip_the_backend (w : World) :
  maxRetries <= 0 ->
  exists err st w',
    ReviewAndFixLoop env l cfg lang chunks writeTests dir keepTests maxRetries
                     path w
    = Returns (err, st, w')
    /\ chat_calls w' = chat_calls w
    /\ http_attempts w' = http_attempts w
    /\ sleeps w' = sleeps w
    /\ failedChunks st = [].
Proof.
  intros Hm.
  destruct (run_facts w) as (st & w' & Hrun & _ & _ & _ & _ & _ & _ & Hmr & _).
  destruct (Hmr Hm) as [(H1 & H2 & H3 & H4) H5].
  do 3 eexists. split; [exact Hrun|]. repeat split; assumption.
Qed.

End RunFacts.

(** Without [writeTests] a run writes, runs and removes no test file and
    reads no clock: no test is counted and no file listed. The one file
    it may touch is the ledger file, which [os.Create] creates or
    truncates at the end of a run that has a failure to record: every
    file of another name is as it was, and the disk is unchanged when
    no ledger is due or the ledger file cannot be created. *)
Theorem no_files_without_write_tests (env : Env) (l : Client.LLMClient)
        (cfg : Config) (lang dir path : string) (chunks : list string)
        (keepTests : bool) (maxRetries : Z) (w : World) :
  exists err st w',
    Orchestrator.ReviewAndFixLoop env l cfg lang chunks false dir keepTests
                                  maxRetries path w
    = Returns (err, st, w')
    /\ write_calls w' = write_calls w
    /\ run_calls w' = run_calls w
    /\ remove_calls w' = remove_calls w
    /\ clock_reads w' = clock_reads w
    /\ Orchestrator.writtenFiles st = []
    /\ Orchestrator.totalTests st = 0
    /\ (forall f c, f <> path -> In (f, c) (disk w') <-> In (f, c) (disk w))
    /\ (ledger_due path (Orchestrator.failedChunks st) = false
        \/ env_create env path <> None -> disk w' = disk w).
Proof.
  destruct (run_facts env l cfg lang dir path chunks false keepTests maxRetries w)
    as (st & w' & Hrun & _ & _ & _ & _ & _ & Hwt & _).
  destruct (Hwt eq_refl) as (H1 & H2 & H3 & H4 & H5 & H6 & H7 & H8).
  do 3 eexists. split; [exact Hrun|]. repeat split; try assumption.
  - apply H7. assumption.
  - apply H7. assumption.
Qed.

Lemma zero_retries_skip_the_backend_witness :
  exists err st w',
    Orchestrator.ReviewAndFixLoop silent_env local_client go_config "go"
      ["func a() {}"; "func b() {}"]%string true "out" false 0
      "failed_chunks.json" world0
    = Returns (err, st, w')
    /\ chat_calls w' = chat_calls world0
    /\ http_attempts w' = http_attempts world0
    /\ sleeps w' = sleeps world0
    /\ Orchestrator.failedChunks st = [].
Proof.
  apply (zero_retries_skip_the_backend silent_env local_client go_config "go"
           "out" "failed_chunks.json" ["func a() {}"; "func b() {}"]%string
           true false 0 world0).
  lia.
Defined.

(** ** The attempts of the orchestrator *)

Section AttemptFacts.
Import Client Orchestrator.
Variable env : Env.
Variable l : LLMClient.
Variables (lang reviewPrompt : string) (maxRetries : Z).

(** The review of one chunk is retried in two layers: up to
    [maxRetries] calls of [ReviewChunk], each of which makes up to three
    HTTP attempts on the local server, so at most [3 * maxRetries]
    requests in all; the orchestrator sleeps after every failed call, the
    last one included, and touches no file. *)
Theorem chunk_review_is_retried_in_layers (i : Z) (chunk : string) (w : World) :
  let '(_, e, w') :=
    review_attempts env l lang maxRetries reviewPrompt (Z.to_nat maxRetries) 0 i
                    chunk EmptyString None w in
  (chat_calls w' + http_attempts w'
   <= chat_calls w + http_attempts w + 3 * Z.to_nat maxRetries)%nat
  /\ (sleeps w' <= sleeps w + Z.to_nat maxRetries)%nat
  /\ (0 < maxRetries -> e <> None ->
      sleeps w' = (sleeps w + Z.to_nat maxRetries)%nat)
  /\ no_disk_effect w w'.
Proof.
  destruct (review_attempts env l lang maxRetries reviewPrompt (Z.to_nat maxRetries)
              0 i chunk EmptyString None w) as [[r e] w'] eqn:Hr.
  apply (review_attempts_frame env l lang maxRetries reviewPrompt) in Hr.
  destruct Hr as (Hd & _ & _ & Hsum & _ & Hsl & Hall & _).
  repeat split; try lia; try apply Hd.
  intros Hm He. apply Hall; [lia|assumption].
Qed.

Lemma review_attempts_succeed_later (c : string) (rest : list string) :
  provider l = "openai"%string ->
  forall j n retries i chunk review err w,
    (j < n)%nat ->
    (forall k req, (k < j)%nat ->
                   exists e, env_chat env (chat_calls w + k) req = Fail e) ->
    (forall req, env_chat env (chat_calls w + j) req = Ok (c :: rest)) ->
    exists w',
      review_attempts env l lang maxRetries reviewPrompt n retries i chunk review
                      err w
      = (c, None, w')
      /\ chat_calls w' = (chat_calls w + S j)%nat
      /\ sleeps w' = (sleeps w + j)%nat
      /\ List.length (terminal w') = (List.length (terminal w) + j)%nat.
Proof.
  intros Hp. induction j as [|j IH];
    intros n retries i chunk review err w Hj Hfail Hok;
    (destruct n as [|n]; [lia|]); cbn [review_attempts];
    unfold ReviewChunk; rewrite Hp;
    change (String.eqb "openai" "openai") with true; cbv iota;
    unfold openaiChat.
  - rewrite <- (Nat.add_0_r (chat_calls w)), Hok.
    eexists. split; [reflexivity|].
    cbn [chat_calls sleeps terminal count_chat]. repeat split; lia.
  - destruct (Hfail 0%nat (chat_request l reviewPrompt (review_content lang chunk))
                ltac:(lia)) as (e & He).
    rewrite Nat.add_0_r in He. rewrite He.
    destruct (IH n (retries + 1) i chunk EmptyString (Some e)
                 (count_sleep (say (LogReviewError (i + 1) (retries + 1)
                                                   maxRetries e) (count_chat w))))
      as (w' & Hrun & Hc & Hs & Ht).
    + lia.
    + intros k req Hk. cbn [chat_calls count_sleep say count_chat].
      replace (S (chat_calls w) + k)%nat with (chat_calls w + S k)%nat by lia.
      apply Hfail. lia.
    + intros req. cbn [chat_calls count_sleep say count_chat].
      replace (S (chat_calls w) + j)%nat with (chat_calls w + S j)%nat by lia.
      apply Hok.
    + exists w'. split; [exact Hrun|].
      cbn [chat_calls sleeps terminal count_sleep say count_chat] in Hc, Hs, Ht.
      rewrite length_app in Ht. cbn [List.length] in Ht. repeat split; lia.
Qed.

(** Scenario B of the specification, for every number of failures: a
    hosted backend that fails [j] requests and answers the next, with
    [j] below the retry limit, gives the review of the answer with a nil
    error after [j + 1] requests, [j] printed errors and [j] sleeps. *)
Theorem review_succeeds_after_failures (i : Z) (chunk c : string)
        (rest : list string) (w : World) (j : nat) :
  provider l = "openai"%string ->
  Z.of_nat j < maxRetries ->
  (forall k req, (k < j)%nat ->
                 exists e, env_chat env (chat_calls w + k) req = Fail e) ->
  (forall req, env_chat env (chat_calls w + j) req = Ok (c :: rest)) ->
  exists w',
    review_attempts env l lang maxRetries reviewPrompt (Z.to_nat maxRetries) 0 i
                    chunk EmptyString None w
    = (c, None, w')
    /\ chat_calls w' = (chat_calls w + S j)%nat
    /\ sleeps w' = (sleeps w + j)%nat
    /\ List.length (terminal w') = (List.length (terminal w) + j)%nat.
Proof.
  intros Hp Hj Hfail Hok.
  apply (review_attempts_succeed_later c rest Hp j); auto. lia.
Qed.

End AttemptFacts.

Lemma review_succeeds_after_failures_witness :
  exists w',
    Orchestrator.review_attempts (flaky_hosted 2) hosted_client "go" 3
      "Review this." (Z.to_nat 3) 0 0 "func a() {}" EmptyString None world0
    = ("Looks fine."%string, None, w')
    /\ chat_calls w' = (chat_calls world0 + 3)%nat
    /\ sleeps w' = (sleeps world0 + 2)%nat
    /\ List.length (terminal w') = (List.length (terminal world0) + 2)%nat.
Proof.
  apply (review_succeeds_after_failures (flaky_hosted 2) hosted_client "go"
           "Review this." 3 0 "func a() {}" "Looks fine." [] world0 2).
  - reflexivity.
  - lia.
  - intros k req Hk. eexists. simpl.
    destruct k as [|[|k]]; [reflexivity|reflexivity|lia].
  - intros req. reflexivity.
Defined.

(** ** Start-up: language detection, health check, empty diffs *)

Section StartFacts.
Import Strings Client Main.

(** A language that is detected is a key of the configuration whose
    extension ends the file name, or occurs in the diff. *)
Theorem detected_language_is_configured (name diff : string)
        (langs : list (string * LanguageConfig)) :
  (detectLangFromFilename name langs <> EmptyString ->
   exists lcfg, In (detectLangFromFilename name langs, lcfg) langs
                /\ HasSuffix name (Extension lcfg) = true)
  /\ (detectLangFromDiff diff langs <> EmptyString ->
      exists lcfg, In (detectLangFromDiff diff langs, lcfg) langs
                   /\ Contains diff (Extension lcfg) = true).
Proof.
  split; induction langs as [|[k v] rest IH]; cbn [detectLangFromFilename
                                                   detectLangFromDiff];
    try congruence.
  - destruct (HasSuffix name (Extension v)) eqn:E.
    + intros _. exists v. split; [now left|assumption].
    + intros H. destruct (IH H) as (lcfg & Hin & Hs).
      exists lcfg. split; [now right|assumption].
  - destruct (Contains diff (Extension v)) eqn:E.
    + intros _. exists v. split; [now left|assumption].
    + intros H. destruct (IH H) as (lcfg & Hin & Hs).
      exists lcfg. split; [now right|assumption].
Qed.

(** The client built from a configuration is healthy exactly when, for
    the local server, the models endpoint next to the chat endpoint
    answers with status 200, and, for any other provider, the key is not
    empty; the hosted variant is not probed. *)
Theorem health_of_the_built_client (get : string -> Probe) (cfg : Config)
        (key : string) :
  HealthCheck get (NewLLMClientWithProvider cfg key) = None
  <-> if String.eqb (LLMProvider cfg) "lmstudio"
      then get models_url = ProbeStatus 200
      else key <> EmptyString.
Proof.
  unfold NewLLMClientWithProvider, HealthCheck.
  destruct (String.eqb (LLMProvider cfg) "lmstudio").
  - cbn [provider lmstudioURL].
    change (String.eqb "lmstudio" "lmstudio") with true. cbv iota.
    replace (Replace1 "http://127.0.0.1:1234/v1/chat/completions"
                      "/v1/chat/completions" "/v1/models")
      with models_url by (vm_compute; reflexivity).
    destruct (get models_url) as [e|e|status]; split; try discriminate.
    + destruct (Z.eqb_spec status 200) as [->|]; [reflexivity|discriminate].
    + intros H. inversion H. reflexivity.
  - cbn [provider apiKey].
    change (String.eqb "openai" "lmstudio") with false.
    change (String.eqb "openai" "openai") with true. cbv iota. cbn [andb].
    destruct (String.eqb_spec key EmptyString); split; congruence.
Qed.

(** With nothing changed, the two diff modes part ways: the branch diff
    ends the run quietly, the uncommitted diff goes on to review one
    empty chunk as Go code (the PHP extension of the configuration being
    set). *)
Theorem empty_diff_is_reviewed_when_uncommitted (inp : Inputs) (fl : Flags)
        (cfg : Config) (chunks : list string) :
  1 <= ChunkSize cfg <= max_int ->
  Extension (lookupLanguage (Languages cfg) "php") <> EmptyString ->
  in_uncommitted inp (dir fl) = Ok EmptyString ->
  in_branch inp (dir fl) (base fl) = Ok EmptyString ->
  mode fl = "diff-uncommitted"%string \/ mode fl = "diff-branch"%string ->
  mode_switch inp fl cfg chunks
  = if String.eqb (mode fl) "diff-branch" then Quiet
    else Reviews [("go"%string, [EmptyString])].
Proof.
  intros Hk Hphp Hu Hb [Hm|Hm]; unfold mode_switch; rewrite Hm.
  - change (String.eqb "diff-uncommitted" "diff-uncommitted") with true.
    change (String.eqb "diff-uncommitted" "diff-branch") with false.
    cbv iota. rewrite Hu.
    assert (He : forall e, e <> EmptyString -> Contains EmptyString e = false).
    { intros e Hne. unfold Contains. cbn [Index].
      destruct e as [|c e]; [congruence|]. reflexivity. }
    rewrite (He _ Hphp).
    unfold Chunker.ChunkDiff.
    rewrite (chunk_lines_single EmptyString (ChunkSize cfg) Hk)
      by (unfold Chunker.line_count, len; simpl; lia).
    destruct (Contains EmptyString
                (Extension (lookupLanguage (Languages cfg) "go"))); reflexivity.
  - change (String.eqb "diff-branch" "diff-uncommitted") with false.
    change (String.eqb "diff-branch" "diff-branch") with true.
    cbv iota. rewrite Hb. reflexivity.
Qed.

End StartFacts.

Lemma empty_diff_is_reviewed_when_uncommitted_witness :
  Main.mode_switch unchanged_inputs (diff_flags "diff-uncommitted") go_config []
  = Main.Reviews [("go"%string, [EmptyString])].
Proof.
  apply (empty_diff_is_reviewed_when_uncommitted unchanged_inputs
           (diff_flags "diff-uncommitted") go_config []).
  - unfold max_int. simpl. lia.
  - discriminate.
  - reflexivity.
  - reflexivity.
  - left. reflexivity.
Defined.

Section ProjectReviews.
Import Chunker Main.

Lemma project_reviews_calls (fs : FileSystem) (files : string -> list string)
      (k : Z) :
  forall visit calls0 calls,
    project_reviews fs visit files k calls0 = Reviews calls ->
    Forall (fun c => In (fst c) visit \/ In c calls0) calls
    /\ (Forall (fun c => snd c <> []) calls0 -> Forall (fun c => snd c <> []) calls).
Proof.
  induction visit as [|v visit IH]; intros calls0 calls Hrun.
  - cbn [project_reviews] in Hrun. inversion Hrun; subst. split; [|auto].
    apply Forall_forall. intros c Hc. now right.
  - cbn [project_reviews] in Hrun.
    assert (Hskip : project_reviews fs visit files k calls0 = Reviews calls ->
              Forall (fun c => In (fst c) (v :: visit) \/ In c calls0) calls
              /\ (Forall (fun c => snd c <> []) calls0 ->
                  Forall (fun c => snd c <> []) calls)).
    { intros H. apply IH in H. destruct H as [H1 H2]. split; [|exact H2].
      eapply Forall_impl; [|exact H1]. intros c [Hc|Hc]; [left; now right|now right]. }
    destruct (files v) as [|f fsv]; [now apply Hskip|].
    destruct (lang_chunks fs (f :: fsv) k []) as [[|c0 cs]| |];
      try discriminate; [now apply Hskip|].
    apply IH in Hrun. destruct Hrun as [H1 H2]. split.
    + eapply Forall_impl; [|exact H1]. intros c [Hc|Hc]; [left; now right|].
      apply in_app_or in Hc as [Hc|[<-|[]]]; [now right|left; now left].
    + intros H0. apply H2. apply Forall_app. split; [exact H0|].
      constructor; [discriminate|constructor].
Qed.

(** In [review-project] mode every call of [ReviewAndFixLoop] is for a
    language the iteration visits and has at least one chunk: a language
    without files, or whose files cannot be read, is passed over. *)
Theorem project_reviews_have_chunks (fs : FileSystem) (visit : list string)
        (files : string -> list string) (k : Z)
        (calls : list (string * list string)) :
  project_reviews fs visit files k [] = Reviews calls ->
  Forall (fun c => In (fst c) visit /\ snd c <> []) calls.
Proof.
  intros Hrun. apply project_reviews_calls in Hrun. destruct Hrun as [H1 H2].
  specialize (H2 (Forall_nil _)).
  apply Forall_forall. intros c Hc. split.
  - rewrite Forall_forall in H1. destruct (H1 c Hc) as [H|[]]. exact H.
  - rewrite Forall_forall in H2. now apply H2.
Qed.

End ProjectReviews.

Lemma project_reviews_have_chunks_witness :
  Forall (fun c => In (fst c) ["go"; "php"]%string /\ snd c <> [])
         [("go"%string, [six_lines])].
Proof.
  apply (project_reviews_have_chunks (fun _ => Ok six_lines) ["go"; "php"]%string
           (fun lg => if String.eqb lg "go" then ["a.go"%string] else []) 6).
  vm_compute. reflexivity.
Defined.

(** The end of a run with one timed-out chunk, on a disk that takes the
    ledger: the older ledger file is replaced by the encoded records. *)
Example ledger_replaces_the_old_one :
  disk (Orchestrator.finish silent_env "go" false false "failed_chunks.json"
                            one_timeout old_ledger)
  = [("main.go", "M");
     ("failed_chunks.json", render_ledger (Orchestrator.failedChunks one_timeout))]%string
  /\ ledgers (Orchestrator.finish silent_env "go" false false "failed_chunks.json"
                                  one_timeout old_ledger)
     = [("failed_chunks.json"%string, Orchestrator.failedChunks one_timeout)].
Proof. split; reflexivity. Qed.

(** The same end of a run on a disk that takes two bytes of the ledger:
    the older ledger file is gone, the new one holds the two bytes, the
    records do not count as written, and the run still reports "Wrote
    failed chunks" after the encoding error. *)
Example ledger_cut_short :
  disk (Orchestrator.finish short_write_env "go" false false "failed_chunks.json"
                            one_timeout old_ledger)
  = [("main.go", "M"); ("failed_chunks.json", "[{")]%string
  /\ ledgers (Orchestrator.finish short_write_env "go" false false
                                  "failed_chunks.json" one_timeout old_ledger)
     = []
  /\ terminal (Orchestrator.finish short_write_env "go" false false
                                   "failed_chunks.json" one_timeout old_ledger)
     = [LogSummary "go"; LogEncodeFailed "no space left on device";
        LogLedgerWritten "failed_chunks.json"].
Proof. repeat split; reflexivity. Qed.

(** A run without [--write-tests] in which three chunks time out: no
    test file is written, and the ledger file is created. *)
Example ledger_written_without_write_tests :
  exists st w,
    Orchestrator.ReviewAndFixLoop (hosted_env timeouts_around_a_success)
      hosted_client go_config "go"
      ["func a() {}"; "func b() {}"; "func c() {}"; "func d() {}"]%string
      false "." false 1 "failed_chunks.json" world0
    = Returns (None, st, w)
    /\ write_calls w = 0%nat
    /\ disk w = [("failed_chunks.json"%string,
                  render_ledger (Orchestrator.failedChunks st))]
    /\ map Index (Orchestrator.failedChunks st) = [0; 1; 3]
    /\ last (terminal w) LogPanic = LogLedgerWritten "failed_chunks.json".
Proof.
  eexists. eexists. split; [vm_compute; reflexivity|].
  repeat split; reflexivity.
Qed.
